(** * rearview: a back-test of a fixed-withdrawal strategy (main.go)

    A shallow embedding of the back-testing engine of [main.go]
    ([findClosestDay], [checkInPeriod], [checkStrategy] and the guard of
    [main] in front of it) and the properties of the design document
    checked against it.

    Conventions.
    - Go's [int] and [int64] are 64-bit two's complement integers: values
      are kept in [Z] and every arithmetic result goes through [wrap64].
    - [float64] is the kernel's binary64 type [float]; its operations are
      the IEEE 754 ones Go uses ([*], [/], [+], [>=]).
    - A [time.Time] produced by [time.Date(y, m, d, 0, 0, 0, 0, time.UTC)]
      is a UTC midnight; it is kept as its day number (days since
      1970-01-01), on which [After] and [Equal] are [<] and [=].
    - What the program takes from Go's library and from the platform
      ([math.Pow], [Time.AddDate], the result of an out-of-range
      float-to-integer conversion) is the interface [GoRuntime];
      the general theorems hold for every instance, the worked scenarios
      run on the instance [go_amd64].
    - A run-time panic is the result [Panic].
    - For [parseCSVFile] the csv reader is the list of what its [Read]
      calls return, and what [fmt.Sscanf] stores is the interface [GoFmt].
    - Where a property depends on the accuracy of float64 arithmetic, the
      operations are taken through their IEEE 754 specification
      ([SpecFloat]) and compared with the real numbers they round. *)

From Stdlib Require Import Reals Lra Psatz.
From Stdlib Require Import String Ascii ZArith List Bool Lia Sorted.
From Stdlib Require Import Floats Uint63.
Import ListNotations.

Local Open Scope Z_scope.

(* ===================================================================== *)
(** ** Machine integers *)

Definition MinInt64 : Z := - 2 ^ 63.
Definition MaxInt64 : Z := 2 ^ 63 - 1.

Definition in_int (z : Z) : Prop := MinInt64 <= z <= MaxInt64.

(** Two's complement wrap-around of a 64-bit signed result. *)
Definition wrap64 (z : Z) : Z := (z + 2 ^ 63) mod 2 ^ 64 - 2 ^ 63.

Definition int_add (a b : Z) : Z := wrap64 (a + b).
Definition int_sub (a b : Z) : Z := wrap64 (a - b).
Definition int_mul (a b : Z) : Z := wrap64 (a * b).

(* ===================================================================== *)
(** ** float64 and its conversions *)

Definition two63 : float := Eval compute in Z.ldexp one 63.

(** [float64(x)] for an integer [x]: the nearest binary64, ties to even. *)
Definition float64_of_int (z : Z) : float :=
  if z <? 0 then
    if z =? MinInt64 then (- two63)%float
    else (- of_uint63 (Uint63.of_Z (- z)))%float
  else of_uint63 (Uint63.of_Z z).

(** The integer part of a binary64, rounded toward zero; [None] for an
    infinity or a NaN. *)
Definition SFtrunc (x : spec_float) : option Z :=
  match x with
  | S754_zero _ => Some 0
  | S754_finite s m e =>
      let a := if 0 <=? e then Zpos m * 2 ^ e else Zpos m / 2 ^ (- e) in
      Some (if s then - a else a)
  | S754_infinity _ | S754_nan => None
  end.

(** The largest integer below or equal to a binary64 (the mathematical
    floor); [None] for an infinity or a NaN. *)
Definition SFfloor (x : spec_float) : option Z :=
  match x with
  | S754_zero _ => Some 0
  | S754_finite s m e =>
      let n := if s then Zneg m else Zpos m in
      Some (if 0 <=? e then n * 2 ^ e else n / 2 ^ (- e))
  | S754_infinity _ | S754_nan => None
  end.

Definition float_trunc (f : float) : option Z := SFtrunc (Prim2SF f).
Definition float_floor (f : float) : option Z := SFfloor (Prim2SF f).

(** [a >= b] on float64. *)
Definition float_ge (a b : float) : bool := (b <=? a)%float.

(* ===================================================================== *)
(** ** Dates *)

Definition Time : Type := Z.

Definition After (t u : Time) : bool := u <? t.
Definition Equal (t u : Time) : bool := t =? u.

(** Day number of the civil date [y-m-d] (proleptic Gregorian calendar,
    [m] in 1..12, any [d]): day 1 of the month plus [d - 1] days, which is
    how [time.Date] normalises a day outside the month. *)
Definition days_from_civil (y m d : Z) : Z :=
  let y' := if m <=? 2 then y - 1 else y in
  let era := y' / 400 in
  let yoe := y' - era * 400 in
  let mp := (m + 9) mod 12 in
  let doy := (153 * mp + 2) / 5 + d - 1 in
  let doe := yoe * 365 + yoe / 4 - yoe / 100 + doy in
  era * 146097 + doe - 719468.

(** The civil date of a day number. *)
Definition civil_from_days (z : Z) : Z * Z * Z :=
  let z' := z + 719468 in
  let era := z' / 146097 in
  let doe := z' - era * 146097 in
  let yoe := (doe - doe / 1460 + doe / 36524 - doe / 146096) / 365 in
  let doy := doe - (365 * yoe + yoe / 4 - yoe / 100) in
  let mp := (5 * doy + 2) / 153 in
  let d := doy - (153 * mp + 2) / 5 + 1 in
  let m := if mp <? 10 then mp + 3 else mp - 9 in
  let y := yoe + era * 400 in
  ((if m <=? 2 then y + 1 else y), m, d).

(** [time.Date(y, m, d, 0, 0, 0, 0, time.UTC)]: months outside 1..12 carry
    into the year, days outside the month into the following months. *)
Definition time_Date (y m d : Z) : Time :=
  let m0 := m - 1 in
  days_from_civil (y + m0 / 12) (m0 mod 12 + 1) d.

(** [t.AddDate(years, 0, 0)] on the calendar: same month and day in the
    year [years] later, normalised as [time.Date] does (29 February plus
    one year is 1 March). *)
Definition calendar_AddDate (years : Z) (t : Time) : Time :=
  let '(y, m, d) := civil_from_days t in
  time_Date (y + years) m d.

(* ===================================================================== *)
(** ** The Go library and platform the program runs on *)

Class GoRuntime : Type := {
  (** [math.Pow(x, y)] *)
  math_Pow : float -> float -> float;
  (** [t.AddDate(years, 0, 0)] *)
  time_AddDate : Z -> Time -> Time;
  (** [int64(f)] when [f] is a NaN, an infinity or outside the range of
      int64: the language leaves the value to the implementation. *)
  int64_indefinite : float -> Z
}.

Section Conversions.
Context {rt : GoRuntime}.

(** [int64(f)]: the fraction is discarded (truncation toward zero). *)
Definition int64_of_float (f : float) : Z :=
  match float_trunc f with
  | Some z => if (MinInt64 <=? z) && (z <=? MaxInt64) then z
              else wrap64 (int64_indefinite f)
  | None => wrap64 (int64_indefinite f)
  end.

End Conversions.

(* ===================================================================== *)
(** ** Results that may panic *)

Inductive Res (A : Type) : Type :=
| Ok (a : A)
| Panic (msg : string).
Arguments Ok {A} a.
Arguments Panic {A} msg.

Definition bind {A B : Type} (m : Res A) (k : A -> Res B) : Res B :=
  match m with
  | Ok a => k a
  | Panic msg => Panic msg
  end.

Notation "x <- m ;; k" := (bind m (fun x => k))
  (at level 61, m at next level, right associativity).
Notation "' p <- m ;; k" := (bind m (fun x => let p := x in k))
  (at level 61, p pattern, m at next level, right associativity).

(* ===================================================================== *)
(** ** The data of main.go *)

Record datePrice : Type := {
  Date : Time;
  HighPrice : float
}.

Record config : Type := {
  capital : Z;            (* int64 *)
  run : Z;                (* int *)
  yearPerRun : Z;         (* int *)
  inflationRate : float;
  costPerYear : Z         (* int *)
}.

(** [config.run], under a name that the loop variable [run] of
    [checkInPeriod] does not hide. *)
Definition config_run (c : config) : Z := run c.

(** The check results: [const ( success = iota; failed; na )]. *)
Definition success : Z := 0.
Definition failed : Z := 1.
Definition na : Z := 2.

(** [s[i]] on a slice: out of range it panics. *)
Definition index {A : Type} (s : list A) (i : Z) : Res A :=
  if (0 <=? i) && (i <? Z.of_nat (length s)) then
    match nth_error s (Z.to_nat i) with
    | Some a => Ok a
    | None => Panic "index out of range"%string
    end
  else Panic "index out of range"%string.

(** [s[i:]] for [0 <= i <= len(s)]. *)
Definition slice_from {A : Type} (s : list A) (i : Z) : list A :=
  skipn (Z.to_nat i) s.

Definition len {A : Type} (s : list A) : Z := Z.of_nat (length s).

(* ===================================================================== *)
(** ** sort.Search and findClosestDay *)

(** The loop of [sort.Search]:
<<
    i, j := 0, n
    for i < j {
        h := int(uint(i+j) >> 1)
        if !f(h) { i = h + 1 } else { j = h }
    }
    return i
>>
    [fuel] bounds the number of iterations; [Search] starts it with [n],
    which is enough since [j - i] shrinks at every iteration
    ([Search_loop_monotone]). *)
Fixpoint Search_loop (fuel : nat) (f : Z -> bool) (i j : Z) : Z :=
  match fuel with
  | O => i
  | S fuel' =>
      if i <? j then
        let h := Z.shiftr ((i + j) mod 2 ^ 64) 1 in
        if negb (f h) then Search_loop fuel' f (h + 1) j
        else Search_loop fuel' f i h
      else i
  end.

Definition Search (n : Z) (f : Z -> bool) : Z :=
  Search_loop (Z.to_nat n) f 0 n.

Definition zero_datePrice : datePrice := {| Date := 0; HighPrice := zero |}.

(** [inDatePrices[i].Date] as the closure handed to [sort.Search] reads
    it; [Search] probes indices of the slice only ([Search_loop_ext]). *)
Definition date_at (inDatePrices : list datePrice) (i : Z) : Time :=
  Date (nth (Z.to_nat i) inDatePrices zero_datePrice).

(** The closure of [findClosestDay]:
    [datePriceDate.After(day) || datePriceDate.Equal(day)]. *)
Definition on_or_after (day : Time) (inDatePrices : list datePrice) (i : Z)
  : bool :=
  let datePriceDate := date_at inDatePrices i in
  After datePriceDate day || Equal datePriceDate day.

Definition findClosestDay (day : Time) (inDatePrices : list datePrice)
  : Z * bool :=
  let index := Search (len inDatePrices) (on_or_after day inDatePrices) in
  if index =? len inDatePrices then (-1, false) else (index, true).

(* ===================================================================== *)
(** ** checkInPeriod *)

(** The local variables of one iteration of the [run] loop of
    [checkInPeriod] in which both days were found: what the iteration
    computed, and the sale, if the window had a satisfying day. *)
Record runInfo : Type := {
  ri_run : Z;
  ri_startDay : Time;
  ri_endDay : Time;
  ri_startIndex : Z;
  ri_endIndex : Z;
  ri_targetCapital : float;
  ri_costOfLiving : float;
  ri_heldBefore : Z;                (* heldShares when the scan starts *)
  ri_sale : option (Z * Z);         (* currIndex and soldShares *)
  ri_heldAfter : Z                  (* heldShares when the scan is over *)
}.

(** How one iteration of the [run] loop ends. *)
Inductive step : Type :=
| NoMoreDate                 (* a day was not found *)
| Window (info : runInfo).   (* both days found, window scanned *)

Section Engine.
Context {rt : GoRuntime}.

(** [math.Pow(config.inflationRate, float64((run+1)*config.yearPerRun))] *)
Definition inflation_of (config : config) (run : Z) : float :=
  math_Pow (inflationRate config)
           (float64_of_int (int_mul (int_add run 1) (yearPerRun config))).

(** The scan of one window:
<<
    for currIndex := startIndex; currIndex < endIndex; currIndex++ {
        datePrice := datePrices[currIndex]
        if float64(heldShares)*datePrice.HighPrice >= targetCapital {
            soldShares := int64(costOfLiving / datePrice.HighPrice)
            ...
            break
        }
    }
>>
    It returns the index of the first satisfying day and the shares sold
    there, or [None] when the loop ends with [satisfied] still false.
    [fuel] is [endIndex - startIndex], the number of iterations left. *)
Fixpoint scan (fuel : nat) (datePrices : list datePrice) (heldShares : Z)
  (targetCapital costOfLiving : float) (currIndex endIndex : Z)
  : Res (option (Z * Z)) :=
  match fuel with
  | O => Ok None
  | S fuel' =>
      if currIndex <? endIndex then
        datePrice <- index datePrices currIndex ;;
        if float_ge (float64_of_int heldShares * HighPrice datePrice)
                    targetCapital
        then
          let soldShares :=
            int64_of_float (costOfLiving / HighPrice datePrice) in
          Ok (Some (currIndex, soldShares))
        else
          scan fuel' datePrices heldShares targetCapital costOfLiving
               (int_add currIndex 1) endIndex
      else Ok None
  end.

(** One iteration of [for run := 0; run < config.run; run++], entered
    with the values [heldShares] and [endDay] of the loop head ([startDay]
    is overwritten with [endDay] before it is read): either a day is not
    found (the function returns [na]), or the window is scanned. *)
Definition run_body (config : config) (datePrices : list datePrice)
  (run : Z) (heldShares : Z) (endDay : Time) : Res step :=
  let startDay := endDay in
  let endDay := time_AddDate (yearPerRun config) endDay in
  let '(startIndex, sFound) := findClosestDay startDay datePrices in
  let '(endIndex, eFound) := findClosestDay endDay datePrices in
  if negb sFound || negb eFound then Ok NoMoreDate
  else
    let inflationRate := inflation_of config run in
    let inflationCapital :=
      (float64_of_int (capital config) * inflationRate)%float in
    let costOfLiving :=
      (float64_of_int (costPerYear config)
       * float64_of_int (yearPerRun config) * inflationRate)%float in
    let targetCapital := (inflationCapital + costOfLiving)%float in
    (* the arguments of Tracef: datePrices[startIndex].Date and
       datePrices[endIndex].Date *)
    _ <- index datePrices startIndex ;;
    _ <- index datePrices endIndex ;;
    sale <- scan (Z.to_nat (endIndex - startIndex)) datePrices
                 heldShares targetCapital costOfLiving
                 startIndex endIndex ;;
    let heldShares' :=
      match sale with
      | Some (_, soldShares) => int_sub heldShares soldShares
      | None => heldShares
      end in
    Ok (Window
          {| ri_run := run;
             ri_startDay := startDay; ri_endDay := endDay;
             ri_startIndex := startIndex; ri_endIndex := endIndex;
             ri_targetCapital := targetCapital;
             ri_costOfLiving := costOfLiving;
             ri_heldBefore := heldShares;
             ri_sale := sale;
             ri_heldAfter := heldShares' |}).

(** The loop [for run := 0; run < config.run; run++] from the iteration
    [run] on. It returns the check result and the records of the
    iterations that found both days: [na] when a day is not found,
    [failed] after a window without a satisfying day ([!satisfied]),
    [success] when the loop ends. [fuel] is [config.run - run]. *)
Fixpoint run_loop (fuel : nat) (config : config)
  (datePrices : list datePrice) (run : Z) (heldShares : Z) (endDay : Time)
  : Res (Z * list runInfo) :=
  match fuel with
  | O => Ok (success, [])
  | S fuel' =>
      if run <? config_run config then
        st <- run_body config datePrices run heldShares endDay ;;
        match st with
        | NoMoreDate => Ok (na, [])
        | Window info =>
            match ri_sale info with
            | Some _ =>
                '(r, infos) <- run_loop fuel' config datePrices
                                 (int_add run 1) (ri_heldAfter info)
                                 (ri_endDay info) ;;
                Ok (r, info :: infos)
            | None => Ok (failed, [info])
            end
        end
      else Ok (success, [])
  end.

(** [heldShares := int64(float64(config.capital) / datePrices[0].HighPrice)] *)
Definition initial_shares (config : config) (first : datePrice) : Z :=
  int64_of_float (float64_of_int (capital config) / HighPrice first).

(** [checkInPeriod] with the records of its iterations: the check
    result, the initial [heldShares], and one [runInfo] per iteration
    that found both days. *)
Definition checkInPeriod_runs (config : config)
  (datePrices : list datePrice) : Res (Z * Z * list runInfo) :=
  first <- index datePrices 0 ;;
  let heldShares := initial_shares config first in
  '(r, infos) <- run_loop (Z.to_nat (run config)) config datePrices 0
                   heldShares (Date first) ;;
  Ok (r, heldShares, infos).

Definition checkInPeriod (config : config) (datePrices : list datePrice)
  : Res Z :=
  '(r, _, _) <- checkInPeriod_runs config datePrices ;;
  Ok r.

(* ===================================================================== *)
(** ** checkStrategy and the guard of main *)

Record tally : Type := {
  successCount : Z;
  failedCount : Z;
  naCount : Z
}.

(** The [switch r] of [checkStrategy]. *)
Definition count_result (r : Z) (t : tally) : Res tally :=
  if r =? success then
    Ok {| successCount := int_add (successCount t) 1;
          failedCount := failedCount t; naCount := naCount t |}
  else if r =? failed then
    Ok {| successCount := successCount t;
          failedCount := int_add (failedCount t) 1; naCount := naCount t |}
  else if r =? na then
    Ok {| successCount := successCount t;
          failedCount := failedCount t; naCount := int_add (naCount t) 1 |}
  else Panic "unknow check result"%string.

(** [for i := range datePrices] from index [i] on. Besides the tally it
    returns the results of the simulations it executed, in order; they
    stay when a later step panics. [fuel] is [len(datePrices) - i]. *)
Fixpoint range_loop (fuel : nat) (config : config)
  (datePrices : list datePrice) (i : Z) (t : tally) : list Z * Res tally :=
  match fuel with
  | O => ([], Ok t)
  | S fuel' =>
      if i <? len datePrices then
        match checkInPeriod config (slice_from datePrices i) with
        | Panic msg => ([], Panic msg)
        | Ok r =>
            match count_result r t with
            | Panic msg => ([r], Panic msg)
            | Ok t' =>
                let '(rs, res) :=
                  range_loop fuel' config datePrices (int_add i 1) t' in
                (r :: rs, res)
            end
        end
      else ([], Ok t)
  end.

(** What [checkStrategy] prints: the three counts and
    [float64(successCount)/float64(successCount+failedCount)]. *)
Record report : Type := {
  counts : tally;
  rate : float
}.

Definition success_rate (t : tally) : float :=
  (float64_of_int (successCount t)
   / float64_of_int (int_add (successCount t) (failedCount t)))%float.

Definition checkStrategy (config : config) (datePrices : list datePrice)
  : list Z * Res report :=
  let t0 := {| successCount := 0; failedCount := 0; naCount := 0 |} in
  let '(rs, res) :=
    range_loop (length datePrices) config datePrices 0 t0 in
  (rs, t <- res ;; Ok {| counts := t; rate := success_rate t |}).

(** The end of [main]:
<<
    if len(datePrices) == 0 { panic("no input data") }
    checkStrategy(&config, datePrices, logger)
>> *)
Definition main_check (config : config) (datePrices : list datePrice)
  : list Z * Res report :=
  if len datePrices =? 0 then ([], Panic "no input data"%string)
  else checkStrategy config datePrices.

End Engine.

(* ===================================================================== *)
(** ** The terms of the design document *)

(** The fields of a [config] hold Go integers. *)
Definition config_typed (c : config) : Prop :=
  in_int (capital c) /\ in_int (run c) /\ in_int (yearPerRun c)
  /\ in_int (costPerYear c).

(** A StrategyConfig of the data model: initialCapital > 0, numRuns >= 1,
    yearsPerRun >= 1, inflationRate > 1.0, annualCostOfLiving >= 0. *)
Definition valid_config (c : config) : Prop :=
  config_typed c /\ 0 < capital c /\ 1 <= run c /\ 1 <= yearPerRun c
  /\ (1 <? inflationRate c)%float = true /\ 0 <= costPerYear c.

(** A price series sorted ascending by date (duplicates permitted). *)
Definition date_le (a b : datePrice) : Prop := Date a <= Date b.
Definition ascending (s : list datePrice) : Prop := Sorted date_le s.

(** The date of the last sample. *)
Definition last_day (s : list datePrice) : Time :=
  Date (last s zero_datePrice).

(** A price is a positive floating value. *)
Definition positive_price (p : datePrice) : Prop :=
  (0 <? HighPrice p)%float = true.

Section Periods.
Context {rt : GoRuntime}.

(** The start and the end of the period of run [k] of a simulation that
    starts on day [d0]: [endDay] after [k] and after [k + 1] executions of
    [startDay, endDay = endDay, endDay.AddDate(config.yearPerRun, 0, 0)]. *)
Definition period_start (config : config) (d0 : Time) (k : nat) : Time :=
  Nat.iter k (time_AddDate (yearPerRun config)) d0.

Definition period_end (config : config) (d0 : Time) (k : nat) : Time :=
  period_start config d0 (S k).

(** The price of the sample at index [k]. *)
Definition price_at (datePrices : list datePrice) (k : Z) : float :=
  HighPrice (nth (Z.to_nat k) datePrices zero_datePrice).

(** The test of the scan on the sample at [k]:
    [float64(heldShares)*datePrice.HighPrice >= targetCapital]. *)
Definition satisfied_at (datePrices : list datePrice) (heldShares : Z)
  (targetCapital : float) (k : Z) : bool :=
  float_ge (float64_of_int heldShares * price_at datePrices k) targetCapital.

(** The shares sold on the sample at [k]:
    [int64(costOfLiving / datePrice.HighPrice)]. *)
Definition sold_at (datePrices : list datePrice) (costOfLiving : float)
  (k : Z) : Z :=
  int64_of_float (costOfLiving / price_at datePrices k).

(** The target capital of run [r] as the design document writes it, with
    the exponent [n] and the float64 operations of the program. *)
Definition target_formula (config : config) (n : Z) : float :=
  let inflationFactor := math_Pow (inflationRate config) (float64_of_int n) in
  let inflatedCapital :=
    (float64_of_int (capital config) * inflationFactor)%float in
  let costOfLiving :=
    (float64_of_int (costPerYear config)
     * float64_of_int (yearPerRun config) * inflationFactor)%float in
  (inflatedCapital + costOfLiving)%float.

(** The living cost of a run, in the same terms. *)
Definition cost_formula (config : config) (n : Z) : float :=
  (float64_of_int (costPerYear config) * float64_of_int (yearPerRun config)
   * math_Pow (inflationRate config) (float64_of_int n))%float.

(** [info] records iteration [run] of the loop, entered with [heldShares]
    and [endDay]: the window between the two days found, the target of the
    run, and either the first satisfying sample of the window with the
    sale made there, or no satisfying sample in the window. *)
Definition window_of (config : config) (datePrices : list datePrice)
  (run heldShares : Z) (endDay : Time) (info : runInfo) : Prop :=
  let n := int_mul (int_add run 1) (yearPerRun config) in
  ri_run info = run
  /\ ri_startDay info = endDay
  /\ ri_endDay info = time_AddDate (yearPerRun config) endDay
  /\ findClosestDay (ri_startDay info) datePrices = (ri_startIndex info, true)
  /\ findClosestDay (ri_endDay info) datePrices = (ri_endIndex info, true)
  /\ ri_targetCapital info = target_formula config n
  /\ ri_costOfLiving info = cost_formula config n
  /\ ri_heldBefore info = heldShares
  /\ match ri_sale info with
     | Some (k, soldShares) =>
         ri_startIndex info <= k < ri_endIndex info
         /\ satisfied_at datePrices heldShares (ri_targetCapital info) k = true
         /\ (forall j, ri_startIndex info <= j < k ->
               satisfied_at datePrices heldShares (ri_targetCapital info) j
               = false)
         /\ soldShares = sold_at datePrices (ri_costOfLiving info) k
         /\ ri_heldAfter info = int_sub heldShares soldShares
     | None =>
         (forall j, ri_startIndex info <= j < ri_endIndex info ->
            satisfied_at datePrices heldShares (ri_targetCapital info) j
            = false)
         /\ ri_heldAfter info = heldShares
     end.

(** The runs of a simulation as a relation: from iteration [run], entered
    with [heldShares] and [endDay] and with [fuel] iterations to go, the
    loop gives the result [r] and the records [infos]. *)
Inductive runs (config : config) (datePrices : list datePrice)
  : nat -> Z -> Z -> Time -> Z -> list runInfo -> Prop :=
| runs_done fuel run heldShares endDay :
    fuel = O \/ config_run config <= run ->
    runs config datePrices fuel run heldShares endDay success []
| runs_no_more_date fuel run heldShares endDay :
    run < config_run config ->
    last_day datePrices < endDay
    \/ last_day datePrices < time_AddDate (yearPerRun config) endDay ->
    runs config datePrices (S fuel) run heldShares endDay na []
| runs_not_satisfied fuel run heldShares endDay info :
    run < config_run config ->
    window_of config datePrices run heldShares endDay info ->
    ri_sale info = None ->
    runs config datePrices (S fuel) run heldShares endDay failed [info]
| runs_sold fuel run heldShares endDay info r infos :
    run < config_run config ->
    window_of config datePrices run heldShares endDay info ->
    ri_sale info <> None ->
    runs config datePrices fuel (int_add run 1) (ri_heldAfter info)
         (ri_endDay info) r infos ->
    runs config datePrices (S fuel) run heldShares endDay r (info :: infos).

End Periods.

(** The tally of a list of check results. *)
Definition count_of (r : Z) (rs : list Z) : Z :=
  Z.of_nat (count_occ Z.eq_dec rs r).

(* ===================================================================== *)
(** ** A runtime for the worked scenarios *)

(** [x] to a positive whole power, by squaring. *)
Fixpoint pow_pos (x : float) (p : positive) : float :=
  match p with
  | xH => x
  | xO p' => let h := pow_pos x p' in (h * h)%float
  | xI p' => let h := pow_pos x p' in (x * (h * h))%float
  end.

(** A stand-in for [math.Pow] on whole exponents. Like [math.Pow] it
    returns 1 when [y == 0] or [x == 1], and [x] when [y == 1]; the other
    whole powers are products, exact whenever the power is a binary64.
    The scenarios below use it at [Pow(1, 1)], [Pow(2, 1)] and [Pow(2, 2)]
    only. An exponent with a fraction, which [checkInPeriod] never passes
    and for which [math.Pow] goes through [Exp] and [Log], is not covered
    (NaN). *)
Definition whole_Pow (x y : float) : float :=
  if (y =? 0)%float || (x =? 1)%float then 1%float
  else if (y =? 1)%float then x
  else
    match float_trunc y with
    | Some (Zpos p) =>
        if (float64_of_int (Zpos p) =? y)%float then pow_pos x p else nan
    | Some (Zneg p) =>
        if (float64_of_int (Zneg p) =? y)%float then (1 / pow_pos x p)%float
        else nan
    | _ => nan
    end.

(** Go on amd64: an out-of-range conversion to int64 yields the
    "integer indefinite" value, the smallest int64. *)
Definition go_amd64 : GoRuntime := {|
  math_Pow := whole_Pow;
  time_AddDate := calendar_AddDate;
  int64_indefinite := fun _ => MinInt64
|}.

Definition sample (y m d : Z) (price : float) : datePrice :=
  {| Date := time_Date y m d; HighPrice := price |}.

(** The scenario of the design document. *)
Definition scenario_series : list datePrice :=
  [ sample 2000 1 1 100; sample 2001 1 1 200; sample 2010 1 1 1000 ]%float.

Definition scenario_config : config :=
  {| capital := 100; run := 1; yearPerRun := 1;
     inflationRate := 1; costPerYear := 0 |}.

(** A check result is one of the three constants. *)
Definition is_result (r : Z) : Prop := r = success \/ r = failed \/ r = na.

(** The same config with another number of runs, or another cost of
    living. *)
Definition with_run (c : config) (n : Z) : config :=
  {| capital := capital c; run := n; yearPerRun := yearPerRun c;
     inflationRate := inflationRate c; costPerYear := costPerYear c |}.

Definition with_cost (c : config) (cost : Z) : config :=
  {| capital := capital c; run := run c; yearPerRun := yearPerRun c;
     inflationRate := inflationRate c; costPerYear := cost |}.

(** The result of the simulation with fewer runs is success, or it is
    also the result of the simulation with more runs. *)
Definition kept_result (r1 r2 : Z) : Prop := r1 = success \/ r1 = r2.

(** A series on which a higher cost of living turns a failed simulation
    into a successful one: with the higher cost the first run sells later,
    at a much higher price, and so keeps more shares for the second run. *)
Definition late_sale_series : list datePrice :=
  [ sample 2000 1 1 1; sample 2000 2 1 4; sample 2000 3 1 512;
    sample 2001 1 1 10; sample 2002 1 1 10 ]%float.

Definition late_sale_config : config :=
  {| capital := 100; run := 2; yearPerRun := 1;
     inflationRate := 2; costPerYear := 100 |}.

(** The one run of the scenario, as [checkInPeriod] goes through it. *)
Definition scenario_run : runInfo :=
  {| ri_run := 0;
     ri_startDay := time_Date 2000 1 1; ri_endDay := time_Date 2001 1 1;
     ri_startIndex := 0; ri_endIndex := 1;
     ri_targetCapital := 100; ri_costOfLiving := 0;
     ri_heldBefore := 1; ri_sale := Some (0, 0); ri_heldAfter := 1 |}.

(** A series with a gap: no sample between 2001-01-01 and 2002-01-01, the
    period of the second run of a simulation that starts on 2000-01-01. *)
Definition gap_series : list datePrice :=
  [ sample 2000 1 1 1; sample 2000 6 1 1000; sample 2005 1 1 1 ]%float.

Definition gap_config : config :=
  {| capital := 100; run := 2; yearPerRun := 1;
     inflationRate := 2; costPerYear := 0 |}.

Definition gap_run : runInfo :=
  {| ri_run := 1;
     ri_startDay := time_Date 2001 1 1; ri_endDay := time_Date 2002 1 1;
     ri_startIndex := 2; ri_endIndex := 2;
     ri_targetCapital := 400; ri_costOfLiving := 0;
     ri_heldBefore := 100; ri_sale := None; ri_heldAfter := 100 |}.

Definition gap_first_run : runInfo :=
  {| ri_run := 0;
     ri_startDay := time_Date 2000 1 1; ri_endDay := time_Date 2001 1 1;
     ri_startIndex := 0; ri_endIndex := 2;
     ri_targetCapital := 200; ri_costOfLiving := 0;
     ri_heldBefore := 100; ri_sale := Some (1, 0); ri_heldAfter := 100 |}.

(** A price so small that the initial capital buys more shares than an
    int64 holds: 2^-100, the capital 1 buys 2^100 shares. *)
Definition tiny_price_series : list datePrice :=
  [ sample 2000 1 1 (Z.ldexp 1 (-100)) ].

Definition tiny_price_config : config :=
  {| capital := 1; run := 1; yearPerRun := 1;
     inflationRate := 2; costPerYear := 0 |}.

(* ===================================================================== *)
(** ** The numbers float64 stands for, and its rounding *)

(** [mrs] locates the fraction [N / D]: its mantissa is the integer part,
    the round bit tells whether the rest reaches a half, the sticky bit
    whether the rest is neither nothing nor exactly a half. *)
Definition located (N D : Z) (mrs : shr_record) : Prop :=
  let rest := N - shr_m mrs * D in
  0 <= rest < D
  /\ (shr_r mrs = true <-> D <= 2 * rest)
  /\ (shr_s mrs = true <-> (rest <> 0 /\ 2 * rest <> D)).

(** The power of two [2 ^ e], for any integer [e]. *)
Definition pow2 (e : Z) : R := powerRZ 2 e.

(** The real number a binary64 stands for (0 for the special values). *)
Definition SF2R (x : spec_float) : R :=
  match x with
  | S754_finite s m e =>
      ((if s then -1 else 1) * IZR (Zpos m) * pow2 e)%R
  | _ => 0%R
  end.

(** Not a negative number: a zero, a positive number, plus infinity or
    a NaN. *)
Definition not_negative (x : spec_float) : Prop :=
  match x with
  | S754_zero _ | S754_nan => True
  | S754_infinity s | S754_finite s _ _ => s = false
  end.

(** [r] is the binary64 nearest to the nonnegative real [V]: a mantissa
    [m] at an exponent [e] within half a unit of [V], returned as a zero,
    a finite number, or plus infinity when [e] is beyond the format. *)
Definition rounds_to (V : R) (r : spec_float) : Prop :=
  exists m e,
    0 <= m
    /\ (Rabs (IZR m * pow2 e - V) <= pow2 e / 2)%R
    /\ r = match m with
           | Z0 => S754_zero false
           | Zpos p => if e <=? 971 then S754_finite false p e
                       else S754_infinity false
           | Zneg _ => S754_nan
           end.

(** A positive number: finite and above zero, or plus infinity. *)
Definition is_positive (x : spec_float) : Prop :=
  match x with
  | S754_finite s _ _ | S754_infinity s => s = false
  | _ => False
  end.

(** The unit roundoff of binary64. *)
Definition u53 : R := (/ pow2 53)%R.

(** A zero or a finite number. *)
Definition is_finite_SF (x : spec_float) : Prop :=
  match x with
  | S754_zero _ | S754_finite _ _ _ => True
  | _ => False
  end.

(** [hf] is the binary64 of the integer [h], without rounding. *)
Definition exact_int (h : Z) (hf : spec_float) : Prop :=
  (h = 0 /\ hf = S754_zero false)
  \/ (0 < h /\ exists m e, hf = S754_finite false m e
                 /\ (IZR (Zpos m) * pow2 e = IZR h)%R).

(** A bound on the prices under which the value of fewer than 2^52
    shares is a finite float64: 2^919. *)
Definition max_price : float := Eval compute in Z.ldexp one 919.

Definition bounded_price (p : datePrice) : Prop :=
  (HighPrice p <=? max_price)%float = true.

(** A float64 that is not a negative number. *)
Definition float_not_negative (f : float) : Prop := not_negative (Prim2SF f).

(** A simulation in which float64 rounding sells more shares than are
    held: the capital 1 buys 2^55 shares at 2^-55; the first run sells one
    share; in the second run [float64(2^55 - 1)] is 2^55 and the target
    2^56 + 4 is 2^56 in float64, so the test [2^55 * 2 >= 2^56] passes and
    [int64(2^56 / 2)] = 2^55 shares are sold out of 2^55 - 1. *)
Definition rounding_series : list datePrice :=
  [ sample 2000 1 1 (Z.ldexp 1 (-55)); sample 2000 6 1 (Z.ldexp 1 55);
    sample 2001 1 1 2; sample 2002 1 1 2 ]%float.

Definition rounding_config : config :=
  {| capital := 1; run := 2; yearPerRun := 1;
     inflationRate := 2; costPerYear := 2 ^ 54 |}.

Definition rounding_first_run : runInfo :=
  {| ri_run := 0;
     ri_startDay := time_Date 2000 1 1; ri_endDay := time_Date 2001 1 1;
     ri_startIndex := 0; ri_endIndex := 2;
     ri_targetCapital := Z.ldexp 1 55; ri_costOfLiving := Z.ldexp 1 55;
     ri_heldBefore := 2 ^ 55; ri_sale := Some (1, 1);
     ri_heldAfter := 2 ^ 55 - 1 |}.

Definition rounding_second_run : runInfo :=
  {| ri_run := 1;
     ri_startDay := time_Date 2001 1 1; ri_endDay := time_Date 2002 1 1;
     ri_startIndex := 2; ri_endIndex := 3;
     ri_targetCapital := Z.ldexp 1 56; ri_costOfLiving := Z.ldexp 1 56;
     ri_heldBefore := 2 ^ 55 - 1; ri_sale := Some (2, 2 ^ 55);
     ri_heldAfter := -1 |}.

(** The two runs of the simulation of [late_sale_config] from the first
    sample of [late_sale_series]. *)
Definition late_sale_first_run : runInfo :=
  {| ri_run := 0;
     ri_startDay := time_Date 2000 1 1; ri_endDay := time_Date 2001 1 1;
     ri_startIndex := 0; ri_endIndex := 3;
     ri_targetCapital := 400; ri_costOfLiving := 200;
     ri_heldBefore := 100; ri_sale := Some (1, 50); ri_heldAfter := 50 |}.

Definition late_sale_second_run : runInfo :=
  {| ri_run := 1;
     ri_startDay := time_Date 2001 1 1; ri_endDay := time_Date 2002 1 1;
     ri_startIndex := 3; ri_endIndex := 4;
     ri_targetCapital := 800; ri_costOfLiving := 400;
     ri_heldBefore := 50; ri_sale := None; ri_heldAfter := 50 |}.

(* ===================================================================== *)
(** ** Further terms and scenarios *)

(** A series that is not sorted by date. *)
Definition unsorted_series : list datePrice :=
  [ sample 2003 1 1 1; sample 2001 1 1 2; sample 2002 1 1 3;
    sample 2000 1 1 4 ]%float.

(** A run that made a sale. *)
Definition made_sale (info : runInfo) : Prop := ri_sale info <> None.

(** The scenario with periods of no year. *)
Definition no_year_config : config :=
  {| capital := 100; run := 1; yearPerRun := 0;
     inflationRate := 1; costPerYear := 0 |}.

(** The config of the scenario with no run at all. *)
Definition no_run_config : config := with_run scenario_config 0.

(** A series of one sample. *)
Definition single_series : list datePrice := [ sample 2010 1 1 1000%float ].

(** What [checkStrategy] reports on the series of the scenarios. *)
Definition late_sale_report : report :=
  {| counts := {| successCount := 0; failedCount := 3; naCount := 2 |};
     rate := 0 |}.

Definition longer_sale_report : report :=
  {| counts := {| successCount := 0; failedCount := 5; naCount := 1 |};
     rate := 0 |}.

Definition single_report : report :=
  {| counts := {| successCount := 0; failedCount := 0; naCount := 1 |};
     rate := nan |}.

(* ===================================================================== *)
(** ** parseCSVFile and the whole of main *)

(** The errors [parseCSVFile] returns: [io.EOF], or an error of the csv
    reader. *)
Inductive error : Type :=
| io_EOF
| csv_error (msg : string).


(** What the calls of [reader.Read()] find in the file, one after the
    other: a record with its fields, or a line the csv reader rejects with
    an error. After the last one, [Read] returns [io.EOF]. *)
Inductive csvLine : Type :=
| Fields (line : list string)
| Malformed (msg : string).

(** What the program takes from [fmt.Sscanf], whose results it ignores:
    the variables it scans into start at zero, and hold afterwards what
    [Sscanf] stored. *)
Class GoFmt : Type := {
  (** [year, month, day] after
      [fmt.Sscanf(s, "%d-%d-%d", &year, &month, &day)] *)
  Sscanf_date : string -> Z * Z * Z;
  (** [highPrice] after [fmt.Sscanf(s, "%f", &highPrice)] *)
  Sscanf_price : string -> float
}.

Section Parsing.
Context {fm : GoFmt}.

(** The loop of [parseCSVFile]:
<<
    for {
        line, err := reader.Read()
        if err == io.EOF { break }
        if err != nil { return nil, err }
        ... fmt.Sscanf(line[0], "%d-%d-%d", &year, &month, &day)
        ... fmt.Sscanf(line[2], "%f", &highPrice)
        datePrices = append(datePrices, &datePrice)
    }
    return datePrices, nil
>>
    on what is left of the file. It returns the slice and the error. *)
Fixpoint read_rows (reader : list csvLine) (datePrices : list datePrice)
  : Res (list datePrice * option error) :=
  match reader with
  | [] => Ok (datePrices, None)
  | Malformed msg :: _ => Ok ([], Some (csv_error msg))
  | Fields line :: reader' =>
      field0 <- index line 0 ;;
      let '(year, month, day) := Sscanf_date field0 in
      field2 <- index line 2 ;;
      let highPrice := Sscanf_price field2 in
      let datePrice :=
        {| Date := time_Date year month day; HighPrice := highPrice |} in
      read_rows reader' (datePrices ++ [datePrice])
  end.

(** [parseCSVFile]: the first [Read] skips the column names. *)
Definition parseCSVFile (reader : list csvLine)
  : Res (list datePrice * option error) :=
  match reader with
  | [] => Ok ([], Some io_EOF)
  | Malformed msg :: _ => Ok ([], Some (csv_error msg))
  | Fields _ :: reader' => read_rows reader' []
  end.


End Parsing.

Section Main.
Context {rt : GoRuntime} {fm : GoFmt}.


End Main.


(** A stand-in for [fmt.Sscanf] on the fields of the scenarios, which are
    made of decimal digits and ['-'] only: the number that the leading
    digits of a field write, and what follows them. *)
Fixpoint leading_number (acc : Z) (s : string) : Z * string :=
  match s with
  | EmptyString => (acc, s)
  | String c s' =>
      let n := Z.of_nat (nat_of_ascii c) in
      if (48 <=? n) && (n <=? 57) then leading_number (10 * acc + (n - 48)) s'
      else (acc, s)
  end.

Definition digits_date (s : string) : Z * Z * Z :=
  let '(year, s1) := leading_number 0 s in
  match s1 with
  | String "-"%char s2 =>
      let '(month, s3) := leading_number 0 s2 in
      match s3 with
      | String "-"%char s4 => (year, month, fst (leading_number 0 s4))
      | _ => (year, month, 0)
      end
  | _ => (year, 0, 0)
  end.

Definition digits_price (s : string) : float :=
  float64_of_int (fst (leading_number 0 s)).

Definition digits_fmt : GoFmt := {|
  Sscanf_date := digits_date;
  Sscanf_price := digits_price
|}.

(** The file of the scenario of the design document, as the csv reader
    reads it: the column names, then one record per sample. *)
Definition scenario_file : list csvLine :=
  [ Fields ["Date"; "Open"; "High"];
    Fields ["2000-01-01"; "90"; "100"];
    Fields ["2001-01-01"; "190"; "200"];
    Fields ["2010-01-01"; "990"; "1000"] ]%string.

(** The same file with a record of two fields, and with a line that the
    csv reader rejects. *)
Definition short_row_file : list csvLine :=
  [ Fields ["Date"; "Open"; "High"];
    Fields ["2000-01-01"; "90"; "100"];
    Fields ["2001-01-01"; "190"];
    Fields ["2010-01-01"; "990"; "1000"] ]%string.

Definition malformed_file : list csvLine :=
  [ Fields ["Date"; "Open"; "High"];
    Fields ["2000-01-01"; "90"; "100"];
    Malformed "parse error on line 3";
    Fields ["2010-01-01"; "990"; "1000"] ]%string.

(* ===================================================================== *)
(** * Properties *)

(* ===================================================================== *)
(** ** Machine integers *)

Lemma wrap64_small (z : Z) : in_int z -> wrap64 z = z.
Proof.
  unfold in_int, wrap64, MinInt64, MaxInt64. intros H.
  rewrite Z.mod_small by lia. lia.
Qed.

Lemma wrap64_in_int (z : Z) : in_int (wrap64 z).
Proof.
  unfold in_int, wrap64, MinInt64, MaxInt64.
  pose proof (Z.mod_pos_bound (z + 2 ^ 63) (2 ^ 64)). lia.
Qed.

Lemma int_add_small (a b : Z) : in_int (a + b) -> int_add a b = a + b.
Proof. apply wrap64_small. Qed.

Lemma int_sub_small (a b : Z) : in_int (a - b) -> int_sub a b = a - b.
Proof. apply wrap64_small. Qed.

Lemma int_mul_small (a b : Z) : in_int (a * b) -> int_mul a b = a * b.
Proof. apply wrap64_small. Qed.

Lemma len_nonneg {A : Type} (s : list A) : 0 <= len s.
Proof. unfold len. lia. Qed.

(* ===================================================================== *)
(** ** sort.Search *)

(** The midpoint [int(uint(i+j) >> 1)] of two slice indices. *)
Lemma midpoint (i j : Z) :
  0 <= i -> i < j -> j <= MaxInt64 ->
  let h := Z.shiftr ((i + j) mod 2 ^ 64) 1 in i <= h < j.
Proof.
  unfold MaxInt64. intros Hi Hij Hj. cbv zeta.
  rewrite Z.mod_small by lia.
  rewrite Z.shiftr_div_pow2 by lia. change (2 ^ 1) with 2.
  split.
  - apply Z.div_le_lower_bound; lia.
  - apply Z.div_lt_upper_bound; lia.
Qed.

(** The loop stays between its bounds, and what it returns is either its
    left bound or an index just after a probe that answered false. This
    needs nothing of [f]. *)
Lemma Search_loop_bounds (f : Z -> bool) (fuel : nat) :
  forall i j, 0 <= i -> i <= j -> j <= MaxInt64 ->
    let r := Search_loop fuel f i j in
    i <= r <= j /\ (r = i \/ f (r - 1) = false).
Proof.
  induction fuel as [|fuel IH]; intros i j Hi Hij Hj; cbn [Search_loop].
  - split; [lia | now left].
  - destruct (Z.ltb_spec i j) as [Hlt|Hge]; [|split; [lia | now left]].
    pose proof (midpoint i j Hi Hlt Hj) as Hh. cbv zeta in Hh.
    set (h := Z.shiftr ((i + j) mod 2 ^ 64) 1) in *.
    destruct (f h) eqn:Hfh; cbn [negb].
    + specialize (IH i h Hi (proj1 Hh) ltac:(lia)). cbv zeta in IH.
      destruct IH as [Hb Hr]. split; [lia | exact Hr].
    + specialize (IH (h + 1) j ltac:(lia) ltac:(lia) Hj). cbv zeta in IH.
      destruct IH as [Hb [Hr|Hr]]; (split; [lia|]).
      * right. rewrite Hr. replace (h + 1 - 1) with h by lia. exact Hfh.
      * now right.
Qed.

(** On a predicate that is false up to some index and true from it on,
    with enough fuel for the distance, the loop returns that index. *)
Lemma Search_loop_monotone (f : Z -> bool) (n : Z) (fuel : nat) :
  (forall a b, 0 <= a -> a <= b -> b < n -> f a = true -> f b = true) ->
  forall i j, 0 <= i -> i <= j -> j <= n -> n <= MaxInt64 ->
    j - i <= Z.of_nat fuel ->
    (forall k, 0 <= k < i -> f k = false) ->
    (forall k, j <= k < n -> f k = true) ->
    let r := Search_loop fuel f i j in
    i <= r <= j
    /\ (forall k, 0 <= k < r -> f k = false)
    /\ (forall k, r <= k < n -> f k = true).
Proof.
  intros Hmono.
  induction fuel as [|fuel IH]; intros i j Hi Hij Hjn Hn Hfuel Hlo Hhi;
    cbn [Search_loop].
  - assert (i = j) by lia. subst j. split; [lia|]. split; assumption.
  - destruct (Z.ltb_spec i j) as [Hlt|Hge].
    2:{ assert (i = j) by lia. subst j. split; [lia|]. split; assumption. }
    pose proof (midpoint i j Hi Hlt ltac:(lia)) as Hh. cbv zeta in Hh.
    set (h := Z.shiftr ((i + j) mod 2 ^ 64) 1) in *.
    destruct (f h) eqn:Hfh; cbn [negb].
    + assert (Hhi' : forall k, h <= k < n -> f k = true).
      { intros k Hk. apply (Hmono h k); try lia. exact Hfh. }
      specialize (IH i h Hi (proj1 Hh) ltac:(lia) Hn ltac:(lia) Hlo Hhi').
      cbv zeta in IH. destruct IH as (Hb & H1 & H2).
      split; [lia|]. split; assumption.
    + assert (Hlo' : forall k, 0 <= k < h + 1 -> f k = false).
      { intros k Hk. destruct (f k) eqn:Hfk; [|reflexivity].
        assert (f h = true) by (apply (Hmono k h); try lia; exact Hfk).
        congruence. }
      specialize (IH (h + 1) j ltac:(lia) ltac:(lia) Hjn Hn ltac:(lia)
                     Hlo' Hhi).
      cbv zeta in IH. destruct IH as (Hb & H1 & H2).
      split; [lia|]. split; assumption.
Qed.

(** [Search] reads [f] on the indices [0 .. n-1] only. *)
Lemma Search_loop_ext (f g : Z -> bool) (fuel : nat) :
  forall i j, 0 <= i -> j <= MaxInt64 ->
    (forall k, i <= k < j -> f k = g k) ->
    Search_loop fuel f i j = Search_loop fuel g i j.
Proof.
  induction fuel as [|fuel IH]; intros i j Hi Hj Hfg; cbn [Search_loop].
  - reflexivity.
  - destruct (Z.ltb_spec i j) as [Hlt|Hge]; [|reflexivity].
    pose proof (midpoint i j Hi Hlt Hj) as Hh. cbv zeta in Hh.
    set (h := Z.shiftr ((i + j) mod 2 ^ 64) 1) in *.
    rewrite <- (Hfg h Hh).
    destruct (f h); cbn [negb]; apply IH; try lia; intros k Hk; apply Hfg; lia.
Qed.

(* ===================================================================== *)
(** ** findClosestDay *)

Lemma on_or_after_true day s i : on_or_after day s i = true <-> day <= date_at s i.
Proof.
  unfold on_or_after, After, Equal.
  rewrite orb_true_iff, Z.ltb_lt, Z.eqb_eq. lia.
Qed.

Lemma on_or_after_false day s i : on_or_after day s i = false <-> date_at s i < day.
Proof.
  unfold on_or_after, After, Equal.
  rewrite orb_false_iff, Z.ltb_ge, Z.eqb_neq. lia.
Qed.

Lemma findClosestDay_unfold day s :
  findClosestDay day s =
  let index := Search (len s) (on_or_after day s) in
  if index =? len s then (-1, false) else (index, true).
Proof. reflexivity. Qed.

Lemma nth_last_day (s : list datePrice) :
  s <> [] -> date_at s (len s - 1) = last_day s.
Proof.
  unfold date_at, last_day, len. intros Hs. f_equal.
  replace (Z.to_nat (Z.of_nat (length s) - 1)) with (Nat.pred (length s)) by lia.
  clear Hs. induction s as [|a [|b s'] IH]; try reflexivity.
  change (last (a :: b :: s') zero_datePrice) with (last (b :: s') zero_datePrice).
  rewrite <- IH. reflexivity.
Qed.

(** In an ascending series the dates grow with the index. *)
Lemma ascending_date_at (s : list datePrice) :
  ascending s ->
  forall a b, 0 <= a -> a <= b -> b < len s -> date_at s a <= date_at s b.
Proof.
  unfold ascending, len, date_at. intros Hs.
  apply Sorted_StronglySorted in Hs.
  2:{ intros x y z. unfold date_le. lia. }
  induction Hs as [|x l Hl IH Hx]; intros a b Ha Hab Hb; cbn [length] in Hb.
  - lia.
  - destruct (Z.to_nat a) as [|a'] eqn:Ea; destruct (Z.to_nat b) as [|b'] eqn:Eb;
      cbn [nth]; try lia.
    + rewrite Forall_forall in Hx. apply (Hx (nth b' l zero_datePrice)).
      apply nth_In. lia.
    + specialize (IH (Z.of_nat a') (Z.of_nat b')).
      rewrite !Nat2Z.id in IH. apply IH; lia.
Qed.

(** A day that was found is an index of the slice. *)
Lemma findClosestDay_found day s i :
  len s <= MaxInt64 -> findClosestDay day s = (i, true) -> 0 <= i < len s.
Proof.
  intros Hn. rewrite findClosestDay_unfold. cbv zeta. unfold Search.
  pose proof (Search_loop_bounds (on_or_after day s) (Z.to_nat (len s))
                0 (len s) ltac:(lia) (len_nonneg s) Hn) as [Hb _].
  destruct (Z.eqb_spec (Search_loop (Z.to_nat (len s)) (on_or_after day s) 0 (len s))
                       (len s)); intros H; inversion H; subst. lia.
Qed.

(** A day is not found only if it lies after the date of the last
    sample; this holds whatever the order of the series. *)
Lemma findClosestDay_not_found day s i :
  s <> [] -> len s <= MaxInt64 -> findClosestDay day s = (i, false) ->
  i = -1 /\ last_day s < day.
Proof.
  intros Hs Hn. rewrite findClosestDay_unfold. cbv zeta. unfold Search.
  pose proof (Search_loop_bounds (on_or_after day s) (Z.to_nat (len s))
                0 (len s) ltac:(lia) (len_nonneg s) Hn) as [Hb Hr].
  destruct (Z.eqb_spec (Search_loop (Z.to_nat (len s)) (on_or_after day s) 0 (len s))
                       (len s)) as [E|E]; intros H; inversion H; subst.
  split; [reflexivity|].
  rewrite E in Hr. destruct Hr as [Hr|Hr].
  - destruct s; [congruence | unfold len in Hr; cbn [length] in Hr; lia].
  - apply on_or_after_false in Hr. rewrite nth_last_day in Hr; assumption.
Qed.

(** C3. On a non-empty series sorted ascending by date (of a length that
    is a Go int), [findClosestDay] finds every day that is not after the
    date of the last sample, and returns the smallest index whose date is
    on or after the day: no earlier sample is on or after it, so equal
    dates resolve to the lowest index, and a day before the first sample
    gives index 0. A day after the date of the last sample is reported as
    not found, with index -1. *)
Theorem findClosestDay_smallest_index (day : Time) (s : list datePrice) :
  s <> [] -> len s <= MaxInt64 -> ascending s ->
  (day <= last_day s ->
     exists i, findClosestDay day s = (i, true)
       /\ 0 <= i < len s
       /\ day <= date_at s i
       /\ (forall k, 0 <= k < i -> date_at s k < day)
       /\ (day <= date_at s 0 -> i = 0))
  /\ (last_day s < day -> findClosestDay day s = (-1, false)).
Proof.
  intros Hs Hn Hasc.
  assert (Hlen : 0 < len s).
  { destruct s; [congruence | unfold len; cbn [length]; lia]. }
  rewrite findClosestDay_unfold. cbv zeta. unfold Search.
  pose proof (Search_loop_monotone (on_or_after day s) (len s) (Z.to_nat (len s)))
    as Hm.
  specialize (Hm ltac:(intros a b Ha Hab Hb Hfa;
                       apply on_or_after_true; apply on_or_after_true in Hfa;
                       pose proof (ascending_date_at s Hasc a b Ha Hab Hb); lia)).
  specialize (Hm 0 (len s) ltac:(lia) ltac:(lia) ltac:(lia) Hn ltac:(lia)
                 ltac:(intros; lia) ltac:(intros; lia)).
  cbv zeta in Hm. destruct Hm as (Hb & Hlo & Hhi).
  set (r := Search_loop (Z.to_nat (len s)) (on_or_after day s) 0 (len s)) in *.
  split.
  - intros Hday. destruct (Z.eqb_spec r (len s)) as [E|E].
    + exfalso. specialize (Hlo (len s - 1) ltac:(lia)).
      apply on_or_after_false in Hlo. rewrite nth_last_day in Hlo by assumption.
      lia.
    + exists r. split; [reflexivity|]. split; [lia|]. split.
      * apply on_or_after_true. apply Hhi. lia.
      * split.
        -- intros k Hk. apply on_or_after_false. apply Hlo. exact Hk.
        -- intros H0. destruct (Z.eq_dec r 0) as [|Hr0]; [assumption|].
           specialize (Hlo 0 ltac:(lia)). apply on_or_after_false in Hlo. lia.
  - intros Hday. destruct (Z.eqb_spec r (len s)) as [E|E]; [reflexivity|].
    exfalso. specialize (Hhi r ltac:(lia)). apply on_or_after_true in Hhi.
    pose proof (ascending_date_at s Hasc r (len s - 1) ltac:(lia) ltac:(lia)
                  ltac:(lia)) as Hle.
    rewrite nth_last_day in Hle by assumption. lia.
Qed.

Lemma scenario_series_ascending : ascending scenario_series.
Proof.
  unfold ascending, scenario_series.
  repeat (constructor; try (unfold date_le; vm_compute; discriminate)).
Qed.

Lemma findClosestDay_smallest_index_witness :
  (time_Date 2001 1 1 <= last_day scenario_series ->
     exists i, findClosestDay (time_Date 2001 1 1) scenario_series = (i, true)
       /\ 0 <= i < len scenario_series
       /\ time_Date 2001 1 1 <= date_at scenario_series i
       /\ (forall k, 0 <= k < i -> date_at scenario_series k < time_Date 2001 1 1)
       /\ (time_Date 2001 1 1 <= date_at scenario_series 0 -> i = 0))
  /\ (last_day scenario_series < time_Date 2001 1 1 ->
      findClosestDay (time_Date 2001 1 1) scenario_series = (-1, false)).
Proof.
  apply (findClosestDay_smallest_index (time_Date 2001 1 1) scenario_series).
  - discriminate.
  - vm_compute. discriminate.
  - exact scenario_series_ascending.
Defined.

(* ===================================================================== *)
(** ** Slices *)

Lemma index_inv {A : Type} (s : list A) (i : Z) (a : A) :
  index s i = Ok a -> 0 <= i < len s /\ nth_error s (Z.to_nat i) = Some a.
Proof.
  unfold index, len.
  destruct (Z.leb_spec 0 i); destruct (Z.ltb_spec i (Z.of_nat (length s)));
    cbn [andb]; try discriminate.
  destruct (nth_error s (Z.to_nat i)); [|discriminate].
  intros H'; inversion H'; subst. split; [lia | reflexivity].
Qed.

Lemma index_ok {A : Type} (s : list A) (i : Z) :
  0 <= i < len s -> exists a, index s i = Ok a.
Proof.
  unfold index, len. intros Hi.
  destruct (Z.leb_spec 0 i); destruct (Z.ltb_spec i (Z.of_nat (length s)));
    cbn [andb]; try lia.
  destruct (nth_error s (Z.to_nat i)) eqn:E; [eauto|].
  apply nth_error_None in E. lia.
Qed.

Lemma slice_from_len {A : Type} (s : list A) (i : Z) :
  0 <= i <= len s -> len (slice_from s i) = len s - i.
Proof. unfold len, slice_from. intros Hi. rewrite length_skipn. lia. Qed.

Lemma last_skipn {A : Type} (d : A) (s : list A) (n : nat) :
  (n < length s)%nat -> last (skipn n s) d = last s d.
Proof.
  revert s. induction n as [|n IH]; intros s Hn; [reflexivity|].
  destruct s as [|a s]; cbn [length] in Hn; [lia|].
  cbn [skipn]. rewrite IH by lia.
  destruct s; [cbn [length] in Hn; lia | reflexivity].
Qed.

(** Every simulation of a back-test ends on the same sample. *)
Lemma slice_from_last_day (s : list datePrice) (i : Z) :
  0 <= i < len s -> last_day (slice_from s i) = last_day s.
Proof.
  unfold last_day, slice_from, len. intros Hi. rewrite last_skipn by lia.
  reflexivity.
Qed.

Section EngineFacts.
Context {rt : GoRuntime}.

(* ===================================================================== *)
(** ** The scan of a window *)

Lemma index_nth (s : list datePrice) (i : Z) (a : datePrice) :
  index s i = Ok a -> nth (Z.to_nat i) s zero_datePrice = a.
Proof.
  intros H. apply index_inv in H as [_ H]. now apply nth_error_nth.
Qed.

(** Inside the slice the scan does not panic; it stops at the first
    satisfying sample of the window, and sells there. *)
Lemma scan_spec (datePrices : list datePrice) (heldShares : Z)
  (targetCapital costOfLiving : float) (endIndex : Z) (fuel : nat) :
  endIndex <= len datePrices -> len datePrices <= MaxInt64 ->
  forall currIndex, 0 <= currIndex ->
    endIndex - currIndex <= Z.of_nat fuel ->
    exists sale,
      scan fuel datePrices heldShares targetCapital costOfLiving
           currIndex endIndex = Ok sale
      /\ match sale with
         | Some (k, soldShares) =>
             currIndex <= k < endIndex
             /\ satisfied_at datePrices heldShares targetCapital k = true
             /\ soldShares = sold_at datePrices costOfLiving k
             /\ forall j, currIndex <= j < k ->
                  satisfied_at datePrices heldShares targetCapital j = false
         | None =>
             forall j, currIndex <= j < endIndex ->
               satisfied_at datePrices heldShares targetCapital j = false
         end.
Proof.
  intros Hend Hlen.
  induction fuel as [|fuel IH]; intros currIndex Hcur Hfuel; cbn [scan].
  - exists None. split; [reflexivity | intros; lia].
  - destruct (Z.ltb_spec currIndex endIndex) as [Hlt|Hge].
    2:{ exists None. split; [reflexivity | intros; lia]. }
    destruct (index_ok datePrices currIndex ltac:(lia)) as [dp Hdp].
    rewrite Hdp. cbn [bind].
    pose proof (index_nth _ _ _ Hdp) as Hnth.
    destruct (float_ge (float64_of_int heldShares * HighPrice dp) targetCapital)
      eqn:Hsat.
    + eexists. split; [reflexivity|]. cbv beta iota.
      unfold satisfied_at, sold_at, price_at. rewrite Hnth.
      repeat split; try lia; try assumption; try (intros; lia).
    + assert (Hnext : int_add currIndex 1 = currIndex + 1).
      { apply int_add_small. unfold in_int, MinInt64, MaxInt64 in *. lia. }
      rewrite Hnext.
      destruct (IH (currIndex + 1) ltac:(lia) ltac:(lia)) as [sale [Hs Hspec]].
      exists sale. split; [exact Hs|].
      assert (Hhere : satisfied_at datePrices heldShares targetCapital currIndex
                      = false).
      { unfold satisfied_at, price_at. rewrite Hnth. exact Hsat. }
      destruct sale as [[k sold]|].
      * destruct Hspec as (Hk & Hsk & Hsold & Hbefore).
        repeat split; try lia; try assumption.
        intros j Hj. destruct (Z.eq_dec j currIndex) as [->|]; [assumption|].
        apply Hbefore. lia.
      * intros j Hj. destruct (Z.eq_dec j currIndex) as [->|]; [assumption|].
        apply Hspec. lia.
Qed.

End EngineFacts.

Section EngineRuns.
Context {rt : GoRuntime}.

(** One iteration on a non-empty slice does not panic: it ends on a day
    beyond the last sample or with the record of its window. *)
Lemma run_body_spec (config : config) (datePrices : list datePrice)
  (run heldShares : Z) (endDay : Time) :
  datePrices <> [] -> len datePrices <= MaxInt64 ->
  exists st, run_body config datePrices run heldShares endDay = Ok st
    /\ match st with
       | NoMoreDate =>
           last_day datePrices < endDay
           \/ last_day datePrices < time_AddDate (yearPerRun config) endDay
       | Window info => window_of config datePrices run heldShares endDay info
       end.
Proof.
  intros Hne Hlen. unfold run_body.
  destruct (findClosestDay endDay datePrices) as [startIndex sFound] eqn:Es.
  destruct (findClosestDay (time_AddDate (yearPerRun config) endDay) datePrices)
    as [endIndex eFound] eqn:Ee.
  destruct sFound; cbn [negb orb].
  2:{ exists NoMoreDate. split; [reflexivity|]. left.
      apply (findClosestDay_not_found _ _ _ Hne Hlen Es). }
  destruct eFound; cbn [negb orb].
  2:{ exists NoMoreDate. split; [reflexivity|]. right.
      apply (findClosestDay_not_found _ _ _ Hne Hlen Ee). }
  pose proof (findClosestDay_found _ _ _ Hlen Es) as Hs.
  pose proof (findClosestDay_found _ _ _ Hlen Ee) as He.
  destruct (index_ok datePrices startIndex Hs) as [ds Hds].
  destruct (index_ok datePrices endIndex He) as [de Hde].
  rewrite Hds, Hde. cbn [bind].
  match goal with
  | |- context [scan ?f ?d ?h ?t ?c ?i ?e] =>
      destruct (scan_spec d h t c e f ltac:(lia) Hlen i ltac:(lia) ltac:(lia))
        as [sale [Hscan Hsale]]
  end.
  rewrite Hscan. cbn [bind].
  eexists. split; [reflexivity|].
  unfold window_of. cbn [ri_run ri_startDay ri_endDay ri_startIndex ri_endIndex
    ri_targetCapital ri_costOfLiving ri_heldBefore ri_sale ri_heldAfter].
  repeat (split; [first [reflexivity | assumption]|]).
  destruct sale as [[k sold]|].
  - destruct Hsale as (Hk & Hsat & Hsold & Hbefore). repeat split; try lia; assumption.
  - split; [assumption | reflexivity].
Qed.

(** The loop does not panic and follows the relation [runs]. *)
Lemma run_loop_runs (config : config) (datePrices : list datePrice) :
  datePrices <> [] -> len datePrices <= MaxInt64 ->
  forall fuel run heldShares endDay,
  exists r infos,
    run_loop fuel config datePrices run heldShares endDay = Ok (r, infos)
    /\ runs config datePrices fuel run heldShares endDay r infos.
Proof.
  intros Hne Hlen.
  induction fuel as [|fuel IH]; intros run heldShares endDay; cbn [run_loop].
  - exists success, []. split; [reflexivity|]. constructor. now left.
  - destruct (Z.ltb_spec run (config_run config)) as [Hlt|Hge].
    2:{ exists success, []. split; [reflexivity|]. constructor. now right. }
    destruct (run_body_spec config datePrices run heldShares endDay Hne Hlen)
      as [st [Hst Hspec]].
    rewrite Hst. cbn [bind]. destruct st as [|info].
    + exists na, []. split; [reflexivity|]. now constructor.
    + destruct (ri_sale info) as [p|] eqn:Hsale.
      * destruct (IH (int_add run 1) (ri_heldAfter info) (ri_endDay info))
          as (r & infos & Hloop & Hruns).
        rewrite Hloop. cbn [bind].
        exists r, (info :: infos). split; [reflexivity|].
        apply runs_sold; try assumption. congruence.
      * exists failed, [info]. split; [reflexivity|].
        now apply runs_not_satisfied.
Qed.

End EngineRuns.

Section Simulation.
Context {rt : GoRuntime}.

Lemma hd_index (datePrices : list datePrice) :
  datePrices <> [] ->
  exists first, index datePrices 0 = Ok first
    /\ Date first = date_at datePrices 0
    /\ HighPrice first = price_at datePrices 0.
Proof.
  destruct datePrices as [|first rest]; [congruence|]. intros _.
  exists first. repeat split.
Qed.

(** A simulation on a non-empty slice does not panic; its runs follow
    [runs] from run 0, the initial shares and the date of the first
    sample. *)
Lemma checkInPeriod_runs_spec (config : config) (datePrices : list datePrice) :
  datePrices <> [] -> len datePrices <= MaxInt64 ->
  exists first r infos,
    index datePrices 0 = Ok first
    /\ checkInPeriod_runs config datePrices
       = Ok (r, initial_shares config first, infos)
    /\ checkInPeriod config datePrices = Ok r
    /\ runs config datePrices (Z.to_nat (run config)) 0
            (initial_shares config first) (Date first) r infos.
Proof.
  intros Hne Hlen.
  destruct (hd_index datePrices Hne) as (first & Hfirst & _).
  destruct (run_loop_runs config datePrices Hne Hlen (Z.to_nat (run config)) 0
              (initial_shares config first) (Date first))
    as (r & infos & Hloop & Hruns).
  exists first, r, infos.
  unfold checkInPeriod, checkInPeriod_runs. rewrite Hfirst. cbn [bind].
  rewrite Hloop. cbn [bind]. repeat split; assumption.
Qed.

Lemma runs_result config datePrices fuel run heldShares endDay r infos :
  runs config datePrices fuel run heldShares endDay r infos ->
  (r = success \/ r = failed \/ r = na)
  /\ (r = na ->
      exists k, (k < fuel)%nat
        /\ (last_day datePrices
              < Nat.iter k (time_AddDate (yearPerRun config)) endDay
            \/ last_day datePrices
              < Nat.iter (S k) (time_AddDate (yearPerRun config)) endDay)).
Proof.
  induction 1 as [fuel run held endDay Hdone
                 | fuel run held endDay Hlt Hday
                 | fuel run held endDay info Hlt Hwin Hsale
                 | fuel run held endDay info r infos Hlt Hwin Hsale Hruns IH].
  - split; [auto | discriminate].
  - split; [auto|]. intros _. exists O. split; [lia | exact Hday].
  - split; [auto | discriminate].
  - destruct IH as [Hr Hna]. split; [exact Hr|]. intros E.
    destruct (Hna E) as (k & Hk & Hdays). exists (S k). split; [lia|].
    destruct Hwin as (_ & _ & Hend & _). rewrite Hend in Hdays.
    rewrite <- !Nat.iter_succ_r in Hdays. exact Hdays.
Qed.

(** A simulation on a non-empty slice returns one of the three results. *)
Lemma checkInPeriod_total (config : config) (datePrices : list datePrice) :
  datePrices <> [] -> len datePrices <= MaxInt64 ->
  exists r, checkInPeriod config datePrices = Ok r /\ is_result r.
Proof.
  intros Hne Hlen.
  destruct (checkInPeriod_runs_spec config datePrices Hne Hlen)
    as (first & r & infos & _ & _ & Hcheck & Hruns).
  exists r. split; [exact Hcheck|].
  apply (runs_result _ _ _ _ _ _ _ _ Hruns).
Qed.

(** C2. On a non-empty price series (of a length that is a Go int) and
    for every config, [checkInPeriod] returns, without a panic, exactly one
    of success, failed and na; and it returns na only when, in some run
    [k] below [config.run], the start day or the end day of the period of
    that run lies after the date of the last sample of the series. *)
Theorem checkInPeriod_outcome (config : config) (datePrices : list datePrice) :
  datePrices <> [] -> len datePrices <= MaxInt64 ->
  exists r,
    checkInPeriod config datePrices = Ok r
    /\ ((r = success /\ r <> failed /\ r <> na)
        \/ (r = failed /\ r <> success /\ r <> na)
        \/ (r = na /\ r <> success /\ r <> failed))
    /\ (r = na ->
        exists k, Z.of_nat k < run config
          /\ (last_day datePrices
                < period_start config (date_at datePrices 0) k
              \/ last_day datePrices
                < period_end config (date_at datePrices 0) k)).
Proof.
  intros Hne Hlen.
  destruct (checkInPeriod_runs_spec config datePrices Hne Hlen)
    as (first & r & infos & Hfirst & _ & Hcheck & Hruns).
  exists r. split; [exact Hcheck|].
  destruct (runs_result _ _ _ _ _ _ _ _ Hruns) as [Hr Hna]. split.
  - unfold success, failed, na in *.
    destruct Hr as [ -> | [ -> | -> ] ]; [left | right; left | right; right];
      repeat split; discriminate.
  - intros E. destruct (Hna E) as (k & Hk & Hdays). exists k. split; [lia|].
    unfold period_end, period_start.
    destruct (hd_index datePrices Hne) as (first' & Hfirst' & Hd & _).
    rewrite Hfirst in Hfirst'. inversion Hfirst'; subst first'.
    rewrite <- Hd. exact Hdays.
Qed.

Lemma runs_empty_window config datePrices fuel run heldShares endDay r infos :
  runs config datePrices fuel run heldShares endDay r infos ->
  forall info, In info infos -> ri_startIndex info = ri_endIndex info ->
    r = failed /\ ri_sale info = None /\ last infos info = info.
Proof.
  induction 1 as [fuel run held endDay Hdone
                 | fuel run held endDay Hlt Hday
                 | fuel run held endDay info Hlt Hwin Hsale
                 | fuel run held endDay info r infos Hlt Hwin Hsale Hruns IH];
    intros info' Hin Hempty; cbn [In] in Hin; try contradiction.
  - destruct Hin as [ <- | [] ]. repeat split; assumption.
  - destruct Hin as [ <- | Hin ].
    + exfalso. destruct Hwin as (_ & _ & _ & _ & _ & _ & _ & _ & Hs).
      destruct (ri_sale info) as [[k sold]|]; [|congruence].
      destruct Hs as (Hk & _). lia.
    + destruct (IH info' Hin Hempty) as (Hr & Hs & Hl).
      repeat split; try assumption.
      destruct infos as [|i0 infos']; [contradiction|]. exact Hl.
Qed.

(** C10. If in some run both days are found at the same index (the
    window [startIndex .. endIndex - 1] is empty), the simulation returns
    failed, whatever the number of shares held: that run sells nothing and
    is the last one. *)
Theorem empty_window_failed (config : config) (datePrices : list datePrice)
  (r heldShares : Z) (infos : list runInfo) (info : runInfo) :
  datePrices <> [] -> len datePrices <= MaxInt64 ->
  checkInPeriod_runs config datePrices = Ok (r, heldShares, infos) ->
  In info infos ->
  ri_startIndex info = ri_endIndex info ->
  r = failed
  /\ checkInPeriod config datePrices = Ok failed
  /\ findClosestDay (ri_startDay info) datePrices = (ri_startIndex info, true)
  /\ findClosestDay (ri_endDay info) datePrices = (ri_endIndex info, true)
  /\ ri_sale info = None
  /\ last infos info = info.
Proof.
  intros Hne Hlen Hrun Hin Hempty.
  destruct (checkInPeriod_runs_spec config datePrices Hne Hlen)
    as (first & r' & infos' & Hfirst & Hrun' & Hcheck & Hruns).
  rewrite Hrun in Hrun'. inversion Hrun'; subst r' infos'. clear Hrun'.
  destruct (runs_empty_window _ _ _ _ _ _ _ _ Hruns info Hin Hempty)
    as (Hr & Hs & Hl).
  assert (Hwin : exists run held endDay,
             window_of config datePrices run held endDay info).
  { clear - Hruns Hin. induction Hruns; cbn [In] in Hin; try contradiction.
    - destruct Hin as [ <- | [] ]. eauto.
    - destruct Hin as [ <- | Hin ]; eauto. }
  destruct Hwin as (run0 & held0 & endDay0 & Hwin).
  destruct Hwin as (_ & _ & _ & Hfs & Hfe & _).
  subst r. repeat split; assumption.
Qed.

End Simulation.

Section Targets.
Context {rt : GoRuntime}.

(** The loop counter does not wrap: [run < config.run] inside the loop. *)
Lemma run_succ (config : config) (run : Z) :
  in_int (config_run config) -> MinInt64 <= run -> run < config_run config ->
  int_add run 1 = run + 1.
Proof.
  unfold in_int. intros Hc Hlo Hlt. apply int_add_small. unfold in_int. lia.
Qed.

Lemma runs_targets config datePrices fuel run heldShares endDay r infos :
  in_int (config_run config) ->
  runs config datePrices fuel run heldShares endDay r infos ->
  MinInt64 <= run ->
  forall k info, nth_error infos k = Some info ->
    let n := int_mul (run + Z.of_nat k + 1) (yearPerRun config) in
    ri_run info = run + Z.of_nat k
    /\ ri_targetCapital info = target_formula config n
    /\ ri_costOfLiving info = cost_formula config n.
Proof.
  intros Hc.
  induction 1 as [fuel run held endDay Hdone
                 | fuel run held endDay Hlt Hday
                 | fuel run held endDay info Hlt Hwin Hsale
                 | fuel run held endDay info r infos Hlt Hwin Hsale Hruns IH];
    intros Hlo k info' Hk; cbv zeta.
  - destruct k; discriminate.
  - destruct k; discriminate.
  - destruct k as [|k]; [|destruct k; discriminate].
    cbn [nth_error] in Hk. inversion Hk; subst info'.
    destruct Hwin as (Hrun & _ & _ & _ & _ & Ht & Hcost & _).
    rewrite (run_succ config run Hc Hlo Hlt) in Ht, Hcost.
    replace (run + Z.of_nat 0 + 1) with (run + 1) by lia.
    rewrite Z.add_0_r. repeat split; assumption.
  - pose proof (run_succ config run Hc Hlo Hlt) as Hsucc.
    destruct k as [|k]; cbn [nth_error] in Hk.
    + inversion Hk; subst info'.
      destruct Hwin as (Hrun & _ & _ & _ & _ & Ht & Hcost & _).
      rewrite Hsucc in Ht, Hcost.
      replace (run + Z.of_nat 0 + 1) with (run + 1) by lia.
      rewrite Z.add_0_r. repeat split; assumption.
    + rewrite Hsucc in IH. specialize (IH ltac:(lia) k info' Hk).
      cbv zeta in IH.
      replace (run + Z.of_nat (S k)) with (run + 1 + Z.of_nat k) by lia.
      exact IH.
Qed.

(** C1. In the record of the [r]-th run that [checkInPeriod] processes
    (counting from 0), the loop counter is [r] and the target capital is
    [float64(capital) * f + float64(costPerYear) * float64(yearPerRun) * f]
    with [f = math.Pow(inflationRate, float64(n))] and the exponent
    [n = (r+1) * yearPerRun] formed in Go's [int]: inflated capital plus
    cost of living. [n] is the product of the integers [r+1] and
    [yearPerRun] whenever that product is a 64-bit integer. *)
Theorem target_capital_of_run (config : config) (datePrices : list datePrice)
  (res heldShares : Z) (infos : list runInfo) (r : nat) (info : runInfo) :
  in_int (run config) ->
  datePrices <> [] -> len datePrices <= MaxInt64 ->
  checkInPeriod_runs config datePrices = Ok (res, heldShares, infos) ->
  nth_error infos r = Some info ->
  let n := int_mul (Z.of_nat r + 1) (yearPerRun config) in
  let inflationFactor := math_Pow (inflationRate config) (float64_of_int n) in
  let inflatedCapital :=
    (float64_of_int (capital config) * inflationFactor)%float in
  let costOfLiving :=
    (float64_of_int (costPerYear config) * float64_of_int (yearPerRun config)
     * inflationFactor)%float in
  ri_run info = Z.of_nat r
  /\ ri_costOfLiving info = costOfLiving
  /\ ri_targetCapital info = (inflatedCapital + costOfLiving)%float
  /\ (in_int ((Z.of_nat r + 1) * yearPerRun config) ->
      n = (Z.of_nat r + 1) * yearPerRun config).
Proof.
  intros Hc Hne Hlen Hrun Hnth.
  destruct (checkInPeriod_runs_spec config datePrices Hne Hlen)
    as (first & r' & infos' & Hfirst & Hrun' & _ & Hruns).
  rewrite Hrun in Hrun'. inversion Hrun'; subst r' infos'. clear Hrun'.
  pose proof (runs_targets _ _ _ _ _ _ _ _ Hc Hruns ltac:(unfold MinInt64; lia)
                r info Hnth) as Ht.
  cbv zeta in *. rewrite Z.add_0_l in Ht. destruct Ht as (Ht1 & Ht2 & Ht3).
  repeat split; try assumption.
  apply int_mul_small.
Qed.

End Targets.

(* ===================================================================== *)
(** ** checkStrategy *)

Lemma count_of_cons (r x : Z) (rs : list Z) :
  count_of r (x :: rs) = (if Z.eq_dec x r then 1 else 0) + count_of r rs.
Proof.
  unfold count_of. cbn [count_occ]. destruct (Z.eq_dec x r); lia.
Qed.

Lemma count_of_nonneg (r : Z) (rs : list Z) : 0 <= count_of r rs.
Proof. unfold count_of. lia. Qed.

(** The three counts of a list of check results add up to its length. *)
Lemma count_of_total (rs : list Z) :
  Forall is_result rs ->
  count_of success rs + count_of failed rs + count_of na rs
  = Z.of_nat (length rs).
Proof.
  induction 1 as [|r rs Hr _ IH]; [reflexivity|].
  rewrite !count_of_cons. cbn [length]. unfold is_result, success, failed, na in *.
  destruct Hr as [ -> | [ -> | -> ] ];
    repeat match goal with |- context [Z.eq_dec ?a ?b] =>
             destruct (Z.eq_dec a b); try discriminate; try congruence end;
    lia.
Qed.

Section Aggregation.
Context {rt : GoRuntime}.

Lemma count_result_spec (r : Z) (t : tally) :
  is_result r ->
  0 <= successCount t -> 0 <= failedCount t -> 0 <= naCount t ->
  successCount t + failedCount t + naCount t < MaxInt64 ->
  exists t', count_result r t = Ok t'
    /\ successCount t' = successCount t + count_of success [r]
    /\ failedCount t' = failedCount t + count_of failed [r]
    /\ naCount t' = naCount t + count_of na [r].
Proof.
  intros Hr Hs Hf Hn Hsum. unfold count_result.
  assert (Hadd : forall c, 0 <= c -> c <= successCount t + failedCount t + naCount t ->
                   int_add c 1 = c + 1).
  { intros c Hc Hle. apply int_add_small. unfold in_int, MinInt64, MaxInt64 in *. lia. }
  rewrite !count_of_cons. change (count_of _ []) with 0.
  destruct Hr as [ -> | [ -> | -> ] ].
  - change (success =? success) with true. cbv iota.
    eexists. split; [reflexivity|]. cbn [successCount failedCount naCount].
    rewrite Hadd by lia.
    change (Z.eq_dec success failed) with (Z.eq_dec 0 1).
    change (Z.eq_dec success na) with (Z.eq_dec 0 2).
    destruct (Z.eq_dec success success), (Z.eq_dec 0 1), (Z.eq_dec 0 2);
      try discriminate; try congruence; lia.
  - change (failed =? success) with false. change (failed =? failed) with true.
    cbv iota.
    eexists. split; [reflexivity|]. cbn [successCount failedCount naCount].
    rewrite Hadd by lia.
    change (Z.eq_dec failed success) with (Z.eq_dec 1 0).
    change (Z.eq_dec failed na) with (Z.eq_dec 1 2).
    destruct (Z.eq_dec failed failed), (Z.eq_dec 1 0), (Z.eq_dec 1 2);
      try discriminate; try congruence; lia.
  - change (na =? success) with false. change (na =? failed) with false.
    change (na =? na) with true. cbv iota.
    eexists. split; [reflexivity|]. cbn [successCount failedCount naCount].
    rewrite Hadd by lia.
    change (Z.eq_dec na success) with (Z.eq_dec 2 0).
    change (Z.eq_dec na failed) with (Z.eq_dec 2 1).
    destruct (Z.eq_dec na na), (Z.eq_dec 2 0), (Z.eq_dec 2 1);
      try discriminate; try congruence; lia.
Qed.

(** The [range] loop runs one simulation per remaining index, none of
    which panics, and adds each result to exactly one counter. *)
Lemma range_loop_spec (config : config) (datePrices : list datePrice) :
  len datePrices <= MaxInt64 ->
  forall fuel i t,
    0 <= i -> i + Z.of_nat fuel = len datePrices ->
    0 <= successCount t -> 0 <= failedCount t -> 0 <= naCount t ->
    successCount t + failedCount t + naCount t = i ->
    exists rs t',
      range_loop fuel config datePrices i t = (rs, Ok t')
      /\ length rs = fuel
      /\ Forall is_result rs
      /\ (forall k, (k < fuel)%nat ->
            checkInPeriod config (slice_from datePrices (i + Z.of_nat k))
            = Ok (nth k rs (-1)))
      /\ successCount t' = successCount t + count_of success rs
      /\ failedCount t' = failedCount t + count_of failed rs
      /\ naCount t' = naCount t + count_of na rs.
Proof.
  intros Hlen.
  induction fuel as [|fuel IH]; intros i t Hi Hfuel Hs Hf Hn Hsum;
    cbn [range_loop].
  - exists [], t. change (count_of _ []) with 0.
    split; [reflexivity|]. split; [reflexivity|]. split; [constructor|].
    split; [intros k Hk; lia|]. lia.
  - destruct (Z.ltb_spec i (len datePrices)) as [Hlt|Hge]; [|lia].
    assert (Hslice : slice_from datePrices i <> []).
    { intros E. pose proof (slice_from_len datePrices i ltac:(lia)) as Hl.
      rewrite E in Hl. unfold len at 1 in Hl. cbn [length] in Hl. lia. }
    assert (Hslen : len (slice_from datePrices i) <= MaxInt64).
    { rewrite slice_from_len by lia. lia. }
    destruct (checkInPeriod_total config _ Hslice Hslen) as (r & Hr & Hres).
    rewrite Hr.
    destruct (count_result_spec r t Hres Hs Hf Hn ltac:(lia))
      as (t1 & Ht1 & Hs1 & Hf1 & Hn1).
    rewrite Ht1.
    assert (Hnext : int_add i 1 = i + 1).
    { apply int_add_small. unfold in_int, MinInt64, MaxInt64 in *. lia. }
    rewrite Hnext.
    pose proof (count_of_nonneg success [r]).
    pose proof (count_of_nonneg failed [r]).
    pose proof (count_of_nonneg na [r]).
    pose proof (count_of_total [r] (Forall_cons r Hres (Forall_nil _))) as Hone1.
    cbn [length] in Hone1.
    destruct (IH (i + 1) t1 ltac:(lia) ltac:(lia) ltac:(lia) ltac:(lia)
                 ltac:(lia) ltac:(lia))
      as (rs & t' & Hloop & Hlenrs & Hall & Hnth & Hs' & Hf' & Hn').
    rewrite Hloop. exists (r :: rs), t'.
    split; [reflexivity|]. split; [cbn [length]; lia|].
    split; [constructor; assumption|]. split.
    + intros k Hk. destruct k as [|k]; cbn [nth].
      * rewrite Z.add_0_r. exact Hr.
      * replace (i + Z.of_nat (S k)) with (i + 1 + Z.of_nat k) by lia.
        apply Hnth. lia.
    + rewrite !(count_of_cons _ r rs). rewrite !count_of_cons in Hs1, Hf1, Hn1.
      change (count_of _ []) with 0 in Hs1, Hf1, Hn1. lia.
Qed.

(** [checkStrategy] runs to its end: one simulation per starting index,
    each counted once. *)
Lemma checkStrategy_spec (config : config) (datePrices : list datePrice) :
  len datePrices <= MaxInt64 ->
  exists rs rep,
    checkStrategy config datePrices = (rs, Ok rep)
    /\ length rs = length datePrices
    /\ Forall is_result rs
    /\ (forall i, (i < length datePrices)%nat ->
          checkInPeriod config (slice_from datePrices (Z.of_nat i))
          = Ok (nth i rs (-1)))
    /\ successCount (counts rep) = count_of success rs
    /\ failedCount (counts rep) = count_of failed rs
    /\ naCount (counts rep) = count_of na rs.
Proof.
  intros Hlen. unfold checkStrategy.
  destruct (range_loop_spec config datePrices Hlen (length datePrices) 0
              {| successCount := 0; failedCount := 0; naCount := 0 |}
              ltac:(lia) ltac:(unfold len; lia) ltac:(cbn; lia) ltac:(cbn; lia)
              ltac:(cbn; lia) ltac:(cbn; lia))
    as (rs & t & Hloop & Hlenrs & Hall & Hnth & Hs & Hf & Hn).
  rewrite Hloop. cbn [bind].
  exists rs, {| counts := t; rate := success_rate t |}.
  cbn [counts successCount failedCount naCount] in *.
  split; [reflexivity|]. split; [exact Hlenrs|]. split; [exact Hall|]. split.
  - intros i Hi. rewrite <- (Hnth i Hi). reflexivity.
  - repeat split; lia.
Qed.

(** C6. On a price series of length [n] (a Go int) [checkStrategy] runs
    to its end, one simulation per starting index [i] on
    [datePrices[i:]]; each result is exactly one of success, failed and
    na and is counted in the counter of that name only, so the three counts
    are the numbers of simulations with each result and
    [successCount + failedCount + naCount = n]. *)
Theorem checkStrategy_totals (config : config) (datePrices : list datePrice) :
  len datePrices <= MaxInt64 ->
  exists rs rep,
    checkStrategy config datePrices = (rs, Ok rep)
    /\ successCount (counts rep) + failedCount (counts rep)
       + naCount (counts rep) = len datePrices
    /\ length rs = length datePrices
    /\ (forall i, (i < length datePrices)%nat ->
          checkInPeriod config (slice_from datePrices (Z.of_nat i))
          = Ok (nth i rs (-1))
          /\ is_result (nth i rs (-1)))
    /\ successCount (counts rep) = count_of success rs
    /\ failedCount (counts rep) = count_of failed rs
    /\ naCount (counts rep) = count_of na rs.
Proof.
  intros Hlen.
  destruct (checkStrategy_spec config datePrices Hlen)
    as (rs & rep & Hc & Hl & Hall & Hnth & Hs & Hf & Hn).
  exists rs, rep. split; [exact Hc|].
  pose proof (count_of_total rs Hall) as Htot.
  split; [unfold len; lia|]. split; [exact Hl|]. split.
  - intros i Hi. split; [exact (Hnth i Hi)|].
    rewrite Forall_forall in Hall. apply Hall. apply nth_In. lia.
  - repeat split; assumption.
Qed.

(** C8. The end of [main] with [checkStrategy] panics if and only if the
    price series is empty. On the empty series it panics with
    "no input data" and no simulation has been executed; on a non-empty
    series (of a length that is a Go int) it executes one simulation per
    starting index and returns the report. *)
Theorem main_check_input_error (config : config) (datePrices : list datePrice) :
  len datePrices <= MaxInt64 ->
  ((exists msg, snd (main_check config datePrices) = Panic msg)
   <-> datePrices = [])
  /\ (datePrices = [] ->
      main_check config datePrices = ([], Panic "no input data"%string))
  /\ (datePrices <> [] ->
      exists rs rep, main_check config datePrices = (rs, Ok rep)
        /\ length rs = length datePrices).
Proof.
  intros Hlen.
  assert (Hempty : datePrices = [] ->
            main_check config datePrices = ([], Panic "no input data"%string)).
  { intros ->. reflexivity. }
  assert (Hfull : datePrices <> [] ->
            exists rs rep, main_check config datePrices = (rs, Ok rep)
              /\ length rs = length datePrices).
  { intros Hne. unfold main_check.
    destruct (Z.eqb_spec (len datePrices) 0) as [E|E].
    - destruct datePrices; [congruence | unfold len in E; cbn [length] in E; lia].
    - destruct (checkStrategy_spec config datePrices Hlen)
        as (rs & rep & Hc & Hl & _).
      exists rs, rep. split; assumption. }
  split; [|split; assumption]. split.
  - intros [msg Hmsg]. destruct datePrices as [|d ds]; [reflexivity|].
    destruct (Hfull ltac:(discriminate)) as (rs & rep & Hm & _).
    rewrite Hm in Hmsg. discriminate.
  - intros E. rewrite (Hempty E). eexists. reflexivity.
Qed.

End Aggregation.

(* ===================================================================== *)
(** ** More runs, higher cost of living *)

Lemma Forall2_nth {A : Type} (R : A -> A -> Prop) (d : A) (l1 l2 : list A) :
  length l1 = length l2 ->
  (forall i, (i < length l1)%nat -> R (nth i l1 d) (nth i l2 d)) ->
  Forall2 R l1 l2.
Proof.
  revert l2. induction l1 as [|a l1 IH]; intros [|b l2] Hlen Hnth;
    cbn [length] in *; try discriminate; constructor.
  - apply (Hnth O). lia.
  - apply IH; [lia|]. intros i Hi. apply (Hnth (S i)). lia.
Qed.

Lemma kept_result_counts (rs1 rs2 : list Z) :
  Forall2 kept_result rs1 rs2 -> Forall is_result rs1 -> Forall is_result rs2 ->
  count_of success rs2 <= count_of success rs1
  /\ count_of failed rs1 <= count_of failed rs2
  /\ count_of na rs1 <= count_of na rs2.
Proof.
  induction 1 as [|r1 r2 rs1 rs2 Hr _ IH]; intros H1 H2.
  - repeat split; lia.
  - inversion H1 as [|? ? Hr1 H1']; inversion H2 as [|? ? Hr2 H2']; subst.
    specialize (IH H1' H2'). rewrite !count_of_cons.
    unfold kept_result, is_result, success, failed, na in *.
    repeat match goal with |- context [Z.eq_dec ?a ?b] =>
             destruct (Z.eq_dec a b) end; lia.
Qed.

Section MoreRuns.
Context {rt : GoRuntime}.

(** An iteration of the loop does not read [config.run]. *)
Lemma run_body_with_run (c : config) (n : Z) datePrices run heldShares endDay :
  run_body (with_run c n) datePrices run heldShares endDay
  = run_body c datePrices run heldShares endDay.
Proof. reflexivity. Qed.

(** With more runs the loop first does what it did with fewer: a result
    other than success stays. *)
Lemma run_loop_more_runs (c : config) (datePrices : list datePrice) (n1 n2 : Z) :
  n1 <= n2 -> n2 <= MaxInt64 ->
  forall fuel1 fuel2 run heldShares endDay r1 infos1,
    MinInt64 <= run ->
    fuel1 = Z.to_nat (n1 - run) -> fuel2 = Z.to_nat (n2 - run) ->
    run_loop fuel1 (with_run c n1) datePrices run heldShares endDay
    = Ok (r1, infos1) ->
    r1 = success
    \/ run_loop fuel2 (with_run c n2) datePrices run heldShares endDay
       = Ok (r1, infos1).
Proof.
  intros Hn Hmax.
  induction fuel1 as [|fuel1 IH];
    intros fuel2 run held endDay r1 infos1 Hlo Hf1 Hf2; cbn [run_loop].
  - intros H; inversion H. now left.
  - change (config_run (with_run c n1)) with n1.
    destruct (Z.ltb_spec run n1) as [Hlt|Hge].
    2:{ intros H; inversion H. now left. }
    destruct fuel2 as [|fuel2]; [lia|]. cbn [run_loop].
    change (config_run (with_run c n2)) with n2.
    destruct (Z.ltb_spec run n2) as [_|Hge2]; [|lia].
    rewrite !run_body_with_run.
    destruct (run_body c datePrices run held endDay) as [st|msg];
      cbn [bind]; [|discriminate].
    destruct st as [|info]; [now right|].
    destruct (ri_sale info); [|now right].
    assert (Hsucc : int_add run 1 = run + 1).
    { apply int_add_small. unfold in_int, MinInt64, MaxInt64 in *. lia. }
    rewrite Hsucc.
    destruct (run_loop fuel1 (with_run c n1) datePrices (run + 1)
                (ri_heldAfter info) (ri_endDay info)) as [[r' infos']|msg] eqn:E1;
      cbn [bind]; [|discriminate].
    intros H; inversion H; subst r1 infos1.
    destruct (IH fuel2 (run + 1) (ri_heldAfter info) (ri_endDay info) r' infos'
                ltac:(lia) ltac:(lia) ltac:(lia) E1) as [Hs|E2].
    + now left.
    + right. rewrite E2. reflexivity.
Qed.

Lemma checkInPeriod_more_runs (c : config) (datePrices : list datePrice)
  (n1 n2 r1 : Z) :
  n1 <= n2 -> n2 <= MaxInt64 ->
  checkInPeriod (with_run c n1) datePrices = Ok r1 ->
  r1 = success \/ checkInPeriod (with_run c n2) datePrices = Ok r1.
Proof.
  intros Hn Hmax. unfold checkInPeriod, checkInPeriod_runs.
  destruct (index datePrices 0) as [first|msg]; cbn [bind]; [|discriminate].
  change (initial_shares (with_run c n1) first) with (initial_shares c first).
  change (initial_shares (with_run c n2) first) with (initial_shares c first).
  change (run (with_run c n1)) with n1. change (run (with_run c n2)) with n2.
  destruct (run_loop (Z.to_nat n1) (with_run c n1) datePrices 0
              (initial_shares c first) (Date first)) as [[r infos]|msg] eqn:E1;
    cbn [bind]; [|discriminate].
  intros H; inversion H; subst r1.
  destruct (run_loop_more_runs c datePrices n1 n2 Hn Hmax (Z.to_nat n1)
              (Z.to_nat n2) 0 (initial_shares c first) (Date first) r infos
              ltac:(unfold MinInt64; lia) ltac:(f_equal; lia) ltac:(f_equal; lia)
              E1) as [Hs|E2].
  - now left.
  - right. rewrite E2. reflexivity.
Qed.

(** C4, the part that holds. With more runs and everything else fixed,
    no simulation turns into a success: at every starting index a failed
    or na result stays. Over the series the success count does not grow,
    the failed and na counts do not shrink, and the success rate
    [successCount / (successCount + failedCount)] does not grow (compared
    as a fraction, by cross-multiplication). *)
Theorem more_runs_no_more_success (c : config) (datePrices : list datePrice)
  (n1 n2 : Z) :
  len datePrices <= MaxInt64 -> n1 <= n2 -> n2 <= MaxInt64 ->
  exists rs1 rep1 rs2 rep2,
    checkStrategy (with_run c n1) datePrices = (rs1, Ok rep1)
    /\ checkStrategy (with_run c n2) datePrices = (rs2, Ok rep2)
    /\ Forall2 kept_result rs1 rs2
    /\ successCount (counts rep2) <= successCount (counts rep1)
    /\ failedCount (counts rep1) <= failedCount (counts rep2)
    /\ naCount (counts rep1) <= naCount (counts rep2)
    /\ successCount (counts rep2)
         * (successCount (counts rep1) + failedCount (counts rep1))
       <= successCount (counts rep1)
         * (successCount (counts rep2) + failedCount (counts rep2)).
Proof.
  intros Hlen Hn Hmax.
  destruct (checkStrategy_spec (with_run c n1) datePrices Hlen)
    as (rs1 & rep1 & Hc1 & Hl1 & Hall1 & Hnth1 & Hs1 & Hf1 & Hn1).
  destruct (checkStrategy_spec (with_run c n2) datePrices Hlen)
    as (rs2 & rep2 & Hc2 & Hl2 & Hall2 & Hnth2 & Hs2 & Hf2 & Hn2).
  exists rs1, rep1, rs2, rep2.
  split; [exact Hc1|]. split; [exact Hc2|].
  assert (Hkept : Forall2 kept_result rs1 rs2).
  { apply (Forall2_nth kept_result (-1)); [congruence|].
    intros i Hi. rewrite Hl1 in Hi.
    pose proof (Hnth1 i Hi) as E1. pose proof (Hnth2 i Hi) as E2.
    destruct (checkInPeriod_more_runs c _ n1 n2 _ Hn Hmax E1) as [Hs|E2'].
    - now left.
    - right. rewrite E2 in E2'. now inversion E2'. }
  split; [exact Hkept|].
  destruct (kept_result_counts rs1 rs2 Hkept Hall1 Hall2) as (Ks & Kf & Kn).
  pose proof (count_of_nonneg success rs1). pose proof (count_of_nonneg success rs2).
  pose proof (count_of_nonneg failed rs1). pose proof (count_of_nonneg failed rs2).
  rewrite Hs1, Hs2, Hf1, Hf2, Hn1, Hn2.
  repeat split; try lia. nia.
Qed.

End MoreRuns.

(* ===================================================================== *)
(** ** The scenario of the design document *)

(** C7, as the program runs it. On the series
    [(2000-01-01, 100), (2001-01-01, 200), (2010-01-01, 1000)] with
    capital 100, one run of one year, inflation rate 1.0 and no cost of
    living, on any runtime where [Pow(1, 1)] is 1 and 2000-01-01 plus one
    year is 2001-01-01: the simulation from index 0 starts with 1 share,
    finds the end of the period, 2001-01-01, at index 1, has the target
    capital 100, scans the window of the single index 0 and is satisfied
    there, where [1 * 100 >= 100]; it sells no share and returns
    success. The sample at index 1 is not in the window. *)
Theorem scenario_success (rt : GoRuntime) :
  math_Pow 1 1 = 1%float ->
  time_AddDate 1 (time_Date 2000 1 1) = time_Date 2001 1 1 ->
  checkInPeriod_runs scenario_config scenario_series
  = Ok (success, 1, [scenario_run])
  /\ checkInPeriod scenario_config scenario_series = Ok success
  /\ findClosestDay (time_Date 2001 1 1) scenario_series = (1, true)
  /\ satisfied_at scenario_series 1 100 0 = true
  /\ ri_sale scenario_run = Some (0, 0)
  /\ ~ (ri_startIndex scenario_run <= 1 < ri_endIndex scenario_run).
Proof.
  intros HPow HAdd.
  assert (Hruns : checkInPeriod_runs scenario_config scenario_series
                  = Ok (success, 1, [scenario_run])).
  { unfold checkInPeriod_runs.
    change (index scenario_series 0) with (Ok (sample 2000 1 1 100)).
    cbn [bind].
    assert (E : initial_shares scenario_config (sample 2000 1 1 100) = 1)
      by (vm_compute; reflexivity).
    rewrite E.
    change (Z.to_nat (run scenario_config)) with 1%nat.
    change (Date (sample 2000 1 1 100)) with (time_Date 2000 1 1).
    cbn [run_loop]. change (0 <? config_run scenario_config) with true.
    cbv iota. unfold run_body. change (yearPerRun scenario_config) with 1.
    rewrite HAdd.
    assert (Es : findClosestDay (time_Date 2000 1 1) scenario_series = (0, true))
      by (vm_compute; reflexivity).
    assert (Ee : findClosestDay (time_Date 2001 1 1) scenario_series = (1, true))
      by (vm_compute; reflexivity).
    rewrite Es, Ee. cbn [negb orb]. unfold inflation_of.
    assert (En : float64_of_int (int_mul (int_add 0 1) (yearPerRun scenario_config))
                 = 1%float) by (vm_compute; reflexivity).
    rewrite En. change (inflationRate scenario_config) with 1%float.
    rewrite HPow. vm_compute. reflexivity. }
  split; [exact Hruns|]. split.
  - unfold checkInPeriod. rewrite Hruns. reflexivity.
  - split; [vm_compute; reflexivity|]. split; [vm_compute; reflexivity|].
    split; [reflexivity|]. cbn. lia.
Qed.

Lemma scenario_success_witness :
  @checkInPeriod_runs go_amd64 scenario_config scenario_series
  = Ok (success, 1, [scenario_run])
  /\ @checkInPeriod go_amd64 scenario_config scenario_series = Ok success
  /\ findClosestDay (time_Date 2001 1 1) scenario_series = (1, true)
  /\ satisfied_at scenario_series 1 100 0 = true
  /\ ri_sale scenario_run = Some (0, 0)
  /\ ~ (ri_startIndex scenario_run <= 1 < ri_endIndex scenario_run).
Proof.
  apply (scenario_success go_amd64).
  - vm_compute. reflexivity.
  - vm_compute. reflexivity.
Defined.

Lemma scenario_runs_go_amd64 :
  @checkInPeriod_runs go_amd64 scenario_config scenario_series
  = Ok (success, 1, [scenario_run]).
Proof. vm_compute. reflexivity. Qed.

(** C7 as the design document words it does not hold: the run is not
    satisfied at index 1, which the scan never reads. *)
Lemma scenario_not_satisfied_at_index_1 :
  ~ (exists info soldShares,
       @checkInPeriod_runs go_amd64 scenario_config scenario_series
       = Ok (success, 1, [info])
       /\ ri_endIndex info = 1
       /\ ri_sale info = Some (1, soldShares)).
Proof.
  intros (info & sold & Hruns & _ & Hsale).
  rewrite scenario_runs_go_amd64 in Hruns.
  inversion Hruns; subst info. discriminate Hsale.
Qed.

(* ===================================================================== *)
(** ** Worked instances *)

Lemma scenario_series_len : len scenario_series <= MaxInt64.
Proof. vm_compute. discriminate. Qed.

Lemma target_capital_of_run_witness :
  let n := int_mul (Z.of_nat 0 + 1) (yearPerRun scenario_config) in
  let inflationFactor :=
    @math_Pow go_amd64 (inflationRate scenario_config) (float64_of_int n) in
  let inflatedCapital :=
    (float64_of_int (capital scenario_config) * inflationFactor)%float in
  let costOfLiving :=
    (float64_of_int (costPerYear scenario_config)
     * float64_of_int (yearPerRun scenario_config) * inflationFactor)%float in
  ri_run scenario_run = Z.of_nat 0
  /\ ri_costOfLiving scenario_run = costOfLiving
  /\ ri_targetCapital scenario_run = (inflatedCapital + costOfLiving)%float
  /\ (in_int ((Z.of_nat 0 + 1) * yearPerRun scenario_config) ->
      n = (Z.of_nat 0 + 1) * yearPerRun scenario_config).
Proof.
  apply (@target_capital_of_run go_amd64 scenario_config scenario_series
           success 1 [scenario_run] 0 scenario_run).
  - vm_compute. split; discriminate.
  - discriminate.
  - exact scenario_series_len.
  - exact scenario_runs_go_amd64.
  - reflexivity.
Defined.

Lemma checkInPeriod_outcome_witness :
  exists r,
    @checkInPeriod go_amd64 scenario_config scenario_series = Ok r
    /\ ((r = success /\ r <> failed /\ r <> na)
        \/ (r = failed /\ r <> success /\ r <> na)
        \/ (r = na /\ r <> success /\ r <> failed))
    /\ (r = na ->
        exists k, Z.of_nat k < run scenario_config
          /\ (last_day scenario_series
                < @period_start go_amd64 scenario_config
                    (date_at scenario_series 0) k
              \/ last_day scenario_series
                < @period_end go_amd64 scenario_config
                    (date_at scenario_series 0) k)).
Proof.
  apply (@checkInPeriod_outcome go_amd64 scenario_config scenario_series).
  - discriminate.
  - exact scenario_series_len.
Defined.

Lemma checkStrategy_totals_witness :
  exists rs rep,
    @checkStrategy go_amd64 scenario_config scenario_series = (rs, Ok rep)
    /\ successCount (counts rep) + failedCount (counts rep)
       + naCount (counts rep) = len scenario_series
    /\ length rs = length scenario_series
    /\ (forall i, (i < length scenario_series)%nat ->
          @checkInPeriod go_amd64 scenario_config
            (slice_from scenario_series (Z.of_nat i))
          = Ok (nth i rs (-1))
          /\ is_result (nth i rs (-1)))
    /\ successCount (counts rep) = count_of success rs
    /\ failedCount (counts rep) = count_of failed rs
    /\ naCount (counts rep) = count_of na rs.
Proof.
  apply (@checkStrategy_totals go_amd64 scenario_config scenario_series).
  exact scenario_series_len.
Defined.

Lemma main_check_input_error_witness :
  ((exists msg, snd (@main_check go_amd64 scenario_config []) = Panic msg)
   <-> @nil datePrice = [])
  /\ (@nil datePrice = [] ->
      @main_check go_amd64 scenario_config []
      = ([], Panic "no input data"%string))
  /\ (@nil datePrice <> [] ->
      exists rs rep, @main_check go_amd64 scenario_config [] = (rs, Ok rep)
        /\ length rs = @length datePrice []).
Proof.
  apply (@main_check_input_error go_amd64 scenario_config []).
  vm_compute. discriminate.
Defined.

Lemma gap_runs_go_amd64 :
  @checkInPeriod_runs go_amd64 gap_config gap_series
  = Ok (failed, 100, [gap_first_run; gap_run]).
Proof. vm_compute. reflexivity. Qed.

Lemma empty_window_failed_witness :
  failed = failed
  /\ @checkInPeriod go_amd64 gap_config gap_series = Ok failed
  /\ findClosestDay (ri_startDay gap_run) gap_series
     = (ri_startIndex gap_run, true)
  /\ findClosestDay (ri_endDay gap_run) gap_series
     = (ri_endIndex gap_run, true)
  /\ ri_sale gap_run = None
  /\ last [gap_first_run; gap_run] gap_run = gap_run.
Proof.
  apply (@empty_window_failed go_amd64 gap_config gap_series failed 100
           [gap_first_run; gap_run] gap_run).
  - discriminate.
  - vm_compute. discriminate.
  - exact gap_runs_go_amd64.
  - right. left. reflexivity.
  - reflexivity.
Defined.

Lemma more_runs_no_more_success_witness :
  exists rs1 rep1 rs2 rep2,
    @checkStrategy go_amd64 (with_run gap_config 1) gap_series = (rs1, Ok rep1)
    /\ @checkStrategy go_amd64 (with_run gap_config 2) gap_series
       = (rs2, Ok rep2)
    /\ Forall2 kept_result rs1 rs2
    /\ successCount (counts rep2) <= successCount (counts rep1)
    /\ failedCount (counts rep1) <= failedCount (counts rep2)
    /\ naCount (counts rep1) <= naCount (counts rep2)
    /\ successCount (counts rep2)
         * (successCount (counts rep1) + failedCount (counts rep1))
       <= successCount (counts rep1)
         * (successCount (counts rep2) + failedCount (counts rep2)).
Proof.
  apply (@more_runs_no_more_success go_amd64 gap_config gap_series 1 2).
  - vm_compute. discriminate.
  - lia.
  - vm_compute. discriminate.
Defined.

Lemma late_sale_runs :
  @checkStrategy go_amd64 late_sale_config late_sale_series
  = ([failed; na; failed; failed; na],
     Ok {| counts := {| successCount := 0; failedCount := 3; naCount := 2 |};
           rate := 0 |})
  /\ @checkStrategy go_amd64 (with_cost late_sale_config 101) late_sale_series
     = ([success; na; failed; failed; na],
        Ok {| counts := {| successCount := 1; failedCount := 2; naCount := 2 |};
              rate := 1 / 3 |})
  /\ (0 <? 1 / 3)%float = true.
Proof. repeat split; vm_compute; reflexivity. Qed.

Lemma late_sale_valid :
  valid_config late_sale_config
  /\ valid_config (with_cost late_sale_config 101)
  /\ ascending late_sale_series
  /\ Forall positive_price late_sale_series.
Proof.
  split; [|split; [|split]].
  - unfold valid_config, config_typed, in_int. vm_compute.
    repeat split; discriminate.
  - unfold valid_config, config_typed, in_int. vm_compute.
    repeat split; discriminate.
  - unfold ascending, late_sale_series.
    repeat (constructor; try (unfold date_le; vm_compute; discriminate)).
  - unfold late_sale_series. repeat constructor.
Qed.

(** C4 as the design document words it does not hold for the cost of
    living, even on valid configs and ascending series of positive prices.
    On [late_sale_series], with cost 100 no simulation succeeds (3 failed,
    2 na, rate 0); with cost 101 and everything else the same the
    simulation from index 0 succeeds (1 success, 2 failed, 2 na, rate
    1/3): the first run sells on the third sample instead of the second,
    no share instead of 50, and the second run is then satisfied. *)
Lemma higher_cost_more_success :
  ~ (forall (c : config) (cost : Z) (s : list datePrice) rs1 rep1 rs2 rep2,
       valid_config c -> valid_config (with_cost c cost) ->
       costPerYear c <= cost ->
       ascending s -> Forall positive_price s ->
       @checkStrategy go_amd64 c s = (rs1, Ok rep1) ->
       @checkStrategy go_amd64 (with_cost c cost) s = (rs2, Ok rep2) ->
       successCount (counts rep2) <= successCount (counts rep1)
       /\ successCount (counts rep2)
            * (successCount (counts rep1) + failedCount (counts rep1))
          <= successCount (counts rep1)
            * (successCount (counts rep2) + failedCount (counts rep2))).
Proof.
  intros Hclaim.
  destruct late_sale_runs as (H100 & H101 & _).
  destruct late_sale_valid as (Hv & Hv' & Hasc & Hpos).
  specialize (Hclaim late_sale_config 101 late_sale_series _ _ _ _
                Hv Hv' ltac:(vm_compute; discriminate) Hasc Hpos H100 H101).
  cbn [counts successCount failedCount] in Hclaim. lia.
Qed.

(* ===================================================================== *)
(** ** Share truncation *)

(** On a nonnegative binary64 the conversion to an integer (toward zero)
    is the floor. *)
Lemma SFfloor_nonneg_trunc (x : spec_float) (z : Z) :
  SFfloor x = Some z -> 0 <= z -> SFtrunc x = Some z.
Proof.
  destruct x as [s|s| |s m e]; cbn [SFfloor SFtrunc]; try congruence.
  destruct s; [|congruence].
  intros H Hz. exfalso.
  assert (Hz' : (if 0 <=? e then Zneg m * 2 ^ e else Zneg m / 2 ^ (- e)) = z)
    by congruence.
  clear H. rewrite <- Hz' in Hz. clear Hz'. revert Hz.
  destruct (Z.leb_spec 0 e); intros Hz.
  - pose proof (Z.pow_pos_nonneg 2 e ltac:(lia) ltac:(lia)).
    pose proof (Pos2Z.neg_is_neg m).
    assert (Zneg m * 2 ^ e < 0) by (apply Z.mul_neg_pos; lia). lia.
  - pose proof (Z.pow_pos_nonneg 2 (- e) ltac:(lia) ltac:(lia)) as Hp.
    pose proof (Pos2Z.neg_is_neg m).
    assert (Zneg m / 2 ^ (- e) < 0); [|lia].
    apply Z.div_lt_upper_bound; lia.
Qed.

Section Truncation.
Context {rt : GoRuntime}.

(** [int64(f)] is the floor of [f] whenever that floor is a nonnegative
    int64. *)
Lemma int64_of_float_floor (f : float) (z : Z) :
  float_floor f = Some z -> 0 <= z <= MaxInt64 -> int64_of_float f = z.
Proof.
  unfold float_floor, int64_of_float, float_trunc. intros Hf Hz.
  rewrite (SFfloor_nonneg_trunc _ _ Hf) by lia.
  destruct (Z.leb_spec MinInt64 z); destruct (Z.leb_spec z MaxInt64);
    cbn [andb]; unfold MinInt64 in *; lia.
Qed.

(** A value of int64 type is a 64-bit integer on every runtime. *)
Lemma int64_of_float_in_int (f : float) : in_int (int64_of_float f).
Proof.
  unfold int64_of_float.
  destruct (float_trunc f) as [z|]; [|apply wrap64_in_int].
  destruct (Z.leb_spec MinInt64 z); destruct (Z.leb_spec z MaxInt64);
    cbn [andb]; try apply wrap64_in_int. unfold in_int. lia.
Qed.

(** Every record of a simulation is the record of a window. *)
Lemma runs_window config datePrices fuel run heldShares endDay r infos :
  runs config datePrices fuel run heldShares endDay r infos ->
  forall info, In info infos ->
    exists run' endDay',
      window_of config datePrices run' (ri_heldBefore info) endDay' info.
Proof.
  induction 1 as [fuel run held endDay Hdone
                 | fuel run held endDay Hlt Hday
                 | fuel run held endDay info Hlt Hwin Hsale
                 | fuel run held endDay info r infos Hlt Hwin Hsale Hruns IH];
    intros info' Hin; cbn [In] in Hin; try contradiction.
  - destruct Hin as [ <- | [] ].
    pose proof Hwin as (_ & _ & _ & _ & _ & _ & _ & Hb & _). rewrite Hb. eauto.
  - destruct Hin as [ <- | Hin ]; [|eauto].
    pose proof Hwin as (_ & _ & _ & _ & _ & _ & _ & Hb & _). rewrite Hb. eauto.
Qed.

(** The shares carry over from one run to the next. *)
Lemma runs_chain config datePrices fuel run heldShares endDay r infos :
  runs config datePrices fuel run heldShares endDay r infos ->
  (forall info, nth_error infos 0 = Some info ->
     ri_heldBefore info = heldShares)
  /\ (forall i prev next,
        nth_error infos i = Some prev -> nth_error infos (S i) = Some next ->
        ri_heldBefore next = ri_heldAfter prev).
Proof.
  induction 1 as [fuel run held endDay Hdone
                 | fuel run held endDay Hlt Hday
                 | fuel run held endDay info Hlt Hwin Hsale
                 | fuel run held endDay info r infos Hlt Hwin Hsale Hruns IH].
  - split; [intros info H | intros i prev next H]; [|destruct i]; discriminate.
  - split; [intros info H | intros i prev next H]; [|destruct i]; discriminate.
  - split.
    + intros info' H. inversion H; subst. apply Hwin.
    + intros [|i] prev next _ H; [|destruct i]; discriminate.
  - destruct IH as [IH0 IHS]. split.
    + intros info' H. inversion H; subst. apply Hwin.
    + intros [|i] prev next Hp Hn; cbn [nth_error] in Hp, Hn.
      * inversion Hp; subst. apply IH0. exact Hn.
      * apply (IHS i); assumption.
Qed.

(** C5, as the program computes it. The shares held after the
    initialization are [int64(float64(capital) / price)] on the first
    sample: the floor of that float64 quotient whenever the floor is a
    nonnegative int64 (truncation, no rounding). Each run starts with the
    shares the run before ended with; a run without a sale leaves them
    unchanged, and a sale on the sample [k] takes away, in 64-bit
    arithmetic, [int64(costOfLiving / price)], again the floor of the
    float64 quotient whenever that is a nonnegative int64. *)
Theorem share_truncation (config : config) (datePrices : list datePrice)
  (r heldShares : Z) (infos : list runInfo) :
  datePrices <> [] -> len datePrices <= MaxInt64 ->
  checkInPeriod_runs config datePrices = Ok (r, heldShares, infos) ->
  let q0 := (float64_of_int (capital config) / price_at datePrices 0)%float in
  heldShares = int64_of_float q0
  /\ (forall z, float_floor q0 = Some z -> 0 <= z <= MaxInt64 ->
        heldShares = z)
  /\ (forall info, nth_error infos 0 = Some info ->
        ri_heldBefore info = heldShares)
  /\ (forall i prev next,
        nth_error infos i = Some prev -> nth_error infos (S i) = Some next ->
        ri_heldBefore next = ri_heldAfter prev)
  /\ (forall info, In info infos ->
        match ri_sale info with
        | None => ri_heldAfter info = ri_heldBefore info
        | Some (k, soldShares) =>
            let q := (ri_costOfLiving info / price_at datePrices k)%float in
            soldShares = int64_of_float q
            /\ (forall z, float_floor q = Some z -> 0 <= z <= MaxInt64 ->
                  soldShares = z)
            /\ ri_heldAfter info = int_sub (ri_heldBefore info) soldShares
            /\ (in_int (ri_heldBefore info - soldShares) ->
                ri_heldAfter info = ri_heldBefore info - soldShares)
        end).
Proof.
  intros Hne Hlen Hrun q0.
  destruct (checkInPeriod_runs_spec config datePrices Hne Hlen)
    as (first & r' & infos' & Hfirst & Hrun' & _ & Hruns).
  rewrite Hrun in Hrun'. inversion Hrun'; subst r' infos'.
  destruct (hd_index datePrices Hne) as (first' & Hfirst' & _ & Hprice).
  rewrite Hfirst in Hfirst'. inversion Hfirst'; subst first'.
  assert (Hq0 : initial_shares config first = int64_of_float q0).
  { unfold initial_shares, q0. rewrite Hprice. reflexivity. }
  split; [exact Hq0|]. split.
  { intros z Hz Hrange. rewrite Hq0. now apply int64_of_float_floor. }
  destruct (runs_chain _ _ _ _ _ _ _ _ Hruns) as [Hc0 HcS].
  split; [exact Hc0|]. split; [exact HcS|].
  intros info Hin.
  destruct (runs_window _ _ _ _ _ _ _ _ Hruns info Hin) as (run' & endDay' & Hwin).
  destruct Hwin as (_ & _ & _ & _ & _ & _ & _ & _ & Hsale).
  destruct (ri_sale info) as [[k sold]|].
  - destruct Hsale as (_ & _ & _ & Hsold & Hafter). cbv zeta.
    unfold sold_at in Hsold. split; [exact Hsold|]. split.
    + intros z Hz Hrange. rewrite Hsold. now apply int64_of_float_floor.
    + split; [exact Hafter|]. intros Hin64. rewrite Hafter.
      now apply int_sub_small.
  - apply Hsale.
Qed.

End Truncation.

Lemma tiny_price_runs :
  @checkInPeriod_runs go_amd64 tiny_price_config tiny_price_series
  = Ok (na, MinInt64, [])
  /\ float_floor (float64_of_int (capital tiny_price_config)
                  / price_at tiny_price_series 0)
     = Some (2 ^ 100).
Proof. split; vm_compute; reflexivity. Qed.

(** C5 as the design document words it does not hold in every
    simulation: with the capital 1 and the price 2^-100 the floor of the
    quotient is 2^100, which no int64 holds; the conversion then gives an
    implementation-dependent int64 (the smallest one on amd64). *)
Lemma initial_shares_not_floor :
  ~ (forall (c : config) (s : list datePrice) r heldShares infos,
       valid_config c -> ascending s -> Forall positive_price s ->
       @checkInPeriod_runs go_amd64 c s = Ok (r, heldShares, infos) ->
       float_floor (float64_of_int (capital c) / price_at s 0)
       = Some heldShares).
Proof.
  intros Hclaim. destruct tiny_price_runs as (Hruns & Hfloor).
  specialize (Hclaim tiny_price_config tiny_price_series na MinInt64 []).
  rewrite Hfloor in Hclaim.
  assert (Some (2 ^ 100) = Some MinInt64) as E; [|discriminate E].
  apply Hclaim; try exact Hruns.
  - unfold valid_config, config_typed, in_int. vm_compute.
    repeat split; discriminate.
  - repeat constructor.
  - repeat constructor.
Qed.

Lemma share_truncation_witness :
  let q0 := (float64_of_int (capital gap_config) / price_at gap_series 0)%float in
  100 = @int64_of_float go_amd64 q0
  /\ (forall z, float_floor q0 = Some z -> 0 <= z <= MaxInt64 -> 100 = z)
  /\ (forall info, nth_error [gap_first_run; gap_run] 0 = Some info ->
        ri_heldBefore info = 100)
  /\ (forall i prev next,
        nth_error [gap_first_run; gap_run] i = Some prev ->
        nth_error [gap_first_run; gap_run] (S i) = Some next ->
        ri_heldBefore next = ri_heldAfter prev)
  /\ (forall info, In info [gap_first_run; gap_run] ->
        match ri_sale info with
        | None => ri_heldAfter info = ri_heldBefore info
        | Some (k, soldShares) =>
            let q := (ri_costOfLiving info / price_at gap_series k)%float in
            soldShares = @int64_of_float go_amd64 q
            /\ (forall z, float_floor q = Some z -> 0 <= z <= MaxInt64 ->
                  soldShares = z)
            /\ ri_heldAfter info = int_sub (ri_heldBefore info) soldShares
            /\ (in_int (ri_heldBefore info - soldShares) ->
                ri_heldAfter info = ri_heldBefore info - soldShares)
        end).
Proof.
  apply (@share_truncation go_amd64 gap_config gap_series failed 100
           [gap_first_run; gap_run]).
  - discriminate.
  - vm_compute. discriminate.
  - exact gap_runs_go_amd64.
Defined.

(* ===================================================================== *)
(** ** float64 arithmetic: the accuracy of one operation *)

(** ** Binary digits *)

Lemma digits2_pos_bounds (p : positive) :
  2 ^ (Zpos (digits2_pos p) - 1) <= Zpos p < 2 ^ Zpos (digits2_pos p).
Proof.
  induction p as [p IH|p IH|]; cbn [digits2_pos].
  - rewrite Pos2Z.inj_succ. replace (Z.succ (Zpos (digits2_pos p)) - 1)
      with (Z.succ (Zpos (digits2_pos p) - 1)) by lia.
    rewrite !Z.pow_succ_r by lia. lia.
  - rewrite Pos2Z.inj_succ. replace (Z.succ (Zpos (digits2_pos p)) - 1)
      with (Z.succ (Zpos (digits2_pos p) - 1)) by lia.
    rewrite !Z.pow_succ_r by lia. lia.
  - cbn. lia.
Qed.

Lemma Zdigits2_bounds (m : Z) :
  0 < m -> 2 ^ (Zdigits2 m - 1) <= m < 2 ^ Zdigits2 m.
Proof.
  destruct m as [|p|p]; try lia. intros _. apply digits2_pos_bounds.
Qed.

Lemma Zdigits2_nonneg (m : Z) : 0 <= Zdigits2 m.
Proof. destruct m; cbn; lia. Qed.

(** A number below [2 ^ n] has at most [n] digits. *)
Lemma Zdigits2_le (m n : Z) : 0 <= m -> 0 <= n -> m < 2 ^ n -> Zdigits2 m <= n.
Proof.
  intros Hm Hn Hlt. destruct (Z.eq_dec m 0) as [->|Hz]; [cbn; lia|].
  pose proof (Zdigits2_bounds m ltac:(lia)) as [Hlo _].
  destruct (Z_le_gt_dec (Zdigits2 m) n) as [|Hgt]; [assumption|exfalso].
  assert (2 ^ n <= 2 ^ (Zdigits2 m - 1)) by (apply Z.pow_le_mono_r; lia).
  lia.
Qed.

(** A number from [2 ^ n] on has more than [n] digits. *)
Lemma Zdigits2_gt (m n : Z) : 0 <= n -> 2 ^ n <= m -> n < Zdigits2 m.
Proof.
  intros Hn Hle.
  assert (0 < m) by (pose proof (Z.pow_pos_nonneg 2 n); lia).
  pose proof (Zdigits2_bounds m ltac:(lia)) as [_ Hhi].
  destruct (Z_lt_ge_dec n (Zdigits2 m)) as [|Hge]; [assumption|exfalso].
  assert (2 ^ Zdigits2 m <= 2 ^ n)
    by (apply Z.pow_le_mono_r; [lia | pose proof (Zdigits2_nonneg m); lia]).
  lia.
Qed.

(** ** Shifting with a round bit and a sticky bit *)

Lemma shr_1_eq (m : Z) (r s : bool) :
  0 <= m ->
  shr_1 {| shr_m := m; shr_r := r; shr_s := s |}
  = {| shr_m := Z.div2 m; shr_r := Z.odd m; shr_s := orb r s |}.
Proof. destruct m as [|[p|p|]|p]; try lia; reflexivity. Qed.

Lemma shr_1_nonneg (mrs : shr_record) : 0 <= shr_m mrs -> 0 <= shr_m (shr_1 mrs).
Proof.
  destruct mrs as [m r s]. cbn [shr_m]. intros Hm. rewrite shr_1_eq by assumption.
  cbn [shr_m]. apply Z.div2_nonneg. assumption.
Qed.

Lemma bool_true_iff (b : bool) (P : Prop) :
  (b = true <-> P) -> (b = true /\ P) \/ (b = false /\ ~ P).
Proof. destruct b; intros [H1 H2]; [left | right]; split; auto; intros H; discriminate (H2 H). Qed.

Lemma shr_1_located (N D : Z) (mrs : shr_record) :
  0 < D -> 0 <= shr_m mrs -> located N D mrs -> located N (2 * D) (shr_1 mrs).
Proof.
  destruct mrs as [m r s]. unfold located. cbn [shr_m shr_r shr_s].
  intros HD Hm (Hrest & Hr & Hs).
  rewrite shr_1_eq by assumption. cbn [shr_m shr_r shr_s].
  pose proof (Z.div2_odd m) as Hdiv.
  apply bool_true_iff in Hr. apply bool_true_iff in Hs.
  destruct (Z.odd m); cbn [Z.b2z] in Hdiv.
  - split; [lia|]. split; [split; [lia | reflexivity]|].
    destruct Hr as [[-> Hr]|[-> Hr]]; destruct Hs as [[-> Hs]|[-> Hs]];
      cbn [orb]; split; intros; try reflexivity; try discriminate; lia.
  - split; [lia|]. split; [split; [discriminate | lia]|].
    destruct Hr as [[-> Hr]|[-> Hr]]; destruct Hs as [[-> Hs]|[-> Hs]];
      cbn [orb]; split; intros; try reflexivity; try discriminate; lia.
Qed.

Lemma pow2_xO (p : positive) : 2 ^ Zpos p~0 = 2 ^ Zpos p * 2 ^ Zpos p.
Proof.
  replace (Zpos p~0) with (Zpos p + Zpos p) by lia.
  apply Z.pow_add_r; lia.
Qed.

Lemma pow2_xI (p : positive) : 2 ^ Zpos p~1 = 2 * (2 ^ Zpos p * 2 ^ Zpos p).
Proof.
  replace (Zpos p~1) with (1 + (Zpos p + Zpos p)) by lia.
  rewrite !Z.pow_add_r by lia. reflexivity.
Qed.

Lemma iter_pos_shr_1 (p : positive) :
  forall N D mrs, 0 < D -> 0 <= shr_m mrs -> located N D mrs ->
    located N (D * 2 ^ Zpos p) (iter_pos shr_1 p mrs)
    /\ 0 <= shr_m (iter_pos shr_1 p mrs).
Proof.
  induction p as [p IH|p IH|]; intros N D mrs HD Hm Hloc; cbn [iter_pos].
  - pose proof (shr_1_located N D mrs HD Hm Hloc) as H1.
    pose proof (shr_1_nonneg mrs Hm) as Hm1.
    assert (Hp : 0 < 2 ^ Zpos p) by (apply Z.pow_pos_nonneg; lia).
    destruct (IH N (2 * D) _ ltac:(lia) Hm1 H1) as [H2 Hm2].
    destruct (IH N (2 * D * 2 ^ Zpos p) _ ltac:(nia) Hm2 H2) as [H3 Hm3].
    split; [|exact Hm3].
    replace (D * 2 ^ Zpos p~1) with (2 * D * 2 ^ Zpos p * 2 ^ Zpos p); [exact H3|].
    rewrite pow2_xI. ring.
  - assert (Hp : 0 < 2 ^ Zpos p) by (apply Z.pow_pos_nonneg; lia).
    destruct (IH N D _ HD Hm Hloc) as [H2 Hm2].
    destruct (IH N (D * 2 ^ Zpos p) _ ltac:(nia) Hm2 H2) as [H3 Hm3].
    split; [|exact Hm3].
    replace (D * 2 ^ Zpos p~0) with (D * 2 ^ Zpos p * 2 ^ Zpos p); [exact H3|].
    rewrite pow2_xO. ring.
  - split; [|now apply shr_1_nonneg].
    replace (D * 2 ^ 1) with (2 * D) by (change (2 ^ 1) with 2; ring).
    now apply shr_1_located.
Qed.

(** [shr mrs e n] divides by [2 ^ n] when [n] is positive. *)
Lemma shr_located (N D : Z) (mrs : shr_record) (e n : Z) :
  0 < D -> 0 <= shr_m mrs -> located N D mrs ->
  let k := Z.max 0 n in
  snd (shr mrs e n) = e + k
  /\ located N (D * 2 ^ k) (fst (shr mrs e n))
  /\ 0 <= shr_m (fst (shr mrs e n)).
Proof.
  intros HD Hm Hloc. cbv zeta. unfold shr. destruct n as [|p|p]; cbn [fst snd].
  - rewrite Z.max_l by lia. rewrite Z.pow_0_r, Z.mul_1_r, Z.add_0_r. auto.
  - rewrite Z.max_r by lia. split; [reflexivity|]. now apply iter_pos_shr_1.
  - rewrite Z.max_l by lia. rewrite Z.pow_0_r, Z.mul_1_r, Z.add_0_r. auto.
Qed.

(** ** Rounding to nearest *)

Lemma located_of_loc_exact (m : Z) : located m 1 (shr_record_of_loc m loc_Exact).
Proof.
  unfold located. cbn [shr_record_of_loc shr_m shr_r shr_s].
  split; [lia|]. split; split; intros; try discriminate; lia.
Qed.

(** The mantissa chosen by [round_nearest_even] is an integer nearest to
    the located fraction. *)
Lemma round_nearest_even_located (N D : Z) (mrs : shr_record) :
  0 < D -> located N D mrs ->
  let m := round_nearest_even (shr_m mrs) (loc_of_shr_record mrs) in
  2 * Z.abs (m * D - N) <= D /\ shr_m mrs <= m <= shr_m mrs + 1
  /\ (N = shr_m mrs * D -> m = shr_m mrs).
Proof.
  destruct mrs as [m r s]. unfold located. cbn [shr_m shr_r shr_s].
  intros HD (Hrest & Hr & Hs). cbv zeta.
  apply bool_true_iff in Hr. apply bool_true_iff in Hs.
  destruct Hr as [[-> Hr]|[-> Hr]]; destruct Hs as [[-> Hs]|[-> Hs]];
    cbn [loc_of_shr_record round_nearest_even]; try (destruct (Z.even m)); lia.
Qed.

(** ** binary_round_aux on binary64 *)

Lemma fexp64 (e : Z) : fexp prec emax e = Z.max (e - 53) (-1074).
Proof. reflexivity. Qed.

(** What [binary_round_aux] makes of the mantissa [mx] at exponent [ex]
    with the rest located by [lx]: a mantissa [m] below [2 ^ 53], [k]
    binary places up, nearest to the exact value [N / D * 2 ^ ex]. *)
Lemma binary_round_aux_spec (sx : bool) (mx ex : Z) (lx : location) (N D : Z) :
  0 < D -> 0 <= mx -> located N D (shr_record_of_loc mx lx) ->
  exists m k,
    0 <= m < 2 ^ 53 /\ 0 <= k
    /\ -1074 <= ex + k
    /\ (let k1 := Z.max 0 (Z.max (Zdigits2 mx + ex - 53) (-1074) - ex) in
        (k = k1 /\ (D * 2 ^ k1 <= N -> 0 < m))
        \/ (k = k1 + 1 /\ m = 2 ^ 52))
    /\ 2 * Z.abs (m * 2 ^ k * D - N) <= 2 ^ k * D
    /\ (N = mx * D -> Z.max (Zdigits2 mx + ex - 53) (-1074) <= ex ->
        m = mx /\ k = 0)
    /\ binary_round_aux prec emax sx mx ex lx
       = match m with
         | Z0 => S754_zero sx
         | Zpos p => if ex + k <=? emax - prec then S754_finite sx p (ex + k)
                     else S754_infinity sx
         | Zneg _ => S754_nan
         end.
Proof.
  intros HD Hmx Hloc.
  unfold binary_round_aux, shr_fexp. rewrite !fexp64.
  set (n1 := Z.max (Zdigits2 mx + ex - 53) (-1074) - ex).
  assert (Hmx0 : 0 <= shr_m (shr_record_of_loc mx lx))
    by (destruct lx as [|[]]; exact Hmx).
  destruct (shr_located N D _ ex n1 HD Hmx0 Hloc) as (He1 & Hloc1 & Hm1).
  destruct (shr (shr_record_of_loc mx lx) ex n1) as [mrs1 e1].
  cbn [fst snd] in He1, Hloc1, Hm1. cbv beta iota.
  set (k1 := Z.max 0 n1) in *.
  assert (Hk1 : 0 <= k1) by (unfold k1; lia).
  assert (Hp1 : 0 < 2 ^ k1) by (apply Z.pow_pos_nonneg; lia).
  assert (HD1 : 0 < D * 2 ^ k1) by nia.
  destruct (round_nearest_even_located N (D * 2 ^ k1) mrs1 HD1 Hloc1)
    as (Hnear & Hbetween & Hexact).
  set (m1 := shr_m mrs1) in *.
  set (mx' := round_nearest_even m1 (loc_of_shr_record mrs1)) in *.
  (* the shifted mantissa has at most 53 digits *)
  assert (Hm1lt : m1 < 2 ^ 53).
  { assert (Hle : m1 * 2 ^ k1 <= mx).
    { destruct Hloc1 as (Hr1 & _). fold m1 in Hr1.
      assert (Hinit : N < (mx + 1) * D).
      { destruct Hloc as (Hr0 & _).
        replace (shr_m (shr_record_of_loc mx lx)) with mx in Hr0
          by (destruct lx as [|[]]; reflexivity). lia. }
      assert (m1 * 2 ^ k1 * D < (mx + 1) * D) by lia.
      assert (m1 * 2 ^ k1 < mx + 1) by nia. lia. }
    destruct (Z.eq_dec mx 0) as [E0|Hne].
    { assert (m1 = 0) by nia. pose proof (Z.pow_pos_nonneg 2 53). lia. }
    pose proof (Zdigits2_bounds mx ltac:(lia)) as [_ Hhi].
    pose proof (Zdigits2_nonneg mx) as Hd.
    assert (Hdk : Zdigits2 mx <= 53 + k1) by (unfold k1, n1; lia).
    assert (2 ^ Zdigits2 mx <= 2 ^ (53 + k1)) by (apply Z.pow_le_mono_r; lia).
    rewrite Z.pow_add_r in * by lia.
    assert (m1 * 2 ^ k1 < 2 ^ 53 * 2 ^ k1) by lia. nia. }
  assert (He1min : -1074 <= e1) by (rewrite He1; unfold k1, n1; lia).
  assert (Hmx'ge : 0 <= mx') by lia.
  set (n2 := Z.max (Zdigits2 mx' + e1 - 53) (-1074) - e1).
  change (fexp prec emax (Zdigits2 mx' + e1) - e1) with n2.
  destruct (Z_lt_le_dec mx' (2 ^ 53)) as [Hlt|Hcarry].
  - (* no carry: the second shift does nothing *)
    assert (Hn2 : n2 <= 0).
    { pose proof (Zdigits2_le mx' 53 Hmx'ge ltac:(lia) Hlt). unfold n2. lia. }
    assert (Hshr : shr (shr_record_of_loc mx' loc_Exact) e1 n2
                   = (shr_record_of_loc mx' loc_Exact, e1)).
    { unfold shr. destruct n2; try lia; reflexivity. }
    rewrite Hshr. cbn [shr_record_of_loc shr_m].
    exists mx', k1. rewrite <- He1.
    split; [lia|]. split; [lia|]. split; [lia|]. split.
    { left. split; [reflexivity|]. fold n1. fold k1. intros Hbig.
      destruct Hloc1 as (Hr1 & _). fold m1 in Hr1.
      assert (0 < m1); [|lia]. nia. }
    split.
    { replace (mx' * 2 ^ k1 * D) with (mx' * (D * 2 ^ k1)) by ring.
      replace (2 ^ k1 * D) with (D * 2 ^ k1) by ring. exact Hnear. }
    split.
    { intros HN Hnoshift. assert (Ek : k1 = 0) by (unfold k1, n1; lia).
      split; [|exact Ek].
      assert (Em1 : m1 = mx).
      { destruct Hloc1 as (Hr1 & _). fold m1 in Hr1. rewrite Ek in Hr1.
        rewrite Z.pow_0_r, Z.mul_1_r in Hr1. nia. }
      rewrite <- Em1. apply Hexact. rewrite Ek, Z.pow_0_r, Z.mul_1_r. 
      rewrite Em1. exact HN. }
    destruct mx'; reflexivity.
  - (* carry: the rounded mantissa is 2^53 and is shifted once more *)
    assert (Emx' : mx' = 2 ^ 53) by lia.
    assert (Hn2 : n2 = 1).
    { unfold n2. rewrite Emx'. change (Zdigits2 (2 ^ 53)) with 54. lia. }
    rewrite Hn2, Emx'. cbn [shr_record_of_loc shr iter_pos].
    change (shr_m (shr_1 {| shr_m := 2 ^ 53; shr_r := false; shr_s := false |}))
      with (2 ^ 52).
    exists (2 ^ 52), (k1 + 1).
    split; [split; [apply Z.pow_nonneg; lia | apply Z.pow_lt_mono_r; lia]|].
    split; [lia|]. split; [lia|]. split; [right; split; reflexivity|].
    split.
    { rewrite Z.pow_add_r by lia. change (2 ^ 1) with 2.
      replace (2 ^ 52 * (2 ^ k1 * 2) * D) with (2 ^ 53 * (D * 2 ^ k1))
        by (change (2 ^ 53) with (2 ^ 52 * 2); ring).
      rewrite <- Emx'. nia. }
    split.
    { intros HN Hnoshift. exfalso.
      assert (Ek : k1 = 0) by (unfold k1, n1; lia).
      assert (Em1 : m1 = mx).
      { destruct Hloc1 as (Hr1 & _). fold m1 in Hr1. rewrite Ek in Hr1.
        rewrite Z.pow_0_r, Z.mul_1_r in Hr1. nia. }
      assert (mx' = m1).
      { apply Hexact. rewrite Ek, Z.pow_0_r, Z.mul_1_r. rewrite Em1. exact HN. }
      lia. }
    replace (ex + (k1 + 1)) with (e1 + 1) by lia. reflexivity.
Qed.

(** ** Values *)

Lemma pow2_pos (e : Z) : (0 < pow2 e)%R.
Proof. apply powerRZ_lt. lra. Qed.

Lemma pow2_add (a b : Z) : pow2 (a + b) = (pow2 a * pow2 b)%R.
Proof. apply powerRZ_add. lra. Qed.

Lemma pow2_0 : pow2 0 = 1%R.
Proof. reflexivity. Qed.

Lemma pow2_1 : pow2 1 = 2%R.
Proof. unfold pow2. simpl. lra. Qed.

Lemma pow2_IZR (k : Z) : 0 <= k -> IZR (2 ^ k) = pow2 k.
Proof.
  intros Hk. pattern k. apply natlike_ind; [reflexivity| |exact Hk].
  intros x Hx IH. rewrite Z.pow_succ_r by lia. rewrite mult_IZR, IH.
  unfold Z.succ. rewrite pow2_add, pow2_1. ring.
Qed.

Lemma pow2_le (a b : Z) : a <= b -> (pow2 a <= pow2 b)%R.
Proof.
  intros Hab. replace b with (a + (b - a)) by lia. rewrite pow2_add.
  rewrite <- (pow2_IZR (b - a)) by lia.
  assert (1 <= 2 ^ (b - a)) by (pose proof (Z.pow_pos_nonneg 2 (b - a)); lia).
  assert (1 <= IZR (2 ^ (b - a)))%R by (apply IZR_le; assumption).
  pose proof (pow2_pos a). nra.
Qed.

Lemma pow2_lt (a b : Z) : a < b -> (pow2 a < pow2 b)%R.
Proof.
  intros Hab. replace b with (a + 1 + (b - a - 1)) by lia.
  rewrite !pow2_add, pow2_1.
  pose proof (pow2_le 0 (b - a - 1) ltac:(lia)) as H. rewrite pow2_0 in H.
  pose proof (pow2_pos a). nra.
Qed.

Lemma Rabs_le_inv (x y : R) : (Rabs x <= y -> - y <= x <= y)%R.
Proof. unfold Rabs. destruct (Rcase_abs x); lra. Qed.

(** The integer statement of "nearest", read on the reals. *)
Lemma nearest_real (m k N D ex : Z) :
  0 < D -> 0 <= k ->
  2 * Z.abs (m * 2 ^ k * D - N) <= 2 ^ k * D ->
  (Rabs (IZR m * pow2 (ex + k) - IZR N / IZR D * pow2 ex)
   <= pow2 (ex + k) / 2)%R.
Proof.
  intros HD Hk H.
  assert (HDr : (0 < IZR D)%R) by (apply IZR_lt; assumption).
  apply IZR_le in H. rewrite !mult_IZR, abs_IZR, minus_IZR, !mult_IZR in H.
  rewrite pow2_IZR in H by assumption.
  rewrite pow2_add. pose proof (pow2_pos ex) as Hex. pose proof (pow2_pos k) as Hkp.
  replace (IZR m * (pow2 ex * pow2 k) - IZR N / IZR D * pow2 ex)%R
    with ((IZR m * pow2 k * IZR D - IZR N) * (pow2 ex / IZR D))%R
    by (field; lra).
  rewrite Rabs_mult.
  assert (Hq : (0 < pow2 ex / IZR D)%R) by (apply Rdiv_lt_0_compat; assumption).
  rewrite (Rabs_pos_eq (pow2 ex / IZR D)) by lra.
  replace (pow2 ex * pow2 k / 2)%R
    with ((pow2 k * IZR D / 2) * (pow2 ex / IZR D))%R by (field; lra).
  apply Rmult_le_compat_r; lra.
Qed.

(** ** Canonical binary64 numbers *)

(** A valid finite binary64: a mantissa below [2 ^ 53], an exponent from
    -1074 to 971, and either the least exponent (subnormal) or a full
    mantissa (normal). *)
Lemma valid_finite (s : bool) (m : positive) (e : Z) :
  valid_binary (S754_finite s m e) = true ->
  -1074 <= e <= 971 /\ Zpos m < 2 ^ 53 /\ (e = -1074 \/ 2 ^ 52 <= Zpos m).
Proof.
  cbn [valid_binary]. unfold bounded, canonical_mantissa.
  rewrite andb_true_iff, Z.eqb_eq, Z.leb_le, fexp64.
  change (emax - prec) with 971. intros [Hc He].
  pose proof (digits2_pos_bounds m) as [Hlo Hhi].
  assert (Hd : Zpos (digits2_pos m) <= 53) by lia.
  split; [lia|]. split.
  - assert (2 ^ Zpos (digits2_pos m) <= 2 ^ 53) by (apply Z.pow_le_mono_r; lia).
    lia.
  - destruct (Z.eq_dec e (-1074)) as [|Hne]; [now left | right].
    assert (Zpos (digits2_pos m) = 53) by lia.
    replace (Zpos (digits2_pos m) - 1) with 52 in Hlo by lia. exact Hlo.
Qed.

Lemma IZR_pos_pos (m : positive) : (1 <= IZR (Zpos m))%R.
Proof. apply IZR_le. lia. Qed.

(** A positive normal or subnormal number is at least [2 ^ -1074]. *)
Lemma SF2R_finite_pos (m : positive) (e : Z) :
  (0 < SF2R (S754_finite false m e))%R.
Proof.
  cbn [SF2R]. pose proof (IZR_pos_pos m). pose proof (pow2_pos e). nra.
Qed.

(** On canonical numbers the order of the values is the order of the
    exponents, then of the mantissas. *)
Lemma canonical_lt_exp (m1 m2 : positive) (e1 e2 : Z) :
  valid_binary (S754_finite false m1 e1) = true ->
  valid_binary (S754_finite false m2 e2) = true ->
  e1 < e2 ->
  (IZR (Zpos m1) * pow2 e1 < IZR (Zpos m2) * pow2 e2)%R.
Proof.
  intros H1 H2 He.
  destruct (valid_finite _ _ _ H1) as (He1 & Hm1 & _).
  destruct (valid_finite _ _ _ H2) as (He2 & _ & [E|Hm2]); [lia|].
  apply IZR_lt in Hm1. apply IZR_le in Hm2.
  rewrite pow2_IZR in Hm1, Hm2 by lia.
  replace e2 with (e1 + 1 + (e2 - e1 - 1)) by lia. rewrite !pow2_add, pow2_1.
  pose proof (pow2_le 0 (e2 - e1 - 1) ltac:(lia)) as Hk. rewrite pow2_0 in Hk.
  pose proof (pow2_pos e1).
  replace 53 with (52 + 1) in Hm1 by lia. rewrite pow2_add, pow2_1 in Hm1.
  pose proof (pow2_pos 52).
  assert (IZR (Zpos m1) * pow2 e1 < pow2 52 * 2 * pow2 e1)%R by nra.
  assert (pow2 52 * (pow2 e1 * 2 * pow2 (e2 - e1 - 1))
          <= IZR (Zpos m2) * (pow2 e1 * 2 * pow2 (e2 - e1 - 1)))%R.
  { apply Rmult_le_compat_r; [|lra].
    pose proof (pow2_pos (e2 - e1 - 1)). nra. }
  assert (0 <= pow2 52 * pow2 e1 * (pow2 (e2 - e1 - 1) - 1))%R.
  { apply Rmult_le_pos; [|lra]. apply Rmult_le_pos; lra. }
  lra.
Qed.

Lemma Pos_compare_cont_Eq (a b : positive) :
  Pos.compare_cont Eq a b = (Zpos a ?= Zpos b).
Proof. reflexivity. Qed.

Lemma SFleb_finite_le (m1 m2 : positive) (e1 e2 : Z) :
  valid_binary (S754_finite false m1 e1) = true ->
  valid_binary (S754_finite false m2 e2) = true ->
  SFleb (S754_finite false m1 e1) (S754_finite false m2 e2) = true ->
  (SF2R (S754_finite false m1 e1) <= SF2R (S754_finite false m2 e2))%R.
Proof.
  intros H1 H2. unfold SFleb, SFcompare. cbn [SF2R]. rewrite !Rmult_1_l.
  destruct (Z.compare_spec e1 e2) as [E|Hlt|Hgt].
  - subst e2. rewrite Pos_compare_cont_Eq.
    destruct (Z.compare_spec (Zpos m1) (Zpos m2)) as [E|Hlt|Hgt];
      try discriminate; intros _.
    + rewrite E. lra.
    + apply IZR_lt in Hlt. pose proof (pow2_pos e1). nra.
  - intros _. apply Rlt_le. now apply canonical_lt_exp.
  - discriminate.
Qed.

(** The converse on the exponents: a smaller value has no larger
    exponent. *)
Lemma canonical_le_exp (m1 m2 : positive) (e1 e2 : Z) :
  valid_binary (S754_finite false m1 e1) = true ->
  valid_binary (S754_finite false m2 e2) = true ->
  (IZR (Zpos m1) * pow2 e1 < IZR (Zpos m2) * pow2 e2)%R ->
  e1 <= e2.
Proof.
  intros H1 H2 Hlt. destruct (Z_le_gt_dec e1 e2) as [|Hgt]; [assumption|].
  pose proof (canonical_lt_exp m2 m1 e2 e1 H2 H1 ltac:(lia)). lra.
Qed.

(** ** The operations *)

Lemma rounds_to_not_negative (V : R) (r : spec_float) :
  rounds_to V r -> not_negative r.
Proof.
  intros (m & e & _ & _ & ->). destruct m as [|p|p]; [exact I| |exact I].
  destruct (e <=? 971); reflexivity.
Qed.

Lemma rounds_to_finite (V : R) (s : bool) (m : positive) (e : Z) :
  rounds_to V (S754_finite s m e) ->
  s = false /\ (Rabs (IZR (Zpos m) * pow2 e - V) <= pow2 e / 2)%R.
Proof.
  intros (m' & e' & _ & Hacc & Hr). destruct m' as [|p|p]; try discriminate.
  destruct (e' <=? 971); [|discriminate]. inversion Hr; subst. auto.
Qed.

(** A rounding that overflows comes from a value of at least [2 ^ 971]. *)
Lemma rounds_to_infinity (V : R) (s : bool) :
  rounds_to V (S754_infinity s) -> (pow2 971 <= V)%R.
Proof.
  intros (m & e & _ & Hacc & Hr). destruct m as [|p|p]; try discriminate.
  destruct (Z.leb_spec e 971) as [|He]; [discriminate|].
  apply Rabs_le_inv in Hacc. pose proof (IZR_pos_pos p).
  pose proof (pow2_le 972 e ltac:(lia)) as Hle.
  replace 972 with (971 + 1) in Hle by lia. rewrite pow2_add, pow2_1 in Hle.
  pose proof (pow2_pos 971). pose proof (pow2_pos e). nra.
Qed.

(** What a rounding of a positive exact value returns, and how far from
    it. *)
Lemma round_positive (mx ex : Z) (lx : location) (N D : Z) :
  0 < D -> 0 <= mx -> located N D (shr_record_of_loc mx lx) ->
  let r := binary_round_aux prec emax false mx ex lx in
  rounds_to (IZR N / IZR D * pow2 ex) r
  /\ (D * 2 ^ Z.max 0 (Z.max (Zdigits2 mx + ex - 53) (-1074) - ex) <= N ->
      forall s, r <> S754_zero s)
  /\ (N = mx * D -> Z.max (Zdigits2 mx + ex - 53) (-1074) <= ex ->
      forall p, mx = Zpos p -> ex <= 971 -> r = S754_finite false p ex).
Proof.
  intros HD Hmx Hloc r.
  destruct (binary_round_aux_spec false mx ex lx N D HD Hmx Hloc)
    as (m & k & Hm & Hk & Hmin & Hk1 & Hnear & Hexact & Hr).
  fold r in Hr. change (emax - prec) with 971 in Hr. split; [|split].
  - exists m, (ex + k). split; [lia|].
    split; [now apply nearest_real | exact Hr].
  - intros Hbig s Hz. rewrite Hr in Hz. cbv zeta in Hk1.
    destruct Hk1 as [[_ Hpos]|[_ Hm52]].
    + specialize (Hpos Hbig). destruct m as [|p|p]; try lia.
      destruct (ex + k <=? 971); discriminate.
    + rewrite Hm52 in Hz. change (2 ^ 52) with (Zpos (2 ^ 52)) in Hz.
      cbv iota in Hz. destruct (ex + k <=? 971); discriminate.
  - intros HN Hshift p Hp Hex. destruct (Hexact HN Hshift) as [-> ->].
    rewrite Hr, Hp. rewrite Z.add_0_r.
    destruct (Z.leb_spec ex 971) as [|Hgt]; [reflexivity | lia].
Qed.

Lemma SFmul_accuracy (mx my : positive) (ex ey : Z) :
  rounds_to (SF2R (S754_finite false mx ex) * SF2R (S754_finite false my ey))
            (SFmul prec emax (S754_finite false mx ex)
                             (S754_finite false my ey)).
Proof.
  cbn [SFmul xorb].
  destruct (round_positive (Zpos (mx * my)) (ex + ey) loc_Exact
              (Zpos (mx * my)) 1 ltac:(lia) ltac:(lia)
              (located_of_loc_exact _)) as (Hround & _).
  cbn [SF2R].
  replace (1 * IZR (Zpos mx) * pow2 ex * (1 * IZR (Zpos my) * pow2 ey))%R
    with (IZR (Zpos (mx * my)) / 1 * pow2 (ex + ey))%R; [exact Hround|].
  rewrite Pos2Z.inj_mul, mult_IZR, pow2_add. field.
Qed.

(** *** Division *)

Lemma new_location_located (nb k q : Z) :
  0 < nb -> 0 <= k < nb ->
  located (q * nb + k) nb (shr_record_of_loc q (new_location nb k)).
Proof.
  intros Hnb Hk. unfold located.
  replace (shr_m (shr_record_of_loc q (new_location nb k))) with q
    by (destruct (new_location nb k) as [|[]]; reflexivity).
  replace (q * nb + k - q * nb) with k by ring.
  split; [exact Hk|].
  unfold new_location, new_location_even, new_location_odd.
  destruct (Z.even nb) eqn:Heven.
  - destruct (Z.eqb_spec k 0) as [->|Hk0].
    + cbn [Z.eqb shr_record_of_loc shr_r shr_s]. split; split; intros; try discriminate; lia.
    + destruct (Z.compare_spec (2 * k) nb); cbn [shr_record_of_loc shr_r shr_s];
        split; split; intros; try discriminate; try reflexivity; lia.
  - assert (Hodd : Z.odd nb = true) by (rewrite <- Z.negb_even, Heven; reflexivity).
    apply Z.odd_spec in Hodd. destruct Hodd as [c Hc].
    destruct (Z.eqb_spec k 0) as [->|Hk0].
    + cbn [Z.eqb shr_record_of_loc shr_r shr_s]. split; split; intros; try discriminate; lia.
    + destruct (Z.compare_spec (2 * k + 1) nb); cbn [shr_record_of_loc shr_r shr_s];
        split; split; intros; try discriminate; try reflexivity; lia.
Qed.

Lemma SFdiv_accuracy (mx my : positive) (ex ey : Z) :
  rounds_to (SF2R (S754_finite false mx ex) / SF2R (S754_finite false my ey))
            (SFdiv prec emax (S754_finite false mx ex)
                             (S754_finite false my ey)).
Proof.
  cbn [SFdiv xorb]. unfold SFdiv_core_binary.
  set (e' := Z.min (fexp prec emax (Zdigits2 (Zpos mx) + ex
                                    - (Zdigits2 (Zpos my) + ey))) (ex - ey)).
  set (sh := ex - ey - e').
  assert (Hsh : 0 <= sh) by (unfold sh, e'; lia).
  assert (Esh : ex = sh + e' + ey) by (unfold sh; lia).
  clearbody sh.
  set (m' := match sh with
             | 0 => Zpos mx
             | Zpos _ => Z.shiftl (Zpos mx) sh
             | Zneg _ => 0
             end).
  assert (Hm' : m' = Zpos mx * 2 ^ sh).
  { unfold m'. destruct sh as [|p|p]; [lia | | lia].
    apply Z.shiftl_mul_pow2. lia. }
  pose proof (Z_div_mod m' (Zpos my) ltac:(lia)) as Hdiv.
  destruct (Z.div_eucl m' (Zpos my)) as [q rem]. destruct Hdiv as [Hq Hrem].
  assert (Hp : 0 < 2 ^ sh) by (apply Z.pow_pos_nonneg; lia).
  assert (Hqge : 0 <= q) by nia.
  pose proof (new_location_located (Zpos my) rem q ltac:(lia) Hrem) as Hloc.
  replace (q * Zpos my + rem) with m' in Hloc by lia.
  destruct (round_positive q e' (new_location (Zpos my) rem) m' (Zpos my)
              ltac:(lia) Hqge Hloc) as (Hround & _).
  cbn [SF2R].
  replace (1 * IZR (Zpos mx) * pow2 ex / (1 * IZR (Zpos my) * pow2 ey))%R
    with (IZR m' / IZR (Zpos my) * pow2 e')%R; [exact Hround|].
  rewrite Hm', mult_IZR, pow2_IZR by assumption.
  rewrite Esh. rewrite !pow2_add. pose proof (pow2_pos ey).
  pose proof (IZR_pos_pos my). field. split; lra.
Qed.

(** *** Normalisation, addition *)

Lemma iter_xO_pow (m d : positive) :
  Zpos (Pos.iter xO m d) = Zpos m * 2 ^ Zpos d.
Proof.
  induction d as [|d IH] using Pos.peano_ind.
  - cbn [Pos.iter]. change (2 ^ 1) with 2. lia.
  - rewrite Pos.iter_succ, Pos2Z.inj_xO, IH, Pos2Z.inj_succ, Z.pow_succ_r by lia.
    lia.
Qed.

Lemma shl_align_spec (mx : positive) (ex ex' : Z) :
  snd (shl_align mx ex ex') = Z.min ex ex'
  /\ Zpos (fst (shl_align mx ex ex'))
     = Zpos mx * 2 ^ (ex - snd (shl_align mx ex ex')).
Proof.
  unfold shl_align. destruct (ex' - ex) as [|d|d] eqn:E; cbn [fst snd].
  - split; [lia|]. rewrite Z.sub_diag. change (2 ^ 0) with 1. lia.
  - split; [lia|]. rewrite Z.sub_diag. change (2 ^ 0) with 1. lia.
  - split; [lia|]. rewrite iter_xO_pow. f_equal. f_equal. lia.
Qed.

(** [binary_round] of a positive mantissa: nearest to [mx * 2 ^ ex], not
    zero when [ex] is an exponent of the format, and [mx * 2 ^ ex] itself
    when that is a binary64. *)
Lemma binary_round_positive (mx : positive) (ex : Z) :
  let r := binary_round prec emax false mx ex in
  rounds_to (IZR (Zpos mx) * pow2 ex) r
  /\ (-1074 <= ex -> forall s, r <> S754_zero s)
  /\ (Zpos mx < 2 ^ 53 -> -1074 <= ex <= 971 ->
      exists m e, r = S754_finite false m e
        /\ (IZR (Zpos m) * pow2 e = IZR (Zpos mx) * pow2 ex)%R).
Proof.
  cbv zeta. unfold binary_round. rewrite fexp64.
  destruct (shl_align_spec mx ex (Z.max (Zpos (digits2_pos mx) + ex - 53) (-1074)))
    as [He Hm].
  destruct (shl_align mx ex _) as [mz ez]. cbn [fst snd] in He, Hm.
  assert (Hsh : 0 <= ex - ez) by lia.
  assert (Hp : 0 < 2 ^ (ex - ez)) by (apply Z.pow_pos_nonneg; lia).
  destruct (round_positive (Zpos mz) ez loc_Exact (Zpos mz) 1 ltac:(lia)
              ltac:(lia) (located_of_loc_exact _))
    as (Hround & Hnz & Hexact).
  assert (Hval : (IZR (Zpos mz) * pow2 ez = IZR (Zpos mx) * pow2 ex)%R).
  { rewrite Hm, mult_IZR, pow2_IZR by lia.
    replace ex with (ex - ez + ez) at 2 by lia. rewrite pow2_add. ring. }
  (* the digits of the aligned mantissa *)
  pose proof (digits2_pos_bounds mx) as [Hdlo Hdhi].
  set (d := Zpos (digits2_pos mx)) in *.
  assert (Hdz : Zdigits2 (Zpos mz) = d + (ex - ez)).
  { assert (Hlo : 2 ^ (d - 1 + (ex - ez)) <= Zpos mz)
      by (rewrite Z.pow_add_r by lia; nia).
    assert (Hhi : Zpos mz < 2 ^ (d + (ex - ez)))
      by (rewrite Z.pow_add_r by lia; nia).
    pose proof (Zdigits2_le (Zpos mz) (d + (ex - ez)) ltac:(lia) ltac:(lia) Hhi).
    pose proof (Zdigits2_gt (Zpos mz) (d - 1 + (ex - ez)) ltac:(lia) Hlo).
    lia. }
  split; [|split].
  - rewrite <- Hval.
    replace (IZR (Zpos mz) * pow2 ez)%R
      with (IZR (Zpos mz) / 1 * pow2 ez)%R by field. exact Hround.
  - intros Hex. apply Hnz. rewrite Hdz, Z.mul_1_l.
    set (k1 := Z.max 0 (Z.max (d + (ex - ez) + ez - 53) (-1074) - ez)).
    destruct (Z.eq_dec k1 0) as [->|Hk1]; [change (2 ^ 0) with 1; lia|].
    destruct (Z_le_gt_dec (-1074) (d + (ex - ez) + ez - 53)) as [Hn|Hs].
    + (* the mantissa is longer than 53 digits *)
      assert (k1 = d + (ex - ez) - 53) by (unfold k1 in *; lia).
      assert (2 ^ k1 <= 2 ^ (d - 1 + (ex - ez)))
        by (apply Z.pow_le_mono_r; lia).
      rewrite Z.pow_add_r in * by lia. nia.
    + (* the exponent is the least one *)
      exfalso. unfold k1 in Hk1. lia.
  - intros Hmx Hex.
    assert (Hd53 : d <= 53).
    { unfold d. apply (Zdigits2_le (Zpos mx) 53); lia. }
    exists mz, ez. split; [|exact Hval].
    apply (Hexact ltac:(lia) ltac:(rewrite Hdz; lia) mz eq_refl ltac:(lia)).
Qed.

(** The sum of two positive binary64 numbers is not below the second
    one. *)
Lemma SFadd_lower (mx my : positive) (ex ey : Z) :
  valid_binary (S754_finite false mx ex) = true ->
  valid_binary (S754_finite false my ey) = true ->
  let r := SFadd prec emax (S754_finite false mx ex) (S754_finite false my ey) in
  not_negative r
  /\ (forall s, r <> S754_zero s)
  /\ (forall s m e, r = S754_finite s m e -> valid_binary r = true ->
        s = false
        /\ (SF2R (S754_finite false my ey) <= SF2R r)%R).
Proof.
  intros Hvx Hvy. cbv zeta. cbn [SFadd cond_Zopp].
  destruct (valid_finite _ _ _ Hvx) as (Hex & _ & _).
  destruct (valid_finite _ _ _ Hvy) as (Hey & _ & _).
  set (ez := Z.min ex ey).
  destruct (shl_align_spec mx ex ez) as [Hxe Hxm].
  destruct (shl_align_spec my ey ez) as [Hye Hym].
  rewrite Hxe in Hxm. rewrite Hye in Hym.
  replace (Z.min ex ez) with ez in Hxm by (unfold ez; lia).
  replace (Z.min ey ez) with ez in Hym by (unfold ez; lia).
  set (ax := fst (shl_align mx ex ez)) in *.
  set (ay := fst (shl_align my ey ez)) in *.
  change (Zpos ax + Zpos ay) with (Zpos (ax + ay)). cbn [binary_normalize].
  destruct (binary_round_positive (ax + ay) ez) as (Hround & Hnz & _).
  split; [exact (rounds_to_not_negative _ _ Hround)|].
  split; [apply Hnz; unfold ez; lia|].
  intros s m e Hr Hvr. rewrite Hr in Hround, Hvr |- *.
  destruct (rounds_to_finite _ _ _ _ Hround) as [-> Hacc].
  split; [reflexivity|]. cbn [SF2R]. rewrite !Rmult_1_l.
  (* the exact sum *)
  assert (Hsum : (IZR (Zpos (ax + ay)) * pow2 ez
                  = IZR (Zpos mx) * pow2 ex + IZR (Zpos my) * pow2 ey)%R).
  { rewrite Pos2Z.inj_add, plus_IZR, Hxm, Hym, !mult_IZR.
    rewrite !pow2_IZR by (unfold ez; lia).
    replace ex with (ex - ez + ez) at 2 by lia.
    replace ey with (ey - ez + ez) at 2 by lia.
    rewrite !pow2_add. ring. }
  rewrite Hsum in Hacc.
  destruct (Rle_or_lt (IZR (Zpos my) * pow2 ey) (IZR (Zpos m) * pow2 e))
    as [|Hlt]; [assumption|exfalso].
  (* a result below [y] is at least one unit of its last place below *)
  pose proof (canonical_le_exp m my e ey Hvr Hvy Hlt) as Hee.
  assert (Hgap : (IZR (Zpos m) * pow2 e + pow2 e <= IZR (Zpos my) * pow2 ey)%R).
  { replace ey with (ey - e + e) in Hlt |- * by lia.
    rewrite pow2_add in Hlt |- *.
    rewrite <- (pow2_IZR (ey - e)) in Hlt |- * by lia.
    rewrite <- Rmult_assoc, <- mult_IZR in Hlt |- *.
    pose proof (pow2_pos e) as Hpe.
    assert (Hz : Zpos m < Zpos my * 2 ^ (ey - e)).
    { apply lt_IZR. nra. }
    assert (Hz' : Zpos m + 1 <= Zpos my * 2 ^ (ey - e)) by lia.
    apply IZR_le in Hz'. rewrite plus_IZR in Hz'. nra. }
  pose proof (pow2_pos e). pose proof (pow2_pos ex). pose proof (IZR_pos_pos mx).
  assert (0 < IZR (Zpos mx) * pow2 ex)%R by nra.
  apply Rabs_le_inv in Hacc. lra.
Qed.

(** ** float64 values of the program *)

Lemma SFmul_not_negative (x y : spec_float) :
  not_negative x -> not_negative y -> not_negative (SFmul prec emax x y).
Proof.
  destruct x as [sx|sx| |sx mx ex]; destruct y as [sy|sy| |sy my ey];
    cbn [not_negative SFmul]; intros Hx Hy; subst; try exact I; try reflexivity.
  exact (rounds_to_not_negative _ _ (SFmul_accuracy mx my ex ey)).
Qed.

Lemma SFdiv_not_negative (x y : spec_float) :
  not_negative x -> is_positive y -> not_negative (SFdiv prec emax x y).
Proof.
  destruct x as [sx|sx| |sx mx ex]; destruct y as [sy|sy| |sy my ey];
    cbn [not_negative is_positive SFdiv]; intros Hx Hy; subst;
    try exact I; try reflexivity; try contradiction.
  exact (rounds_to_not_negative _ _ (SFdiv_accuracy mx my ex ey)).
Qed.

Lemma Prim2SF_zero : Prim2SF 0 = S754_zero false.
Proof. reflexivity. Qed.

(** [0 < f] on float64. *)
Lemma positive_float (f : float) : (0 <? f)%float = true -> is_positive (Prim2SF f).
Proof.
  rewrite FloatAxioms.ltb_spec, Prim2SF_zero. unfold SFltb, SFcompare.
  destruct (Prim2SF f) as [s|s| |s m e]; cbn [is_positive]; try discriminate.
  - destruct s; [discriminate | reflexivity].
  - destruct s; [discriminate | reflexivity].
Qed.

(** [float64(z)] of a nonnegative integer below [2 ^ 63]. *)
Lemma of_nonneg_int (z : Z) :
  0 <= z < 2 ^ 63 ->
  Prim2SF (float64_of_int z) = binary_normalize prec emax z 0 false.
Proof.
  intros Hz. unfold float64_of_int.
  destruct (Z.ltb_spec z 0) as [|_]; [lia|].
  rewrite of_uint63_spec, Uint63.of_Z_spec.
  rewrite Z.mod_small; [reflexivity|]. change wB with (2 ^ 63). lia.
Qed.

Lemma float64_of_int_not_negative (z : Z) :
  0 <= z <= MaxInt64 -> not_negative (Prim2SF (float64_of_int z)).
Proof.
  unfold MaxInt64. intros Hz. rewrite of_nonneg_int by lia.
  destruct z as [|p|p]; [exact I| |lia]. cbn [binary_normalize].
  destruct (binary_round_positive p 0) as (Hround & _).
  exact (rounds_to_not_negative _ _ Hround).
Qed.

(** An integer below [2 ^ 53] is a binary64. *)
Lemma float64_of_int_exact (h : Z) :
  0 <= h < 2 ^ 53 ->
  (h = 0 /\ Prim2SF (float64_of_int h) = S754_zero false)
  \/ (0 < h /\ exists m e,
        Prim2SF (float64_of_int h) = S754_finite false m e
        /\ (IZR (Zpos m) * pow2 e = IZR h)%R).
Proof.
  intros Hh. rewrite of_nonneg_int by (pose proof (Z.pow_lt_mono_r 2 53 63); lia).
  destruct h as [|p|p]; [left; split; reflexivity| |lia].
  right. split; [lia|]. cbn [binary_normalize].
  destruct (binary_round_positive p 0) as (_ & _ & Hexact).
  destruct (Hexact ltac:(lia) ltac:(lia)) as (m & e & Hr & Hval).
  exists m, e. split; [exact Hr|]. rewrite Hval, pow2_0. ring.
Qed.

(** The integer part of a nonnegative binary64. *)
Lemma SFtrunc_not_negative (x : spec_float) (z : Z) :
  not_negative x -> SFtrunc x = Some z -> 0 <= z.
Proof.
  destruct x as [s|s| |s m e]; cbn [not_negative SFtrunc]; try discriminate.
  - intros _ H; inversion H; lia.
  - intros -> H.
    assert (Hz : (if 0 <=? e then Zpos m * 2 ^ e else Zpos m / 2 ^ (- e)) = z)
      by congruence.
    clear H. rewrite <- Hz. destruct (Z.leb_spec 0 e).
    + pose proof (Z.pow_nonneg 2 e ltac:(lia)). nia.
    + apply Z.div_pos; [lia|]. apply Z.pow_pos_nonneg; lia.
Qed.

Lemma SFtrunc_finite (m : positive) (e : Z) :
  exists z, SFtrunc (S754_finite false m e) = Some z
    /\ (IZR z <= SF2R (S754_finite false m e) < IZR z + 1)%R.
Proof.
  cbn [SFtrunc SF2R]. rewrite Rmult_1_l.
  eexists. split; [reflexivity|].
  destruct (Z.leb_spec 0 e) as [He|He].
  - rewrite mult_IZR, pow2_IZR by lia. lra.
  - set (d := 2 ^ (- e)).
    assert (Hd : 0 < d) by (apply Z.pow_pos_nonneg; lia).
    pose proof (Z_div_mod_eq_full (Zpos m) d) as Hdm.
    pose proof (Z.mod_pos_bound (Zpos m) d Hd) as Hmod.
    assert (Hpe : (pow2 e * IZR d = 1)%R).
    { unfold d. rewrite pow2_IZR by lia. rewrite <- pow2_add.
      replace (e + - e) with 0 by lia. apply pow2_0. }
    assert (Hdr : (0 < IZR d)%R) by (apply IZR_lt; assumption).
    pose proof (pow2_pos e) as Hpos.
    assert (Hm : (IZR (Zpos m) = IZR d * IZR (Zpos m / d) + IZR (Zpos m mod d))%R).
    { rewrite <- mult_IZR, <- plus_IZR. f_equal. exact Hdm. }
    assert (H0 : (0 <= IZR (Zpos m mod d))%R) by (apply IZR_le; lia).
    assert (H1 : (IZR (Zpos m mod d) + 1 <= IZR d)%R).
    { rewrite <- plus_IZR. apply IZR_le. lia. }
    rewrite Hm. split.
    + replace (IZR (Zpos m / d))%R
        with (IZR (Zpos m / d) * (pow2 e * IZR d))%R at 1 by (rewrite Hpe; ring).
      nra.
    + replace (IZR (Zpos m / d) + 1)%R
        with ((IZR (Zpos m / d) + 1) * (pow2 e * IZR d))%R by (rewrite Hpe; ring).
      nra.
Qed.

(** ** The error of one rounding *)

Lemma u53_eq : (pow2 53 * u53 = 1)%R.
Proof. unfold u53. pose proof (pow2_pos 53). field. lra. Qed.

Lemma u53_pos : (0 < u53)%R.
Proof. unfold u53. apply Rinv_0_lt_compat. apply pow2_pos. Qed.

(** A normal result is within the relative error [u53] of the value it
    rounds. *)
Lemma rounds_to_normal (V : R) (m : positive) (e : Z) :
  rounds_to V (S754_finite false m e) -> 2 ^ 52 <= Zpos m ->
  let q := SF2R (S754_finite false m e) in
  (q * (1 - u53) <= V <= q * (1 + u53))%R.
Proof.
  intros Hround Hm. cbv zeta. cbn [SF2R]. rewrite Rmult_1_l.
  destruct (rounds_to_finite _ _ _ _ Hround) as [_ Hacc].
  apply Rabs_le_inv in Hacc.
  apply IZR_le in Hm. rewrite pow2_IZR in Hm by lia.
  pose proof (pow2_pos e) as He. pose proof u53_eq as Hu. pose proof u53_pos as Hu0.
  replace 53 with (52 + 1) in Hu by lia. rewrite pow2_add, pow2_1 in Hu.
  pose proof (pow2_pos 52) as H52.
  (* half a unit in the last place is at most [q * u53] *)
  assert (Hulp : (pow2 e / 2 <= IZR (Zpos m) * pow2 e * u53)%R).
  { assert (pow2 52 * u53 = / 2)%R by nra.
    assert (pow2 e * u53 * pow2 52 <= pow2 e * u53 * IZR (Zpos m))%R.
    { apply Rmult_le_compat_l; [|lra]. apply Rmult_le_pos; lra. }
    nra. }
  lra.
Qed.

(** In the subnormal range a multiple of [2 ^ -1074] rounds to itself. *)
Lemma rounds_to_subnormal (K : Z) (m : positive) :
  rounds_to (IZR K * pow2 (-1074)) (S754_finite false m (-1074)) ->
  SF2R (S754_finite false m (-1074)) = (IZR K * pow2 (-1074))%R.
Proof.
  intros Hround. cbn [SF2R]. rewrite Rmult_1_l.
  destruct (rounds_to_finite _ _ _ _ Hround) as [_ Hacc].
  apply Rabs_le_inv in Hacc. pose proof (pow2_pos (-1074)) as He.
  assert (Hd : (- / 2 <= IZR (Zpos m - K) <= / 2)%R).
  { rewrite minus_IZR. nra. }
  assert (Zpos m - K = 0).
  { destruct Hd as [Hlo Hhi].
    assert (-1 < Zpos m - K) by (apply lt_IZR; lra).
    assert (Zpos m - K < 1) by (apply lt_IZR; lra). lia. }
  replace (Zpos m) with K by lia. reflexivity.
Qed.

(** The arithmetic behind a sale: with fewer than [2 ^ 52] shares, a cost
    of living that the value of the holding covers buys no more shares
    than are held, whatever the two roundings did. *)
Lemma no_oversell (h x c p q : R) :
  (0 <= h)%R -> (h + 1 <= pow2 52)%R -> (0 < p)%R ->
  (c <= x)%R ->
  (x * (1 - u53) <= h * p)%R ->
  (q * (1 - u53) <= c / p)%R ->
  (h + 1 <= q)%R -> False.
Proof.
  intros Hh Hh52 Hp Hcx Hmul Hdiv Hq.
  pose proof u53_eq as Hu. pose proof u53_pos as Hu0.
  replace 53 with (52 + 1) in Hu by lia. rewrite pow2_add, pow2_1 in Hu.
  pose proof (pow2_pos 52) as H52.
  assert (Hu1 : (u53 < 1)%R) by nra.
  assert (Hc : (q * (1 - u53) * p <= c)%R).
  { apply (Rmult_le_compat_r p) in Hdiv; [|lra].
    replace (c / p * p)%R with c in Hdiv by (field; lra). exact Hdiv. }
  assert (H1 : (q * (1 - u53) * p * (1 - u53) <= h * p)%R).
  { apply Rle_trans with (x * (1 - u53))%R; [|exact Hmul].
    apply Rmult_le_compat_r; lra. }
  assert (H2 : (q * (1 - u53) * (1 - u53) <= h)%R).
  { apply (Rmult_le_reg_r p); [exact Hp|]. lra. }
  assert (H3 : ((h + 1) * ((1 - u53) * (1 - u53)) <= h)%R).
  { apply Rle_trans with (q * (1 - u53) * (1 - u53))%R; [|exact H2].
    rewrite Rmult_assoc. apply Rmult_le_compat_r; [nra | exact Hq]. }
  assert (H4 : ((h + 1) * (2 * u53) <= 1)%R).
  { apply Rle_trans with (pow2 52 * (2 * u53))%R; [|lra].
    apply Rmult_le_compat_r; lra. }
  nra.
Qed.

(** ** A sale *)

Lemma SFleb_infinity_false (x : spec_float) :
  is_finite_SF x -> SFleb (S754_infinity false) x = false.
Proof. destruct x; cbn; intros H; try contradiction; reflexivity. Qed.

Lemma pow2_53_lt_971 : (pow2 53 < pow2 971)%R.
Proof. apply pow2_lt. lia. Qed.

(** The sale of the program on the binary64 numbers: [hf] the shares
    held, [P] the price, [C] the cost of living and [I] the inflated
    capital. When the value of the holding is finite and reaches the
    target [I + C], the shares sold, the integer part of [C / P], are
    between 0 and the shares held. *)
Lemma sale_within_holding_SF (h : Z) (hf P ic C : spec_float) :
  0 <= h < 2 ^ 52 -> exact_int h hf ->
  is_positive P -> valid_binary P = true ->
  not_negative ic -> valid_binary ic = true ->
  not_negative C -> valid_binary C = true ->
  valid_binary (SFmul prec emax hf P) = true ->
  valid_binary (SFadd prec emax ic C) = true ->
  valid_binary (SFdiv prec emax C P) = true ->
  is_finite_SF (SFmul prec emax hf P) ->
  SFleb (SFadd prec emax ic C) (SFmul prec emax hf P) = true ->
  exists sold, SFtrunc (SFdiv prec emax C P) = Some sold /\ 0 <= sold <= h.
Proof.
  intros Hh Hhf HP HvP Hic Hvic HC HvC HvX HvT HvQ HfinX Hle.
  (* the price is finite *)
  destruct P as [sp|sp| |sp mp ep]; cbn [is_positive] in HP; try contradiction;
    subst sp.
  { exfalso. destruct Hhf as [[_ ->]|[_ (m & e & -> & _)]]; exact HfinX. }
  (* the cost of living *)
  destruct C as [sc|sc| |sc mc ec]; cbn [not_negative] in HC.
  - (* no cost: nothing is sold *)
    exists 0. split; [destruct sc; reflexivity | lia].
  - (* an infinite cost is never reached *)
    exfalso. subst sc.
    assert (HT : SFadd prec emax ic (S754_infinity false) = S754_infinity false
                 \/ SFadd prec emax ic (S754_infinity false) = S754_nan).
    { destruct ic as [si|si| |si mi ei]; cbn [not_negative] in Hic; subst;
        cbn; auto. }
    destruct HT as [HT|HT]; rewrite HT in Hle.
    + rewrite SFleb_infinity_false in Hle by assumption. discriminate.
    + discriminate.
  - exfalso. replace (SFadd prec emax ic S754_nan) with S754_nan in Hle
      by (destruct ic; reflexivity). discriminate.
  - subst sc.
    set (c := SF2R (S754_finite false mc ec)) in *.
    set (p := SF2R (S754_finite false mp ep)) in *.
    assert (Hp : (0 < p)%R) by apply SF2R_finite_pos.
    assert (Hc : (0 < c)%R) by apply SF2R_finite_pos.
    (* the target is a finite number, not below the cost *)
    assert (HT : exists mt et,
               SFadd prec emax ic (S754_finite false mc ec) = S754_finite false mt et
               /\ (c <= SF2R (S754_finite false mt et))%R).
    { destruct ic as [si|si| |si mi ei]; cbn [not_negative] in Hic.
      - exists mc, ec. split; [reflexivity | unfold c; lra].
      - exfalso. subst si. cbn [SFadd] in Hle.
        rewrite SFleb_infinity_false in Hle by assumption. discriminate.
      - exfalso. discriminate.
      - subst si.
        destruct (SFadd_lower mi mc ei ec Hvic HvC) as (Hsign & Hnz & Hfin).
        destruct (SFadd prec emax (S754_finite false mi ei)
                    (S754_finite false mc ec)) as [st|st| |st mt et] eqn:ET.
        + exfalso. exact (Hnz st eq_refl).
        + exfalso. cbn [not_negative] in Hsign. subst st.
          rewrite SFleb_infinity_false in Hle by assumption. discriminate.
        + exfalso. discriminate.
        + destruct (Hfin st mt et eq_refl HvT) as [-> Hlow].
          exists mt, et. split; [reflexivity | exact Hlow]. }
    destruct HT as (mt & et & HT & Hct). rewrite HT in Hle, HvT.
    (* the holding is worth a positive finite amount *)
    destruct Hhf as [[_ ->]|[Hhpos (mh & eh & -> & Hhval)]].
    { exfalso. cbn in Hle. discriminate. }
    pose proof (SFmul_accuracy mh mp eh ep) as HX. fold p in HX.
    destruct (SFmul prec emax (S754_finite false mh eh) (S754_finite false mp ep))
      as [sx|sx| |sx mx ex] eqn:EX; cbn [is_finite_SF] in HfinX;
      try contradiction.
    { exfalso. cbn in Hle. discriminate. }
    destruct (rounds_to_finite _ _ _ _ HX) as [-> _].
    pose proof (SFleb_finite_le mt mx et ex HvT HvX Hle) as Htx.
    set (x := SF2R (S754_finite false mx ex)) in *.
    assert (Hx : (0 < x)%R) by apply SF2R_finite_pos.
    assert (HV : (SF2R (S754_finite false mh eh) * p = IZR h * p)%R).
    { cbn [SF2R]. rewrite Rmult_1_l, Hhval. reflexivity. }
    rewrite HV in HX.
    pose proof u53_pos as Hu0.
    assert (Hu1 : (u53 < 1)%R).
    { pose proof u53_eq as Hu. replace 53 with (52 + 1) in Hu by lia.
      rewrite pow2_add, pow2_1 in Hu. pose proof (pow2_pos 52).
      pose proof (pow2_le 0 52 ltac:(lia)) as H1. rewrite pow2_0 in H1. nra. }
    assert (Hmul : (x * (1 - u53) <= IZR h * p)%R).
    { destruct (valid_finite _ _ _ HvX) as (_ & _ & [Esub|Hnorm]).
      - subst ex.
        destruct (valid_finite _ _ _ HvP) as (Hep & _ & _).
        assert (Hmult : (IZR h * p
                         = IZR (h * Zpos mp * 2 ^ (ep + 1074)) * pow2 (-1074))%R).
        { unfold p. cbn [SF2R]. rewrite !mult_IZR, pow2_IZR by lia.
          replace ep with (ep + 1074 + -1074) at 1 by lia.
          rewrite (pow2_add (ep + 1074)). ring. }
        rewrite Hmult in HX. pose proof (rounds_to_subnormal _ _ HX) as Ex.
        fold x in Ex. rewrite <- Hmult in Ex. nra.
      - exact (proj1 (rounds_to_normal _ _ _ HX Hnorm)). }
    assert (Hhr : (0 <= IZR h)%R) by (apply IZR_le; lia).
    assert (Hh52 : (IZR h + 1 <= pow2 52)%R).
    { rewrite <- pow2_IZR by lia. rewrite <- plus_IZR. apply IZR_le. lia. }
    (* the quotient *)
    pose proof (SFdiv_accuracy mc mp ec ep) as HQ. fold c p in HQ.
    destruct (SFdiv prec emax (S754_finite false mc ec) (S754_finite false mp ep))
      as [sq|sq| |sq mq eq0] eqn:EQ.
    + exists 0. split; [reflexivity | lia].
    + (* the quotient does not overflow *)
      exfalso. apply rounds_to_infinity in HQ.
      assert (Hcp : (c / p * (1 - u53) <= IZR h)%R).
      { apply (Rmult_le_reg_r p); [exact Hp|].
        replace (c / p * (1 - u53) * p)%R with (c * (1 - u53))%R
          by (field; lra).
        apply Rle_trans with (x * (1 - u53))%R; [|exact Hmul].
        apply Rmult_le_compat_r; lra. }
      pose proof pow2_53_lt_971 as H971.
      pose proof u53_eq as Hu.
      assert (pow2 971 * (1 - u53) <= pow2 52)%R by nra.
      replace 53 with (52 + 1) in H971, Hu by lia.
      rewrite pow2_add, pow2_1 in H971, Hu. pose proof (pow2_pos 52). nra.
    + exfalso. destruct HQ as (m & e & Hm0 & _ & Hr).
      destruct m as [|pm|pm]; try discriminate; try lia.
      destruct (e <=? 971); discriminate.
    + destruct (rounds_to_finite _ _ _ _ HQ) as [-> _].
      destruct (SFtrunc_finite mq eq0) as (z & Hz & Hzq).
      exists z. split; [exact Hz|].
      pose proof (SFtrunc_not_negative (S754_finite false mq eq0) z eq_refl Hz) as Hz0. split; [exact Hz0|].
      destruct (Z_le_gt_dec z h) as [|Hgt]; [assumption|exfalso].
      set (q := SF2R (S754_finite false mq eq0)) in *.
      assert (Hq1 : (IZR h + 1 <= q)%R).
      { apply Rle_trans with (IZR z); [|lra].
        rewrite <- plus_IZR. apply IZR_le. lia. }
      assert (Hdiv : (q * (1 - u53) <= c / p)%R).
      { destruct (valid_finite _ _ _ HvQ) as (_ & Hmq & [Esub|Hnorm]).
        - exfalso. subst eq0. unfold q in Hq1. cbn [SF2R] in Hq1.
          apply IZR_lt in Hmq. rewrite pow2_IZR in Hmq by lia.
          pose proof (pow2_pos (-1074)).
          assert (IZR (Zpos mq) * pow2 (-1074) < pow2 53 * pow2 (-1074))%R by nra.
          rewrite <- pow2_add in *.
          pose proof (pow2_lt (53 + -1074) 0 ltac:(lia)) as Hlt1.
          rewrite pow2_0 in Hlt1. lra.
        - exact (proj1 (rounds_to_normal _ _ _ HQ Hnorm)). }
      exact (no_oversell (IZR h) x c p q Hhr Hh52 Hp
               ltac:(lra) Hmul Hdiv Hq1).
Qed.

Lemma Prim2SF_max_price :
  Prim2SF max_price = S754_finite false 4503599627370496 867.
Proof. reflexivity. Qed.

Lemma SF2R_max_price : SF2R (Prim2SF max_price) = pow2 919.
Proof.
  rewrite Prim2SF_max_price. cbn [SF2R]. rewrite Rmult_1_l.
  change (Zpos 4503599627370496) with (2 ^ 52).
  rewrite pow2_IZR by lia. rewrite <- pow2_add. reflexivity.
Qed.

(** The value of fewer than 2^52 shares at a price up to [max_price] is
    a finite binary64. *)
Lemma holding_finite (h : Z) (hf P : spec_float) :
  0 <= h < 2 ^ 52 -> exact_int h hf ->
  is_positive P -> valid_binary P = true ->
  SFleb P (Prim2SF max_price) = true ->
  is_finite_SF (SFmul prec emax hf P).
Proof.
  intros Hh Hhf HP HvP Hle.
  destruct P as [sp|sp| |sp mp ep]; cbn [is_positive] in HP; try contradiction;
    subst sp.
  { rewrite Prim2SF_max_price in Hle. discriminate. }
  destruct Hhf as [[_ ->]|[Hhpos (mh & eh & -> & Hhval)]]; [exact I|].
  pose proof (SFmul_accuracy mh mp eh ep) as HX.
  destruct (SFmul prec emax (S754_finite false mh eh) (S754_finite false mp ep))
    as [sx|sx| |sx mx ex] eqn:EX; try exact I; exfalso.
  - apply rounds_to_infinity in HX.
    assert (Hp : (SF2R (S754_finite false mp ep) <= pow2 919)%R).
    { rewrite <- SF2R_max_price. rewrite Prim2SF_max_price in *.
      apply SFleb_finite_le; [exact HvP|reflexivity|exact Hle]. }
    cbn [SF2R] in HX, Hp. rewrite !Rmult_1_l in *. rewrite Hhval in HX.
    assert (Hh52 : (IZR h + 1 <= pow2 52)%R).
    { rewrite <- pow2_IZR by lia. rewrite <- plus_IZR. apply IZR_le. lia. }
    assert (E : (pow2 971 = pow2 52 * pow2 919)%R)
      by (rewrite <- pow2_add; reflexivity).
    pose proof (pow2_pos 919). pose proof (pow2_pos 52).
    pose proof (IZR_pos_pos mp). pose proof (pow2_pos ep).
    assert (0 < IZR (Zpos mp) * pow2 ep)%R by nra.
    assert (0 < IZR h)%R by (apply IZR_lt; lia).
    nra.
  - destruct HX as (m & e & Hm0 & _ & Hr).
    destruct m as [|pm|pm]; try discriminate; try lia.
    destruct (e <=? 971); discriminate.
Qed.

(** The sale on float64: with fewer than 2^52 shares held and a positive
    price up to [max_price], a reached target [ic + col] with nonnegative
    parts sells between 0 and [h] shares. *)
Lemma sale_within_holding (h : Z) (price ic col : float) :
  0 <= h < 2 ^ 52 ->
  (0 <? price)%float = true -> (price <=? max_price)%float = true ->
  float_not_negative ic -> float_not_negative col ->
  float_ge (float64_of_int h * price) (ic + col) = true ->
  exists sold, float_trunc (col / price) = Some sold /\ 0 <= sold <= h.
Proof.
  intros Hh Hpos Hmax Hic Hcol Hge.
  unfold float_ge in Hge. unfold float_trunc.
  rewrite FloatAxioms.leb_spec, FloatAxioms.mul_spec, FloatAxioms.add_spec in Hge.
  rewrite FloatAxioms.leb_spec in Hmax.
  rewrite FloatAxioms.div_spec.
  assert (Hex : exact_int h (Prim2SF (float64_of_int h))).
  { apply float64_of_int_exact. pose proof (Z.pow_lt_mono_r 2 52 53). lia. }
  pose proof (positive_float _ Hpos) as HP.
  pose proof (Prim2SF_valid price) as HvP.
  apply (sale_within_holding_SF h (Prim2SF (float64_of_int h)) (Prim2SF price)
           (Prim2SF ic) (Prim2SF col)); try assumption;
    try apply Prim2SF_valid.
  - rewrite <- FloatAxioms.mul_spec. apply Prim2SF_valid.
  - rewrite <- FloatAxioms.add_spec. apply Prim2SF_valid.
  - rewrite <- FloatAxioms.div_spec. apply Prim2SF_valid.
  - now apply (holding_finite h).
Qed.

Section Holding.
Context {rt : GoRuntime}.

(** The parts of the target of a run are not negative when the inflation
    factor is not. *)
Lemma target_parts_not_negative (config : config) (n : Z) :
  valid_config config ->
  float_not_negative (math_Pow (inflationRate config) (float64_of_int n)) ->
  float_not_negative
    (float64_of_int (capital config)
     * math_Pow (inflationRate config) (float64_of_int n))
  /\ float_not_negative (cost_formula config n).
Proof.
  intros ((Hcap & _ & Hyear & Hcost) & Hcap0 & _ & Hyear1 & _ & Hcost0) Hpow.
  unfold float_not_negative, cost_formula in *. unfold in_int in *.
  rewrite !FloatAxioms.mul_spec. split.
  - apply SFmul_not_negative; [|exact Hpow].
    apply float64_of_int_not_negative. lia.
  - apply SFmul_not_negative; [|exact Hpow].
    apply SFmul_not_negative; apply float64_of_int_not_negative; lia.
Qed.

(** One window: the shares sold are between 0 and the shares held. *)
Lemma window_within_holding (config : config) (datePrices : list datePrice)
  (run heldShares : Z) (endDay : Time) (info : runInfo) :
  valid_config config -> len datePrices <= MaxInt64 ->
  Forall positive_price datePrices -> Forall bounded_price datePrices ->
  float_not_negative (inflation_of config run) ->
  0 <= heldShares < 2 ^ 52 ->
  window_of config datePrices run heldShares endDay info ->
  match ri_sale info with
  | Some (k, soldShares) =>
      0 <= soldShares <= heldShares
      /\ ri_heldAfter info = heldShares - soldShares
  | None => ri_heldAfter info = heldShares
  end.
Proof.
  intros Hvalid Hlen Hpos Hmax Hpow Hheld
         (_ & _ & _ & Hs & He & Htarget & Hcost & _ & Hsale).
  destruct (ri_sale info) as [[k sold]|]; [|apply Hsale].
  destruct Hsale as (Hk & Hsat & _ & Hsold & Hafter).
  pose proof (findClosestDay_found _ _ _ Hlen Hs) as Hsi.
  pose proof (findClosestDay_found _ _ _ Hlen He) as Hei.
  assert (Hin : In (nth (Z.to_nat k) datePrices zero_datePrice) datePrices).
  { apply nth_In. unfold len in *. lia. }
  rewrite Forall_forall in Hpos, Hmax.
  pose proof (Hpos _ Hin) as Hp. pose proof (Hmax _ Hin) as Hm.
  unfold positive_price, bounded_price in Hp, Hm.
  fold (price_at datePrices k) in Hp, Hm.
  destruct (target_parts_not_negative config
              (int_mul (int_add run 1) (yearPerRun config)) Hvalid Hpow)
    as (Hic & Hcol).
  unfold satisfied_at in Hsat. rewrite Htarget in Hsat.
  unfold target_formula in Hsat. cbv zeta in Hsat.
  destruct (sale_within_holding heldShares (price_at datePrices k) _ _
              Hheld Hp Hm Hic Hcol Hsat) as (z & Hz & Hz0).
  assert (Hsold' : sold = z).
  { rewrite Hsold. unfold sold_at, int64_of_float. rewrite Hcost.
    rewrite Hz.
    destruct (Z.leb_spec MinInt64 z); destruct (Z.leb_spec z MaxInt64);
      cbn [andb]; unfold MinInt64, MaxInt64 in *;
      pose proof (Z.pow_lt_mono_r 2 52 63); lia. }
  subst z. split; [exact Hz0|]. rewrite Hafter. apply int_sub_small.
  unfold in_int, MinInt64, MaxInt64.
  pose proof (Z.pow_lt_mono_r 2 52 63). lia.
Qed.

(** The invariant of the [run] loop: fewer than 2^52 shares, and not a
    negative number of them. *)
Lemma runs_within_holding config datePrices fuel run heldShares endDay r infos :
  valid_config config -> len datePrices <= MaxInt64 ->
  Forall positive_price datePrices -> Forall bounded_price datePrices ->
  (forall run, 0 <= run < config_run config ->
     float_not_negative (inflation_of config run)) ->
  runs config datePrices fuel run heldShares endDay r infos ->
  0 <= run -> 0 <= heldShares < 2 ^ 52 ->
  forall info, In info infos ->
    0 <= ri_heldBefore info < 2 ^ 52
    /\ match ri_sale info with
       | Some (k, soldShares) =>
           0 <= soldShares <= ri_heldBefore info
           /\ ri_heldAfter info = ri_heldBefore info - soldShares
       | None => ri_heldAfter info = ri_heldBefore info
       end.
Proof.
  intros Hvalid Hlen Hpos Hmax Hpow.
  induction 1 as [fuel run held endDay Hdone
                 | fuel run held endDay Hlt Hday
                 | fuel run held endDay info Hlt Hwin Hsale
                 | fuel run held endDay info r infos Hlt Hwin Hsale Hruns IH];
    intros Hrun Hheld info' Hin; cbn [In] in Hin; try contradiction.
  - destruct Hin as [ <- | [] ].
    pose proof Hwin as (_ & _ & _ & _ & _ & _ & _ & Hb & _). rewrite Hb.
    split; [exact Hheld|].
    apply (window_within_holding config datePrices run held endDay);
      auto.
  - pose proof (window_within_holding config datePrices run held endDay info
                  Hvalid Hlen Hpos Hmax (Hpow run ltac:(lia)) Hheld Hwin)
      as Hone.
    pose proof Hwin as (_ & _ & _ & _ & _ & _ & _ & Hb & _).
    destruct Hin as [ <- | Hin ].
    + rewrite Hb. split; [exact Hheld | exact Hone].
    + apply IH; [| |exact Hin].
      * destruct Hvalid as ((_ & Hrunint & _) & _).
        rewrite (run_succ config run); [lia|exact Hrunint| |exact Hlt].
        unfold MinInt64. lia.
      * destruct (ri_sale info) as [[k sold]|]; [|congruence].
        destruct Hone as (Hs & ->). lia.
Qed.

End Holding.

Section Invariant.
Context {rt : GoRuntime}.

(** C9, within the range where float64 is accurate. For a valid config
    and a series of positive prices up to [max_price] (2^919), on a
    runtime whose [math.Pow] gives no negative inflation factor for the
    runs of the config, a simulation whose initial purchase is fewer than
    2^52 shares never holds a negative number of shares: the initial
    [heldShares] is not negative, every run starts and ends with a
    nonnegative [heldShares], and every sale takes away between 0 and
    [heldShares] shares. *)
Theorem held_shares_not_negative (config : config)
  (datePrices : list datePrice) (r heldShares : Z) (infos : list runInfo) :
  valid_config config ->
  datePrices <> [] -> len datePrices <= MaxInt64 ->
  Forall positive_price datePrices -> Forall bounded_price datePrices ->
  (forall run, 0 <= run < config_run config ->
     float_not_negative (inflation_of config run)) ->
  (exists z, float_trunc (float64_of_int (capital config)
                          / price_at datePrices 0) = Some z
             /\ z < 2 ^ 52) ->
  checkInPeriod_runs config datePrices = Ok (r, heldShares, infos) ->
  0 <= heldShares
  /\ forall info, In info infos ->
       0 <= ri_heldBefore info /\ 0 <= ri_heldAfter info
       /\ match ri_sale info with
          | Some (k, soldShares) =>
              0 <= soldShares <= ri_heldBefore info
              /\ ri_heldAfter info = ri_heldBefore info - soldShares
          | None => ri_heldAfter info = ri_heldBefore info
          end.
Proof.
  intros Hvalid Hne Hlen Hpos Hmax Hpow (z & Hz & Hz52) Hrun.
  destruct (checkInPeriod_runs_spec config datePrices Hne Hlen)
    as (first & r' & infos' & Hfirst & Hrun' & _ & Hruns).
  rewrite Hrun in Hrun'. inversion Hrun'; subst r' infos'.
  destruct (hd_index datePrices Hne) as (first' & Hfirst' & _ & Hprice).
  rewrite Hfirst in Hfirst'. inversion Hfirst'; subst first'.
  (* the initial purchase *)
  assert (Hz0 : 0 <= z).
  { unfold float_trunc in Hz. rewrite FloatAxioms.div_spec in Hz.
    revert Hz. apply SFtrunc_not_negative. apply SFdiv_not_negative.
    - apply float64_of_int_not_negative.
      destruct Hvalid as ((Hcap & _) & Hcap0 & _). unfold in_int in Hcap. lia.
    - apply positive_float. rewrite <- Hprice.
      rewrite Forall_forall in Hpos. apply Hpos.
      rewrite <- (index_nth _ _ _ Hfirst). apply nth_In.
      destruct datePrices; [contradiction | cbn; lia]. }
  assert (Hinit : initial_shares config first = z).
  { unfold initial_shares, int64_of_float. rewrite Hprice, Hz.
    destruct (Z.leb_spec MinInt64 z); destruct (Z.leb_spec z MaxInt64);
      cbn [andb]; unfold MinInt64, MaxInt64 in *;
      pose proof (Z.pow_lt_mono_r 2 52 63); lia. }
  rewrite Hinit in *. split; [exact Hz0|].
  intros info Hin.
  destruct (runs_within_holding _ _ _ _ _ _ _ _ Hvalid Hlen Hpos Hmax Hpow
              Hruns ltac:(lia) ltac:(lia) info Hin) as (Hb & Hsale).
  split; [lia|].
  destruct (ri_sale info) as [[k sold]|].
  - destruct Hsale as (Hs & Ha). split; [lia|]. split; [exact Hs | exact Ha].
  - split; [lia | exact Hsale].
Qed.

End Invariant.

Lemma rounding_runs :
  @checkInPeriod_runs go_amd64 rounding_config rounding_series
  = Ok (success, 2 ^ 55, [rounding_first_run; rounding_second_run]).
Proof. vm_compute. reflexivity. Qed.

(** C9 as the design document words it does not hold: on
    [rounding_series] the simulation of [rounding_config], a valid config
    on an ascending series of positive prices, sells 2^55 shares in its
    second run while it holds 2^55 - 1, and ends with -1 share (and the
    result success). *)
Lemma sale_exceeds_holding :
  ~ (forall (c : config) (s : list datePrice) r heldShares infos,
       valid_config c -> ascending s -> Forall positive_price s ->
       @checkInPeriod_runs go_amd64 c s = Ok (r, heldShares, infos) ->
       0 <= heldShares
       /\ forall info, In info infos ->
            0 <= ri_heldAfter info
            /\ match ri_sale info with
               | Some (_, soldShares) => soldShares <= ri_heldBefore info
               | None => True
               end).
Proof.
  intros Hclaim.
  specialize (Hclaim rounding_config rounding_series success (2 ^ 55)
                [rounding_first_run; rounding_second_run]).
  assert (H : 0 <= ri_heldAfter rounding_second_run);
    [|cbn [ri_heldAfter rounding_second_run] in H; lia].
  apply Hclaim; try exact rounding_runs.
  - unfold valid_config, config_typed, in_int. vm_compute.
    repeat split; discriminate.
  - unfold ascending, rounding_series.
    repeat (constructor; try (unfold date_le; vm_compute; discriminate)).
  - unfold rounding_series. repeat constructor.
  - right. left. reflexivity.
Qed.

Lemma held_shares_not_negative_witness :
  0 <= 100
  /\ forall info, In info [late_sale_first_run; late_sale_second_run] ->
       0 <= ri_heldBefore info /\ 0 <= ri_heldAfter info
       /\ match ri_sale info with
          | Some (k, soldShares) =>
              0 <= soldShares <= ri_heldBefore info
              /\ ri_heldAfter info = ri_heldBefore info - soldShares
          | None => ri_heldAfter info = ri_heldBefore info
          end.
Proof.
  apply (@held_shares_not_negative go_amd64 late_sale_config late_sale_series
           failed 100 [late_sale_first_run; late_sale_second_run]).
  - unfold valid_config, config_typed, in_int. vm_compute.
    repeat split; discriminate.
  - discriminate.
  - vm_compute. discriminate.
  - unfold late_sale_series. repeat constructor.
  - unfold late_sale_series. repeat constructor.
  - intros run Hrun.
    assert (Hcases : run = 0 \/ run = 1)
      by (change (config_run late_sale_config) with 2 in Hrun; lia).
    destruct Hcases as [ -> | -> ]; vm_compute; reflexivity.
  - exists 100. split; vm_compute; reflexivity.
  - vm_compute. reflexivity.
Defined.

(* ===================================================================== *)
(** * Further properties of the code *)

(** ** findClosestDay, whatever the order of the series *)

(** With enough fuel the loop returns its right bound or an index at
    which the probe answers true. This needs nothing of [f]. *)
Lemma Search_loop_hit (f : Z -> bool) (fuel : nat) :
  forall i j, 0 <= i -> i <= j -> j <= MaxInt64 ->
    j - i <= Z.of_nat fuel ->
    let r := Search_loop fuel f i j in
    r = j \/ f r = true.
Proof.
  induction fuel as [|fuel IH]; intros i j Hi Hij Hj Hfuel; cbn [Search_loop].
  - left. lia.
  - destruct (Z.ltb_spec i j) as [Hlt|Hge]; [|left; lia].
    pose proof (midpoint i j Hi Hlt Hj) as Hh. cbv zeta in Hh.
    set (h := Z.shiftr ((i + j) mod 2 ^ 64) 1) in *.
    destruct (f h) eqn:Hfh; cbn [negb].
    + specialize (IH i h Hi (proj1 Hh) ltac:(lia) ltac:(lia)). cbv zeta in IH.
      destruct IH as [Hr|Hr]; [|now right]. right. rewrite Hr. exact Hfh.
    + apply IH; lia.
Qed.

(** A day that was found is not after the date of the sample found,
    whatever the order of the series. *)
Lemma findClosestDay_on_or_after day s i :
  len s <= MaxInt64 -> findClosestDay day s = (i, true) -> day <= date_at s i.
Proof.
  intros Hn. rewrite findClosestDay_unfold. cbv zeta. unfold Search.
  pose proof (Search_loop_hit (on_or_after day s) (Z.to_nat (len s))
                0 (len s) ltac:(lia) (len_nonneg s) Hn ltac:(lia)) as Hhit.
  cbv zeta in Hhit.
  destruct (Z.eqb_spec (Search_loop (Z.to_nat (len s)) (on_or_after day s) 0 (len s))
                       (len s)) as [E|E]; intros H; inversion H; subst i.
  apply on_or_after_true. destruct Hhit as [Hr|Hr]; [contradiction|exact Hr].
Qed.

(** X1. Whatever the order of the series (its length a Go int): a day
    that [findClosestDay] finds is found at an index of the slice whose
    sample is on or after the day, and the sample just before that index,
    if there is one, is before the day. A day that is not found is
    reported with index -1, and only when the series is empty or its last
    sample is before the day. *)
Theorem findClosestDay_any_order (day : Time) (s : list datePrice) :
  len s <= MaxInt64 ->
  (forall i, findClosestDay day s = (i, true) ->
     0 <= i < len s
     /\ day <= date_at s i
     /\ (i = 0 \/ date_at s (i - 1) < day))
  /\ (forall i, findClosestDay day s = (i, false) ->
        i = -1 /\ (s = [] \/ last_day s < day)).
Proof.
  intros Hn. rewrite findClosestDay_unfold. cbv zeta. unfold Search.
  pose proof (Search_loop_bounds (on_or_after day s) (Z.to_nat (len s))
                0 (len s) ltac:(lia) (len_nonneg s) Hn) as [Hb Hlow].
  pose proof (Search_loop_hit (on_or_after day s) (Z.to_nat (len s))
                0 (len s) ltac:(lia) (len_nonneg s) Hn ltac:(lia)) as Hhit.
  cbv zeta in Hhit.
  set (r := Search_loop (Z.to_nat (len s)) (on_or_after day s) 0 (len s)) in *.
  destruct (Z.eqb_spec r (len s)) as [E|E]; split; intros i H;
    inversion H; subst i.
  - split; [reflexivity|].
    destruct s as [|a s']; [now left | right].
    destruct Hlow as [Hr|Hr].
    + unfold len in E. cbn [length] in E. lia.
    + rewrite E in Hr. apply on_or_after_false in Hr.
      rewrite nth_last_day in Hr by discriminate. exact Hr.
  - split; [lia|]. split.
    + apply on_or_after_true. destruct Hhit as [Hr|Hr]; [contradiction|exact Hr].
    + destruct Hlow as [Hr|Hr]; [now left | right].
      apply on_or_after_false. exact Hr.
Qed.

Lemma findClosestDay_any_order_witness :
  (forall i, findClosestDay (time_Date 2002 1 1) unsorted_series = (i, true) ->
     0 <= i < len unsorted_series
     /\ time_Date 2002 1 1 <= date_at unsorted_series i
     /\ (i = 0 \/ date_at unsorted_series (i - 1) < time_Date 2002 1 1))
  /\ (forall i, findClosestDay (time_Date 2002 1 1) unsorted_series = (i, false) ->
        i = -1 /\ (unsorted_series = []
                   \/ last_day unsorted_series < time_Date 2002 1 1)).
Proof.
  apply (findClosestDay_any_order (time_Date 2002 1 1) unsorted_series).
  vm_compute. discriminate.
Defined.

(** ** findClosestDay on an ascending series *)

(** On an ascending series [sort.Search] splits the indices: the samples
    before its result are before the day, the samples from it on are on
    or after the day. *)
Lemma Search_ascending (day : Time) (s : list datePrice) :
  len s <= MaxInt64 -> ascending s ->
  let r := Search (len s) (on_or_after day s) in
  0 <= r <= len s
  /\ (forall k, 0 <= k < r -> date_at s k < day)
  /\ (forall k, r <= k < len s -> day <= date_at s k).
Proof.
  intros Hn Hasc. cbv zeta. unfold Search.
  pose proof (Search_loop_monotone (on_or_after day s) (len s) (Z.to_nat (len s)))
    as Hm.
  specialize (Hm ltac:(intros a b Ha Hab Hb Hfa;
                       apply on_or_after_true; apply on_or_after_true in Hfa;
                       pose proof (ascending_date_at s Hasc a b Ha Hab Hb); lia)).
  pose proof (len_nonneg s) as Hlen.
  specialize (Hm 0 (len s) ltac:(lia) ltac:(lia) ltac:(lia) Hn ltac:(lia)
                 ltac:(intros; lia) ltac:(intros; lia)).
  cbv zeta in Hm. destruct Hm as (Hb & Hlo & Hhi).
  split; [exact Hb|]. split.
  - intros k Hk. apply on_or_after_false. now apply Hlo.
  - intros k Hk. apply on_or_after_true. now apply Hhi.
Qed.

(** The index found for an earlier day is not after the index found for
    a later day. *)
Lemma Search_day_monotone (day1 day2 : Time) (s : list datePrice) :
  len s <= MaxInt64 -> ascending s -> day1 <= day2 ->
  Search (len s) (on_or_after day1 s) <= Search (len s) (on_or_after day2 s).
Proof.
  intros Hn Hasc Hday.
  destruct (Search_ascending day1 s Hn Hasc) as (Hb1 & Hlo1 & Hhi1).
  destruct (Search_ascending day2 s Hn Hasc) as (Hb2 & Hlo2 & Hhi2).
  set (r1 := Search (len s) (on_or_after day1 s)) in *.
  set (r2 := Search (len s) (on_or_after day2 s)) in *.
  destruct (Z_le_gt_dec r1 r2) as [|Hgt]; [assumption|exfalso].
  specialize (Hlo1 r2 ltac:(lia)). specialize (Hhi2 r2 ltac:(lia)). lia.
Qed.

(** X2. On an ascending series the index that [findClosestDay] returns
    grows with the day: when a day is found, every earlier day is found as
    well, at the same index or before; when a day is not found, no later
    day is found. *)
Theorem findClosestDay_monotone (day1 day2 : Time) (s : list datePrice) :
  len s <= MaxInt64 -> ascending s -> day1 <= day2 ->
  (forall i2, findClosestDay day2 s = (i2, true) ->
     exists i1, findClosestDay day1 s = (i1, true) /\ i1 <= i2)
  /\ (forall i1, findClosestDay day1 s = (i1, false) ->
        findClosestDay day2 s = (-1, false)).
Proof.
  intros Hn Hasc Hday.
  pose proof (Search_day_monotone day1 day2 s Hn Hasc Hday) as Hle.
  destruct (Search_ascending day1 s Hn Hasc) as (Hb1 & _).
  destruct (Search_ascending day2 s Hn Hasc) as (Hb2 & _).
  rewrite !findClosestDay_unfold. cbv zeta.
  set (r1 := Search (len s) (on_or_after day1 s)) in *.
  set (r2 := Search (len s) (on_or_after day2 s)) in *.
  destruct (Z.eqb_spec r1 (len s)) as [E1|E1];
    destruct (Z.eqb_spec r2 (len s)) as [E2|E2]; split;
    try (intros i H; inversion H; subst i); try lia; try reflexivity.
  exists r1. split; [reflexivity | exact Hle].
Qed.

Lemma findClosestDay_monotone_witness :
  (forall i2, findClosestDay (time_Date 2005 1 1) scenario_series = (i2, true) ->
     exists i1, findClosestDay (time_Date 2000 6 1) scenario_series = (i1, true)
                /\ i1 <= i2)
  /\ (forall i1, findClosestDay (time_Date 2000 6 1) scenario_series = (i1, false) ->
        findClosestDay (time_Date 2005 1 1) scenario_series = (-1, false)).
Proof.
  apply (findClosestDay_monotone (time_Date 2000 6 1) (time_Date 2005 1 1)
           scenario_series).
  - vm_compute. discriminate.
  - unfold ascending, scenario_series.
    repeat (constructor; try (unfold date_le; vm_compute; discriminate)).
  - vm_compute. discriminate.
Defined.

Section Windows.
Context {rt : GoRuntime}.

(** ** The windows of a simulation *)

Lemma runs_adjacent config datePrices fuel run heldShares endDay r infos :
  runs config datePrices fuel run heldShares endDay r infos ->
  (forall info, nth_error infos 0 = Some info -> ri_startDay info = endDay)
  /\ (forall info, In info infos ->
        ri_endDay info = time_AddDate (yearPerRun config) (ri_startDay info))
  /\ (forall i prev next,
        nth_error infos i = Some prev -> nth_error infos (S i) = Some next ->
        ri_startDay next = ri_endDay prev
        /\ ri_startIndex next = ri_endIndex prev).
Proof.
  induction 1 as [fuel run held endDay Hdone
                 | fuel run held endDay Hlt Hday
                 | fuel run held endDay info Hlt Hwin Hsale
                 | fuel run held endDay info r infos Hlt Hwin Hsale Hruns IH].
  - split; [|split]; [intros info H | intros info [] | intros i prev next H];
      [|destruct i]; discriminate.
  - split; [|split]; [intros info H | intros info [] | intros i prev next H];
      [|destruct i]; discriminate.
  - destruct Hwin as (_ & Hs & He & _). split; [|split].
    + intros info' H. injection H as <-. exact Hs.
    + intros info' [ <- | [] ]. rewrite He, Hs. reflexivity.
    + intros [|i] prev next _ H; [|destruct i]; discriminate.
  - destruct IH as (IH0 & IHe & IHS).
    pose proof Hwin as (_ & Hs & He & _ & Hei & _). split; [|split].
    + intros info' H. injection H as <-. exact Hs.
    + intros info' [ <- | Hin ]; [rewrite He, Hs; reflexivity | now apply IHe].
    + intros [|i] prev next Hp Hn; cbn [nth_error] in Hp, Hn.
      * injection Hp as <-. pose proof (IH0 next Hn) as Hnext.
        split; [exact Hnext|].
        assert (Hin : In next infos) by (apply (nth_error_In infos 0); exact Hn).
        destruct (runs_window _ _ _ _ _ _ _ _ Hruns next Hin)
          as (run' & endDay' & Hwin').
        destruct Hwin' as (_ & _ & _ & Hsi' & _).
        rewrite Hnext, Hei in Hsi'. congruence.
      * apply (IHS i); assumption.
Qed.

(** X3. The windows of a simulation follow one another. The first run
    starts on the date of the first sample (at index 0 when the series is
    ascending); every run ends [AddDate(yearPerRun, 0, 0)] after its start
    and has the two indices that [findClosestDay] returns for its two
    days; every further run starts on the day, and at the index, where
    the run before it ended. *)
Theorem windows_adjacent (config : config) (datePrices : list datePrice)
  (r heldShares : Z) (infos : list runInfo) :
  datePrices <> [] -> len datePrices <= MaxInt64 ->
  checkInPeriod_runs config datePrices = Ok (r, heldShares, infos) ->
  (forall info, nth_error infos 0 = Some info ->
     ri_startDay info = date_at datePrices 0
     /\ (ascending datePrices -> ri_startIndex info = 0))
  /\ (forall info, In info infos ->
        ri_endDay info = time_AddDate (yearPerRun config) (ri_startDay info)
        /\ findClosestDay (ri_startDay info) datePrices
           = (ri_startIndex info, true)
        /\ findClosestDay (ri_endDay info) datePrices
           = (ri_endIndex info, true))
  /\ (forall i prev next,
        nth_error infos i = Some prev -> nth_error infos (S i) = Some next ->
        ri_startDay next = ri_endDay prev
        /\ ri_startIndex next = ri_endIndex prev).
Proof.
  intros Hne Hlen Hrun.
  destruct (checkInPeriod_runs_spec config datePrices Hne Hlen)
    as (first & r' & infos' & Hfirst & Hrun' & _ & Hruns).
  rewrite Hrun in Hrun'. inversion Hrun'; subst r' infos'.
  destruct (hd_index datePrices Hne) as (first' & Hfirst' & Hdate & _).
  rewrite Hfirst in Hfirst'. inversion Hfirst'; subst first'.
  destruct (runs_adjacent _ _ _ _ _ _ _ _ Hruns) as (H0 & He & HS).
  split; [|split].
  - intros info Hinfo. pose proof (H0 info Hinfo) as Hs.
    rewrite Hdate in Hs. split; [exact Hs|].
    intros Hasc.
    assert (Hin : In info infos) by (apply (nth_error_In infos 0); exact Hinfo).
    destruct (runs_window _ _ _ _ _ _ _ _ Hruns info Hin)
      as (run' & endDay' & Hwin).
    destruct Hwin as (_ & _ & _ & Hsi & _).
    rewrite Hs in Hsi. rewrite findClosestDay_unfold in Hsi. cbv zeta in Hsi.
    destruct (Search_ascending (date_at datePrices 0) datePrices Hlen Hasc)
      as (Hb & Hlo & _).
    set (i := Search (len datePrices)
                (on_or_after (date_at datePrices 0) datePrices)) in *.
    destruct (Z.eqb_spec i (len datePrices)); [discriminate|].
    inversion Hsi as [Hi].
    destruct (Z.eq_dec i 0) as [|Hi0]; [assumption|].
    specialize (Hlo 0 ltac:(lia)). lia.
  - intros info Hin. split; [now apply He|].
    destruct (runs_window _ _ _ _ _ _ _ _ Hruns info Hin)
      as (run' & endDay' & Hwin).
    destruct Hwin as (_ & _ & _ & Hsi & Hei & _). split; assumption.
  - exact HS.
Qed.

(** ** The first satisfying day *)

(** X4. The scan of a run stops on the first satisfying sample. The two
    indices of a record are indices of the slice. In a record with a sale
    at [k], [k] lies in the window [startIndex .. endIndex - 1], the test
    [float64(heldShares) * price >= targetCapital] holds at [k] with the
    shares held when the scan starts, and fails at every earlier index of
    the window. In a record without a sale the test fails at every index
    of the window. *)
Theorem first_satisfying_day (config : config) (datePrices : list datePrice)
  (r heldShares : Z) (infos : list runInfo) (info : runInfo) :
  datePrices <> [] -> len datePrices <= MaxInt64 ->
  checkInPeriod_runs config datePrices = Ok (r, heldShares, infos) ->
  In info infos ->
  0 <= ri_startIndex info < len datePrices
  /\ 0 <= ri_endIndex info < len datePrices
  /\ match ri_sale info with
     | Some (k, soldShares) =>
         ri_startIndex info <= k < ri_endIndex info
         /\ satisfied_at datePrices (ri_heldBefore info)
              (ri_targetCapital info) k = true
         /\ (forall j, ri_startIndex info <= j < k ->
               satisfied_at datePrices (ri_heldBefore info)
                 (ri_targetCapital info) j = false)
     | None =>
         forall j, ri_startIndex info <= j < ri_endIndex info ->
           satisfied_at datePrices (ri_heldBefore info)
             (ri_targetCapital info) j = false
     end.
Proof.
  intros Hne Hlen Hrun Hin.
  destruct (checkInPeriod_runs_spec config datePrices Hne Hlen)
    as (first & r' & infos' & Hfirst & Hrun' & _ & Hruns).
  rewrite Hrun in Hrun'. inversion Hrun'; subst r' infos'.
  destruct (runs_window _ _ _ _ _ _ _ _ Hruns info Hin)
    as (run' & endDay' & Hwin).
  destruct Hwin as (_ & _ & _ & Hsi & Hei & _ & _ & _ & Hsale).
  split; [exact (findClosestDay_found _ _ _ Hlen Hsi)|].
  split; [exact (findClosestDay_found _ _ _ Hlen Hei)|].
  destruct (ri_sale info) as [[k soldShares]|].
  - destruct Hsale as (Hk & Hsat & Hfirstk & _). auto.
  - apply Hsale.
Qed.

(** ** The result and the runs processed *)

Lemma runs_shape config datePrices fuel run heldShares endDay r infos :
  in_int (config_run config) ->
  runs config datePrices fuel run heldShares endDay r infos ->
  0 <= run -> Z.of_nat fuel = Z.max 0 (config_run config - run) ->
  (r = success -> length infos = fuel /\ Forall made_sale infos)
  /\ (r = failed ->
      exists init final, infos = init ++ [final] /\ Forall made_sale init
                         /\ ri_sale final = None)
  /\ (r = na -> (length infos < fuel)%nat /\ Forall made_sale infos).
Proof.
  intros Hint.
  induction 1 as [fuel run held endDay Hdone
                 | fuel run held endDay Hlt Hday
                 | fuel run held endDay info Hlt Hwin Hsale
                 | fuel run held endDay info r infos Hlt Hwin Hsale Hruns IH];
    intros Hrun Hfuel.
  - assert (fuel = O) by lia. subst fuel.
    split; [|split]; intros H; try discriminate. split; [reflexivity|constructor].
  - split; [|split]; intros H; try discriminate.
    split; [cbn; lia | constructor].
  - split; [|split]; intros H; try discriminate.
    exists [], info. split; [reflexivity|]. split; [constructor|exact Hsale].
  - rewrite (run_succ config run Hint ltac:(unfold MinInt64; lia) Hlt) in IH.
    specialize (IH ltac:(lia) ltac:(lia)). destruct IH as (IHs & IHf & IHn).
    split; [|split]; intros H.
    + destruct (IHs H) as (Hl & Hall). split; [cbn; lia|].
      constructor; assumption.
    + destruct (IHf H) as (init & final & -> & Hall & Hnone).
      exists (info :: init), final. split; [reflexivity|].
      split; [constructor; assumption | exact Hnone].
    + destruct (IHn H) as (Hl & Hall). split; [cbn [length]; lia|].
      constructor; assumption.
Qed.

(** X5. The result tells how the runs went. On success the simulation
    has processed [config.run] runs (none when [config.run <= 0]), each
    with a sale; on failed the last run processed has no sale and every
    run before it has one; on na fewer than [config.run] runs were
    processed, each with a sale. *)
Theorem result_and_runs (config : config) (datePrices : list datePrice)
  (r heldShares : Z) (infos : list runInfo) :
  in_int (run config) ->
  datePrices <> [] -> len datePrices <= MaxInt64 ->
  checkInPeriod_runs config datePrices = Ok (r, heldShares, infos) ->
  (r = success ->
     Z.of_nat (length infos) = Z.max 0 (run config) /\ Forall made_sale infos)
  /\ (r = failed ->
      exists init final, infos = init ++ [final] /\ Forall made_sale init
                         /\ ri_sale final = None)
  /\ (r = na ->
      Z.of_nat (length infos) < run config /\ Forall made_sale infos).
Proof.
  intros Hint Hne Hlen Hrun.
  destruct (checkInPeriod_runs_spec config datePrices Hne Hlen)
    as (first & r' & infos' & Hfirst & Hrun' & _ & Hruns).
  rewrite Hrun in Hrun'. inversion Hrun'; subst r' infos'.
  destruct (runs_shape _ _ _ _ _ _ _ _ Hint Hruns ltac:(lia))
    as (Hs & Hf & Hn).
  { unfold config_run. lia. }
  split; [|split]; intros H.
  - destruct (Hs H) as (Hl & Hall). split; [lia | exact Hall].
  - exact (Hf H).
  - destruct (Hn H) as (Hl & Hall). split; [lia | exact Hall].
Qed.

(** ** Periods without a day *)

(** X6. When adding [yearPerRun] years does not move the date of the
    first sample (as with [yearPerRun = 0]), a simulation of at least one
    run on an ascending series fails in its first run: both days are found
    at index 0, the window is empty and nothing is sold, whatever the
    capital and the prices. *)
Theorem same_day_period_fails (config : config) (datePrices : list datePrice) :
  datePrices <> [] -> len datePrices <= MaxInt64 -> ascending datePrices ->
  1 <= run config ->
  time_AddDate (yearPerRun config) (date_at datePrices 0)
  = date_at datePrices 0 ->
  exists heldShares info,
    checkInPeriod_runs config datePrices = Ok (failed, heldShares, [info])
    /\ checkInPeriod config datePrices = Ok failed
    /\ ri_startIndex info = 0 /\ ri_endIndex info = 0
    /\ ri_sale info = None.
Proof.
  intros Hne Hlen Hasc Hrun Hsame.
  destruct (checkInPeriod_runs_spec config datePrices Hne Hlen)
    as (first & r & infos & Hfirst & Hruns_eq & Hcheck & Hruns).
  destruct (hd_index datePrices Hne) as (first' & Hfirst' & Hdate & _).
  rewrite Hfirst in Hfirst'. inversion Hfirst'; subst first'.
  rewrite Hdate in Hruns.
  assert (Hlast : date_at datePrices 0 <= last_day datePrices).
  { rewrite <- (nth_last_day datePrices Hne).
    assert (0 < len datePrices)
      by (destruct datePrices; [congruence | unfold len; cbn [length]; lia]).
    apply ascending_date_at; [assumption|lia|lia|lia]. }
  destruct (Z.to_nat (run config)) as [|fuel] eqn:Efuel; [lia|].
  inversion Hruns as [? ? ? ? Hdone | ? ? ? ? Hlt Hday
                      | ? ? ? ? info Hlt Hwin Hsale
                      | ? ? ? ? info r' infos' Hlt Hwin Hsale Hrest]; subst.
  - exfalso. destruct Hdone as [|Hdone]; [discriminate|].
    unfold config_run in Hdone. lia.
  - exfalso. rewrite Hsame in Hday. lia.
  - exists (initial_shares config first), info.
    split; [exact Hruns_eq|]. split; [exact Hcheck|].
    pose proof Hwin as (_ & Hs & He & Hsi & Hei & _).
    rewrite He, Hsame in Hei. rewrite Hs in Hsi.
    assert (Hi0 : ri_startIndex info = 0).
    { rewrite findClosestDay_unfold in Hsi. cbv zeta in Hsi.
      destruct (Search_ascending (date_at datePrices 0) datePrices Hlen Hasc)
        as (Hb & Hlo & _).
      set (i := Search (len datePrices)
                  (on_or_after (date_at datePrices 0) datePrices)) in *.
      destruct (Z.eqb_spec i (len datePrices)); [discriminate|].
      inversion Hsi as [Hi].
      destruct (Z.eq_dec i 0) as [|Hi0]; [assumption|].
      specialize (Hlo 0 ltac:(lia)). lia. }
    split; [exact Hi0|]. split; [congruence | exact Hsale].
  - exfalso.
    pose proof Hwin as (_ & Hs & He & Hsi & Hei & _).
    rewrite He, Hsame in Hei. rewrite Hs in Hsi.
    assert (Heq : ri_startIndex info = ri_endIndex info) by congruence.
    destruct (runs_empty_window _ _ _ _ _ _ _ _ Hruns info
                ltac:(left; reflexivity) Heq) as (_ & Hnone & _).
    contradiction.
Qed.

End Windows.

Lemma same_day_period_fails_witness :
  exists heldShares info,
    @checkInPeriod_runs go_amd64 no_year_config scenario_series
    = Ok (failed, heldShares, [info])
    /\ @checkInPeriod go_amd64 no_year_config scenario_series = Ok failed
    /\ ri_startIndex info = 0 /\ ri_endIndex info = 0
    /\ ri_sale info = None.
Proof.
  apply (@same_day_period_fails go_amd64 no_year_config scenario_series).
  - discriminate.
  - vm_compute. discriminate.
  - unfold ascending, scenario_series.
    repeat (constructor; try (unfold date_le; vm_compute; discriminate)).
  - vm_compute. discriminate.
  - vm_compute. reflexivity.
Defined.

(** ** Slices of an ascending series *)

Lemma ascending_tail (a : datePrice) (s : list datePrice) :
  ascending (a :: s) -> ascending s.
Proof. unfold ascending. intros H. now inversion H. Qed.

Lemma ascending_slice_from (s : list datePrice) (i : Z) :
  ascending s -> ascending (slice_from s i).
Proof.
  unfold slice_from. generalize (Z.to_nat i) as n. intros n. revert s.
  induction n as [|n IH]; intros s Hs; [exact Hs|].
  destruct s as [|a s']; [exact Hs|]. cbn [skipn]. apply IH.
  now apply ascending_tail with a.
Qed.

Lemma date_at_slice_from (s : list datePrice) (i k : Z) :
  0 <= i -> 0 <= k -> date_at (slice_from s i) k = date_at s (i + k).
Proof.
  intros Hi Hk. unfold date_at, slice_from. f_equal.
  rewrite nth_skipn. f_equal. lia.
Qed.

Lemma slice_from_nonempty (s : list datePrice) (i : Z) :
  0 <= i < len s -> slice_from s i <> [].
Proof.
  intros Hi Hnil. pose proof (slice_from_len s i ltac:(lia)) as Hl.
  rewrite Hnil in Hl. unfold len in Hl at 1. cbn [length] in Hl. lia.
Qed.

Section Tail.
Context {rt : GoRuntime}.

(** ** Starting dates too close to the end of the series *)

(** When the first period ends after the last sample of an ascending
    series, the simulation is not applicable. *)
Lemma checkInPeriod_beyond_data (config : config) (datePrices : list datePrice) :
  datePrices <> [] -> len datePrices <= MaxInt64 -> ascending datePrices ->
  1 <= run config ->
  last_day datePrices
  < time_AddDate (yearPerRun config) (date_at datePrices 0) ->
  checkInPeriod config datePrices = Ok na.
Proof.
  intros Hne Hlen Hasc Hrun Hbeyond.
  destruct (checkInPeriod_runs_spec config datePrices Hne Hlen)
    as (first & r & infos & Hfirst & _ & Hcheck & Hruns).
  destruct (hd_index datePrices Hne) as (first' & Hfirst' & Hdate & _).
  rewrite Hfirst in Hfirst'. inversion Hfirst'; subst first'.
  rewrite Hdate in Hruns. rewrite Hcheck. f_equal.
  assert (Hwindow : forall info,
             window_of config datePrices 0 (initial_shares config first)
               (date_at datePrices 0) info -> False).
  { intros info (_ & _ & He & _ & Hei & _).
    pose proof (findClosestDay_found _ _ _ Hlen Hei) as Hi.
    pose proof (findClosestDay_on_or_after _ _ _ Hlen Hei) as Hday.
    pose proof (ascending_date_at datePrices Hasc (ri_endIndex info)
                  (len datePrices - 1) ltac:(lia) ltac:(lia) ltac:(lia)) as Hle.
    rewrite nth_last_day in Hle by assumption. rewrite He in Hday. lia. }
  destruct (Z.to_nat (run config)) as [|fuel] eqn:Efuel; [lia|].
  inversion Hruns as [? ? ? ? Hdone | ? ? ? ? Hlt Hday
                      | ? ? ? ? info Hlt Hwin Hsale
                      | ? ? ? ? info r' infos' Hlt Hwin Hsale Hrest]; subst.
  - exfalso. destruct Hdone as [|Hdone]; [discriminate|].
    unfold config_run in Hdone. lia.
  - reflexivity.
  - exfalso. exact (Hwindow info Hwin).
  - exfalso. exact (Hwindow info Hwin).
Qed.

Lemma count_of_nth (r : Z) (rs : list Z) (i : nat) :
  (i < length rs)%nat -> nth i rs (-1) = r -> 1 <= count_of r rs.
Proof.
  intros Hi Hr. unfold count_of.
  assert (In r rs) by (rewrite <- Hr; now apply nth_In).
  pose proof (proj1 (count_occ_In Z.eq_dec rs r) H). lia.
Qed.

(** X7. On an ascending series and with at least one run, a starting
    index whose first period ends after the date of the last sample gives
    na: the simulation on [datePrices[i:]] returns na, so does the entry
    of [checkStrategy], and [naCount] is at least 1. *)
Theorem late_start_not_applicable (config : config)
  (datePrices : list datePrice) (rs : list Z) (rep : report) :
  len datePrices <= MaxInt64 -> ascending datePrices -> 1 <= run config ->
  checkStrategy config datePrices = (rs, Ok rep) ->
  forall i, (i < length datePrices)%nat ->
    last_day datePrices
    < time_AddDate (yearPerRun config) (date_at datePrices (Z.of_nat i)) ->
    checkInPeriod config (slice_from datePrices (Z.of_nat i)) = Ok na
    /\ nth i rs (-1) = na
    /\ 1 <= naCount (counts rep).
Proof.
  intros Hlen Hasc Hrun Hcheck i Hi Hbeyond.
  destruct (checkStrategy_spec config datePrices Hlen)
    as (rs' & rep' & Hcheck' & Hlrs & _ & Hnth & _ & _ & Hna).
  rewrite Hcheck in Hcheck'. inversion Hcheck'; subst rs' rep'.
  assert (Hiz : 0 <= Z.of_nat i < len datePrices) by (unfold len; lia).
  assert (Hsim : checkInPeriod config (slice_from datePrices (Z.of_nat i))
                 = Ok na).
  { apply checkInPeriod_beyond_data.
    - now apply slice_from_nonempty.
    - rewrite slice_from_len by lia. lia.
    - now apply ascending_slice_from.
    - exact Hrun.
    - rewrite slice_from_last_day by exact Hiz.
      rewrite date_at_slice_from by lia. rewrite Z.add_0_r. exact Hbeyond. }
  split; [exact Hsim|].
  pose proof (Hnth i Hi) as Hres. rewrite Hsim in Hres.
  assert (Hni : nth i rs (-1) = na) by congruence.
  split; [exact Hni|].
  rewrite Hna. apply (count_of_nth na rs i); [lia | exact Hni].
Qed.

(** ** No run to test *)

Lemma count_of_repeat (r x : Z) (n : nat) :
  count_of r (repeat x n) = if Z.eq_dec x r then Z.of_nat n else 0.
Proof.
  induction n as [|n IH]; cbn [repeat].
  - destruct (Z.eq_dec x r); reflexivity.
  - rewrite count_of_cons, IH. destruct (Z.eq_dec x r); lia.
Qed.

(** X8. With no run to test ([config.run <= 0]) the loop of
    [checkInPeriod] is not entered and every starting index is a success:
    [checkStrategy] counts [len(datePrices)] successes, no failed and no
    na. *)
Theorem no_run_all_success (config : config) (datePrices : list datePrice) :
  len datePrices <= MaxInt64 -> run config <= 0 ->
  exists rep,
    checkStrategy config datePrices
    = (repeat success (length datePrices), Ok rep)
    /\ successCount (counts rep) = len datePrices
    /\ failedCount (counts rep) = 0
    /\ naCount (counts rep) = 0.
Proof.
  intros Hlen Hrun.
  destruct (checkStrategy_spec config datePrices Hlen)
    as (rs & rep & Hcheck & Hlrs & _ & Hnth & Hs & Hf & Hn).
  assert (Hrs : rs = repeat success (length datePrices)).
  { apply (nth_ext _ _ (-1) (-1)); [rewrite repeat_length; exact Hlrs|].
    intros i Hi. rewrite Hlrs in Hi. rewrite nth_repeat_lt by exact Hi.
    pose proof (Hnth i Hi) as Hres.
    assert (Hiz : 0 <= Z.of_nat i < len datePrices) by (unfold len; lia).
    destruct (hd_index _ (slice_from_nonempty datePrices (Z.of_nat i) Hiz))
      as (first & Hfirst & _).
    unfold checkInPeriod, checkInPeriod_runs in Hres.
    rewrite Hfirst in Hres. cbn [bind] in Hres.
    replace (Z.to_nat (run config)) with O in Hres by lia.
    cbn [run_loop bind] in Hres. congruence. }
  subst rs. exists rep. split; [exact Hcheck|].
  rewrite Hs, Hf, Hn, !count_of_repeat. unfold len.
  split; [|split]; [destruct (Z.eq_dec success success); congruence | | ];
    match goal with
    | |- (if ?d then _ else _) = _ => destruct d; [discriminate|reflexivity]
    end.
Qed.

End Tail.

Lemma no_run_all_success_witness :
  exists rep,
    @checkStrategy go_amd64 no_run_config scenario_series
    = (repeat success (length scenario_series), Ok rep)
    /\ successCount (counts rep) = len scenario_series
    /\ failedCount (counts rep) = 0
    /\ naCount (counts rep) = 0.
Proof.
  apply (@no_run_all_success go_amd64 no_run_config scenario_series).
  - vm_compute. discriminate.
  - vm_compute. discriminate.
Defined.

(** ** The success rate *)

Lemma Prim2SF_one : Prim2SF 1 = S754_finite false 4503599627370496 (-52).
Proof. reflexivity. Qed.

(** A quotient of at most 1 rounds to a binary64 between 0 and 1. *)
Lemma rounds_to_unit (V : R) (q : spec_float) :
  rounds_to V q -> valid_binary q = true -> (0 <= V <= 1)%R ->
  SFleb (S754_zero false) q = true /\ SFleb q (Prim2SF 1) = true.
Proof.
  intros (m & e & Hm & Hacc & Hq) Hvalid HV. rewrite Prim2SF_one.
  apply Rabs_le_inv in Hacc. pose proof (pow2_pos e) as Hpe.
  destruct m as [|p|p]; [subst q; split; reflexivity| |lia].
  destruct (Z.leb_spec e 971) as [He|He]; subst q.
  2:{ exfalso. pose proof (pow2_le 972 e ltac:(lia)) as Hbig.
      pose proof (pow2_lt 1 972 ltac:(lia)) as H1. rewrite pow2_1 in H1.
      pose proof (IZR_pos_pos p). nra. }
  split; [reflexivity|].
  unfold SFleb, SFcompare.
  destruct (Z.compare_spec e (-52)) as [E|Hlt|Hgt]; [|reflexivity|exfalso].
  - subst e. rewrite Pos_compare_cont_Eq.
    destruct (Z.compare_spec (Zpos p) 4503599627370496) as [E|Hlt|Hgt];
      try reflexivity. exfalso.
    assert (Hp : (pow2 52 + 1 <= IZR (Zpos p))%R).
    { rewrite <- (pow2_IZR 52) by lia. rewrite <- plus_IZR. apply IZR_le.
      change (2 ^ 52) with 4503599627370496. lia. }
    assert (E : (pow2 52 * pow2 (-52) = 1)%R)
      by (rewrite <- pow2_add; apply pow2_0).
    nra.
  - destruct (valid_finite _ _ _ Hvalid) as (_ & _ & [E|Hnorm]); [lia|].
    apply IZR_le in Hnorm. rewrite pow2_IZR in Hnorm by lia.
    pose proof (pow2_le (-51) e ltac:(lia)) as Hle.
    assert (E : (pow2 52 * pow2 (-51) = 2)%R)
      by (rewrite <- pow2_add; apply pow2_1).
    pose proof (pow2_pos 52). pose proof (pow2_pos (-51)).
    assert (2 <= pow2 52 * pow2 e)%R by nra.
    assert (pow2 52 * pow2 e <= IZR (Zpos p) * pow2 e)%R by nra.
    assert (Htwo : (2 <= pow2 52)%R).
    { pose proof (pow2_le 1 52 ltac:(lia)) as Hone. now rewrite pow2_1 in Hone. }
    assert (pow2 e * 2 <= pow2 e * pow2 52)%R
      by (apply Rmult_le_compat_l; lra).
    lra.
Qed.

(** [float64(a) / float64(b)] for integers [0 <= a <= b] below 2^53,
    [b] positive. *)
Lemma ratio_unit (a b : Z) :
  0 <= a <= b -> 0 < b < 2 ^ 53 ->
  (0 <=? float64_of_int a / float64_of_int b)%float = true
  /\ (float64_of_int a / float64_of_int b <=? 1)%float = true.
Proof.
  intros Ha Hb.
  rewrite !FloatAxioms.leb_spec, FloatAxioms.div_spec, Prim2SF_zero.
  pose proof (Prim2SF_valid (float64_of_int a / float64_of_int b)) as Hvalid.
  rewrite FloatAxioms.div_spec in Hvalid.
  destruct (float64_of_int_exact b ltac:(lia))
    as [[Hb0 _]|[_ (mb & eb & Eb & Hbval)]]; [lia|].
  rewrite Eb in *.
  destruct (float64_of_int_exact a ltac:(lia))
    as [[Ha0 Ea]|[Hapos (ma & ea & Ea & Haval)]]; rewrite Ea in *.
  - split; reflexivity.
  - apply (rounds_to_unit (IZR a / IZR b)); [|exact Hvalid|].
    + pose proof (SFdiv_accuracy ma mb ea eb) as Hq. cbn [SF2R] in Hq.
      rewrite !Rmult_1_l, Haval, Hbval in Hq. exact Hq.
    + assert (0 < IZR a)%R by (apply IZR_lt; lia).
      assert (IZR a <= IZR b)%R by (apply IZR_le; lia).
      split.
      * apply Rlt_le. apply Rdiv_lt_0_compat; lra.
      * apply (Rmult_le_reg_r (IZR b)); [lra|]. field_simplify; lra.
Qed.

Section Rate.
Context {rt : GoRuntime}.

(** The rate that [checkStrategy] prints is the quotient of its counts. *)
Lemma checkStrategy_rate (config : config) (datePrices : list datePrice)
  (rs : list Z) (rep : report) :
  checkStrategy config datePrices = (rs, Ok rep) ->
  rate rep = success_rate (counts rep).
Proof.
  unfold checkStrategy.
  destruct (range_loop _ _ _ _ _) as [rs' [t|msg]]; cbn [bind];
    intros H; inversion H; subst. reflexivity.
Qed.

(** X9. When every simulation is na (as on the empty series), both
    [successCount] and [failedCount] are 0 and the rate that
    [checkStrategy] prints, [float64(0)/float64(0)], is a NaN: it is not
    equal to itself. *)
Theorem rate_without_result (config : config) (datePrices : list datePrice)
  (rs : list Z) (rep : report) :
  len datePrices <= MaxInt64 ->
  checkStrategy config datePrices = (rs, Ok rep) ->
  (forall r, In r rs -> r = na) ->
  successCount (counts rep) = 0 /\ failedCount (counts rep) = 0
  /\ Prim2SF (rate rep) = S754_nan
  /\ (rate rep =? rate rep)%float = false.
Proof.
  intros Hlen Hcheck Hall.
  pose proof (checkStrategy_rate _ _ _ _ Hcheck) as Hrate.
  destruct (checkStrategy_spec config datePrices Hlen)
    as (rs' & rep' & Hcheck' & _ & _ & _ & Hs & Hf & _).
  rewrite Hcheck in Hcheck'. inversion Hcheck'; subst rs' rep'.
  assert (Hcount : forall r, r <> na -> count_of r rs = 0).
  { intros r Hr. unfold count_of.
    rewrite (proj1 (count_occ_not_In Z.eq_dec rs r)); [reflexivity|].
    intros Hin. apply Hr. now apply Hall. }
  rewrite (Hcount success) in Hs by discriminate.
  rewrite (Hcount failed) in Hf by discriminate.
  split; [exact Hs|]. split; [exact Hf|].
  rewrite Hrate. unfold success_rate. rewrite Hs, Hf.
  split; reflexivity.
Qed.

(** X10. On a series of fewer than 2^53 samples with at least one
    simulation that is not na, the rate that [checkStrategy] prints is a
    float64 between 0 and 1. *)
Theorem rate_in_unit_interval (config : config) (datePrices : list datePrice)
  (rs : list Z) (rep : report) :
  len datePrices < 2 ^ 53 ->
  checkStrategy config datePrices = (rs, Ok rep) ->
  (exists r, In r rs /\ r <> na) ->
  (0 <=? rate rep)%float = true /\ (rate rep <=? 1)%float = true.
Proof.
  intros Hlen Hcheck (r & Hin & Hr).
  pose proof (checkStrategy_rate _ _ _ _ Hcheck) as Hrate.
  assert (Hlen' : len datePrices <= MaxInt64).
  { unfold MaxInt64. pose proof (Z.pow_lt_mono_r 2 53 63). lia. }
  destruct (checkStrategy_spec config datePrices Hlen')
    as (rs' & rep' & Hcheck' & Hlrs & Hres & _ & Hs & Hf & Hn).
  rewrite Hcheck in Hcheck'. inversion Hcheck'; subst rs' rep'.
  pose proof (count_of_total rs Hres) as Htotal.
  pose proof (count_of_nonneg success rs). pose proof (count_of_nonneg failed rs).
  pose proof (count_of_nonneg na rs).
  assert (Hsome : 1 <= count_of success rs + count_of failed rs).
  { rewrite Forall_forall in Hres. destruct (Hres r Hin) as [E|[E|E]];
      [| |contradiction]; subst r.
    - assert (0 < count_of success rs); [|lia]. unfold count_of.
      pose proof (proj1 (count_occ_In Z.eq_dec rs success) Hin). lia.
    - assert (0 < count_of failed rs); [|lia]. unfold count_of.
      pose proof (proj1 (count_occ_In Z.eq_dec rs failed) Hin). lia. }
  rewrite Hrate. unfold success_rate. rewrite Hs, Hf.
  rewrite int_add_small.
  2:{ unfold in_int, MinInt64, MaxInt64 in *. unfold len in *. lia. }
  apply ratio_unit; unfold len in *; lia.
Qed.

End Rate.

Section ParsingFacts.
Context {fm : GoFmt}.

(** ** parseCSVFile *)





Lemma read_rows_error (reader : list csvLine) :
  forall datePrices result err,
    read_rows reader datePrices = Ok (result, Some err) ->
    result = [] /\ exists msg, err = csv_error msg /\ In (Malformed msg) reader.
Proof.
  induction reader as [|[line|msg] reader IH]; intros datePrices result err;
    cbn [read_rows].
  - discriminate.
  - destruct (index line 0) as [field0|]; cbn [bind]; [|discriminate].
    destruct (Sscanf_date field0) as [[year month] day].
    destruct (index line 2) as [field2|]; cbn [bind]; [|discriminate].
    intros H. destruct (IH _ _ _ H) as (Hnil & msg & He & Hin).
    split; [exact Hnil|]. exists msg. split; [exact He | now right].
  - intros H. inversion H; subst. split; [reflexivity|].
    exists msg. split; [reflexivity | now left].
Qed.

(** X12. When [parseCSVFile] returns an error it returns no sample at
    all (nil), and the error is [io.EOF] on a file without any record, or
    the error of a line that the csv reader rejected. *)
Theorem parseCSVFile_error (reader : list csvLine) (result : list datePrice)
  (err : error) :
  parseCSVFile reader = Ok (result, Some err) ->
  result = []
  /\ ((reader = [] /\ err = io_EOF)
      \/ exists msg, err = csv_error msg /\ In (Malformed msg) reader).
Proof.
  destruct reader as [|[header|msg] reader]; cbn [parseCSVFile]; intros H.
  - inversion H; subst. split; [reflexivity | now left].
  - destruct (read_rows_error _ _ _ _ H) as (Hnil & msg & He & Hin).
    split; [exact Hnil|]. right. exists msg. split; [exact He | now right].
  - inversion H; subst. split; [reflexivity|]. right.
    exists msg. split; [reflexivity | now left].
Qed.


End ParsingFacts.

Section MainFacts.
Context {rt : GoRuntime} {fm : GoFmt}.


End MainFacts.


Lemma scenario_file_parsed :
  @parseCSVFile digits_fmt scenario_file = Ok (scenario_series, None).
Proof. vm_compute. reflexivity. Qed.

Lemma parseCSVFile_error_witness :
  @nil datePrice = []
  /\ ((malformed_file = [] /\ csv_error "parse error on line 3" = io_EOF)
      \/ exists msg, csv_error "parse error on line 3" = csv_error msg
                     /\ In (Malformed msg) malformed_file).
Proof.
  apply (@parseCSVFile_error digits_fmt malformed_file []
           (csv_error "parse error on line 3")).
  vm_compute. reflexivity.
Defined.

(** ** More data *)

Lemma ascending_prefix (s t : list datePrice) :
  ascending (s ++ t) -> ascending s.
Proof.
  unfold ascending. induction s as [|a s IH]; intros H; [constructor|].
  cbn [app] in H. inversion H as [|? ? Hs Hhd]; subst.
  constructor; [now apply IH|].
  destruct s as [|b s']; [constructor|].
  cbn [app] in Hhd. inversion Hhd; subst. now constructor.
Qed.

Lemma len_app (s t : list datePrice) : len (s ++ t) = len s + len t.
Proof. unfold len. rewrite length_app. lia. Qed.

Lemma date_at_app (s t : list datePrice) (k : Z) :
  0 <= k < len s -> date_at (s ++ t) k = date_at s k.
Proof.
  intros Hk. unfold date_at. f_equal. apply app_nth1. unfold len in Hk. lia.
Qed.

Lemma index_app (s t : list datePrice) (k : Z) :
  k < len s -> index (s ++ t) k = index s k.
Proof.
  intros Hk. unfold index, len in *. rewrite length_app.
  destruct (Z.leb_spec 0 k) as [H0|H0]; [|reflexivity].
  destruct (Z.ltb_spec k (Z.of_nat (length s))) as [_|]; [|lia].
  destruct (Z.ltb_spec k (Z.of_nat (length s + length t))) as [_|]; [|lia].
  cbn [andb]. rewrite nth_error_app1 by lia. reflexivity.
Qed.

(** A day found in an ascending series is found at the same index when
    later samples are appended. *)
Lemma findClosestDay_app (day : Time) (s t : list datePrice) (i : Z) :
  ascending (s ++ t) -> len (s ++ t) <= MaxInt64 ->
  findClosestDay day s = (i, true) ->
  findClosestDay day (s ++ t) = (i, true).
Proof.
  intros Hasc Hlen Hfound.
  pose proof (ascending_prefix s t Hasc) as Hs.
  pose proof (len_nonneg t) as Ht. rewrite len_app in Hlen.
  assert (Hlens : len s <= MaxInt64) by lia.
  pose proof (findClosestDay_found _ _ _ Hlens Hfound) as Hi.
  destruct (Search_ascending day s Hlens Hs) as (Hb1 & Hlo1 & Hhi1).
  destruct (Search_ascending day (s ++ t) ltac:(rewrite len_app; lia) Hasc)
    as (Hb2 & Hlo2 & Hhi2).
  rewrite findClosestDay_unfold in Hfound. cbv zeta in Hfound.
  rewrite findClosestDay_unfold. cbv zeta.
  set (r1 := Search (len s) (on_or_after day s)) in *.
  set (r2 := Search (len (s ++ t)) (on_or_after day (s ++ t))) in *.
  destruct (Z.eqb_spec r1 (len s)); [discriminate|].
  inversion Hfound; subst i. rewrite len_app in *.
  assert (Hr : r2 = r1).
  { destruct (Z.lt_trichotomy r2 r1) as [Hlt|[E|Hgt]]; [exfalso|exact E|exfalso].
    - specialize (Hlo1 r2 ltac:(lia)). specialize (Hhi2 r2 ltac:(lia)).
      rewrite date_at_app in Hhi2 by lia. lia.
    - specialize (Hlo2 r1 ltac:(lia)). specialize (Hhi1 r1 ltac:(lia)).
      rewrite date_at_app in Hlo2 by lia. lia. }
  rewrite Hr. destruct (Z.eqb_spec r1 (len s + len t)); [lia | reflexivity].
Qed.

Section MoreData.
Context {rt : GoRuntime}.

Lemma scan_app (s t : list datePrice) (heldShares : Z)
  (targetCapital costOfLiving : float) (endIndex : Z) (fuel : nat) :
  endIndex <= len s ->
  forall currIndex,
    scan fuel (s ++ t) heldShares targetCapital costOfLiving currIndex endIndex
    = scan fuel s heldShares targetCapital costOfLiving currIndex endIndex.
Proof.
  intros Hend. induction fuel as [|fuel IH]; intros currIndex; cbn [scan].
  - reflexivity.
  - destruct (Z.ltb_spec currIndex endIndex) as [Hlt|]; [|reflexivity].
    rewrite index_app by lia.
    destruct (index s currIndex) as [datePrice|msg]; cbn [bind]; [|reflexivity].
    destruct (float_ge _ _); [reflexivity | apply IH].
Qed.

Lemma run_body_app (config : config) (s t : list datePrice)
  (run heldShares : Z) (endDay : Time) (info : runInfo) :
  ascending (s ++ t) -> len (s ++ t) <= MaxInt64 ->
  run_body config s run heldShares endDay = Ok (Window info) ->
  run_body config (s ++ t) run heldShares endDay = Ok (Window info).
Proof.
  intros Hasc Hlen. unfold run_body.
  assert (Hlens : len s <= MaxInt64)
    by (rewrite len_app in Hlen; pose proof (len_nonneg t); lia).
  destruct (findClosestDay endDay s) as [startIndex sFound] eqn:Es.
  destruct (findClosestDay (time_AddDate (yearPerRun config) endDay) s)
    as [endIndex eFound] eqn:Ee.
  destruct sFound, eFound; cbn [negb orb]; try discriminate.
  rewrite (findClosestDay_app _ _ _ _ Hasc Hlen Es).
  rewrite (findClosestDay_app _ _ _ _ Hasc Hlen Ee). cbn [negb orb].
  pose proof (findClosestDay_found _ _ _ Hlens Es) as Hsi.
  pose proof (findClosestDay_found _ _ _ Hlens Ee) as Hei.
  rewrite !index_app by lia. rewrite scan_app by lia. intros H. exact H.
Qed.

(** A result other than na stays when later samples are appended. *)
Lemma run_loop_app (config : config) (s t : list datePrice) :
  ascending (s ++ t) -> len (s ++ t) <= MaxInt64 ->
  forall fuel run heldShares endDay r infos,
    run_loop fuel config s run heldShares endDay = Ok (r, infos) ->
    r <> na ->
    run_loop fuel config (s ++ t) run heldShares endDay = Ok (r, infos).
Proof.
  intros Hasc Hlen.
  induction fuel as [|fuel IH]; intros run heldShares endDay r infos;
    cbn [run_loop]; [auto|].
  destruct (run <? config_run config); [|auto].
  destruct (run_body config s run heldShares endDay) as [[|info]|msg] eqn:Eb;
    cbn [bind]; try discriminate.
  - intros H Hr. inversion H; subst. contradiction.
  - rewrite (run_body_app _ _ _ _ _ _ _ Hasc Hlen Eb). cbn [bind].
    destruct (ri_sale info); [|auto].
    destruct (run_loop fuel config s (int_add run 1) (ri_heldAfter info)
                (ri_endDay info)) as [[r' infos']|msg] eqn:El;
      cbn [bind]; [|discriminate].
    intros H Hr. inversion H; subst.
    rewrite (IH _ _ _ _ _ El Hr). reflexivity.
Qed.

Lemma checkInPeriod_app (config : config) (s t : list datePrice) (r : Z) :
  ascending (s ++ t) -> len (s ++ t) <= MaxInt64 ->
  checkInPeriod config s = Ok r -> r <> na ->
  checkInPeriod config (s ++ t) = Ok r.
Proof.
  intros Hasc Hlen. unfold checkInPeriod, checkInPeriod_runs.
  destruct (index s 0) as [first|msg] eqn:Ef; cbn [bind]; [|discriminate].
  pose proof (index_inv _ _ _ Ef) as [Hi _].
  rewrite index_app by lia. rewrite Ef. cbn [bind].
  destruct (run_loop _ config s 0 _ _) as [[r' infos]|msg] eqn:El;
    cbn [bind]; [|discriminate].
  intros H Hr. inversion H; subst r'.
  rewrite (run_loop_app config s t Hasc Hlen _ _ _ _ _ _ El Hr). reflexivity.
Qed.

Lemma slice_from_app (s t : list datePrice) (i : Z) :
  0 <= i <= len s -> slice_from (s ++ t) i = slice_from s i ++ t.
Proof.
  intros Hi. unfold slice_from, len in *. rewrite skipn_app.
  replace (Z.to_nat i - length s)%nat with O by lia. reflexivity.
Qed.

(** X15. More data does not change a result that is not na: when later
    samples are appended to a series (the whole staying ascending), every
    starting index whose simulation was a success or failed on the
    shorter series gets the same result on the longer one. *)
Theorem more_data_same_result (config : config) (s t : list datePrice)
  (rs1 rs2 : list Z) (rep1 rep2 : report) :
  ascending (s ++ t) -> len (s ++ t) <= MaxInt64 ->
  checkStrategy config s = (rs1, Ok rep1) ->
  checkStrategy config (s ++ t) = (rs2, Ok rep2) ->
  forall i, (i < length s)%nat -> nth i rs1 (-1) <> na ->
    nth i rs2 (-1) = nth i rs1 (-1).
Proof.
  intros Hasc Hlen H1 H2 i Hi Hna.
  assert (Hlens : len s <= MaxInt64)
    by (rewrite len_app in Hlen; pose proof (len_nonneg t); lia).
  destruct (checkStrategy_spec config s Hlens)
    as (rs1' & rep1' & H1' & _ & _ & Hnth1 & _).
  rewrite H1 in H1'. inversion H1'; subst rs1' rep1'.
  destruct (checkStrategy_spec config (s ++ t) Hlen)
    as (rs2' & rep2' & H2' & _ & _ & Hnth2 & _).
  rewrite H2 in H2'. inversion H2'; subst rs2' rep2'.
  pose proof (Hnth1 i Hi) as R1.
  pose proof (Hnth2 i ltac:(rewrite length_app; lia)) as R2.
  rewrite slice_from_app in R2 by (unfold len; lia).
  rewrite (checkInPeriod_app config (slice_from s (Z.of_nat i)) t
             (nth i rs1 (-1))) in R2.
  - congruence.
  - rewrite <- slice_from_app by (unfold len; lia).
    now apply ascending_slice_from.
  - rewrite <- slice_from_app by (unfold len; lia).
    rewrite slice_from_len by (rewrite len_app; unfold len; lia). lia.
  - exact R1.
  - exact Hna.
Qed.

End MoreData.

(** ** The calendar of go_amd64 *)









(** ** The day of a sale *)

Section SaleDay.
Context {rt : GoRuntime}.

(** X18. On an ascending series a sale is made on a day of the period:
    the date of the sample sold on is on or after the start day of the run
    and before its end day. The samples before the window are before the
    start day, and the sample at [endIndex] is on or after the end day. *)
Theorem sale_within_period (config : config) (datePrices : list datePrice)
  (r heldShares : Z) (infos : list runInfo) (info : runInfo)
  (k soldShares : Z) :
  datePrices <> [] -> len datePrices <= MaxInt64 -> ascending datePrices ->
  checkInPeriod_runs config datePrices = Ok (r, heldShares, infos) ->
  In info infos -> ri_sale info = Some (k, soldShares) ->
  ri_startDay info <= date_at datePrices k < ri_endDay info
  /\ (forall j, 0 <= j < ri_startIndex info ->
        date_at datePrices j < ri_startDay info)
  /\ ri_endDay info <= date_at datePrices (ri_endIndex info).
Proof.
  intros Hne Hlen Hasc Hrun Hin Hsale.
  destruct (checkInPeriod_runs_spec config datePrices Hne Hlen)
    as (first & r' & infos' & Hfirst & Hrun' & _ & Hruns).
  rewrite Hrun in Hrun'. inversion Hrun'; subst r' infos'.
  destruct (runs_window _ _ _ _ _ _ _ _ Hruns info Hin)
    as (run' & endDay' & Hwin).
  destruct Hwin as (_ & _ & _ & Hsi & Hei & _ & _ & _ & Hk).
  rewrite Hsale in Hk. destruct Hk as (Hk & _).
  pose proof (findClosestDay_found _ _ _ Hlen Hsi) as Hsb.
  pose proof (findClosestDay_found _ _ _ Hlen Hei) as Heb.
  rewrite findClosestDay_unfold in Hsi, Hei. cbv zeta in Hsi, Hei.
  destruct (Search_ascending (ri_startDay info) datePrices Hlen Hasc)
    as (_ & Hlo1 & Hhi1).
  destruct (Search_ascending (ri_endDay info) datePrices Hlen Hasc)
    as (_ & Hlo2 & Hhi2).
  destruct (Z.eqb_spec (Search (len datePrices)
                          (on_or_after (ri_startDay info) datePrices))
                       (len datePrices)); [discriminate|].
  destruct (Z.eqb_spec (Search (len datePrices)
                          (on_or_after (ri_endDay info) datePrices))
                       (len datePrices)); [discriminate|].
  inversion Hsi as [Es]. inversion Hei as [Ee].
  rewrite Es in *. rewrite Ee in *.
  split; [split|split].
  - apply Hhi1. lia.
  - apply Hlo2. lia.
  - exact Hlo1.
  - apply Hhi2. lia.
Qed.

End SaleDay.

(** ** No cost of living *)

Lemma SFmul_zero_l (s : bool) (y : spec_float) :
  SFmul prec emax (S754_zero s) y = S754_nan
  \/ exists s', SFmul prec emax (S754_zero s) y = S754_zero s'.
Proof. destruct y as [sy|sy| |sy my ey]; cbn [SFmul]; eauto. Qed.

(** [float64(z)] of a nonnegative integer is a zero or a positive finite
    number. *)
Lemma float64_of_int_finite (z : Z) :
  0 <= z <= MaxInt64 ->
  Prim2SF (float64_of_int z) = S754_zero false
  \/ exists m e, Prim2SF (float64_of_int z) = S754_finite false m e.
Proof.
  unfold MaxInt64. intros Hz. rewrite of_nonneg_int by lia.
  destruct z as [|p|p]; [now left | right | lia]. cbn [binary_normalize].
  destruct (binary_round_positive p 0) as (Hround & Hnz & _).
  destruct (binary_round prec emax false p 0) as [s|s| |s m e] eqn:E.
  - exfalso. exact (Hnz ltac:(lia) s eq_refl).
  - exfalso. apply rounds_to_infinity in Hround. rewrite pow2_0 in Hround.
    assert (IZR (Zpos p) < IZR (2 ^ 63))%R by (apply IZR_lt; lia).
    rewrite pow2_IZR in H by lia.
    pose proof (pow2_lt 63 971 ltac:(lia)). lra.
  - exfalso. destruct Hround as (m & e & Hm & _ & Hr).
    destruct m as [|q|q]; try lia; try discriminate.
    destruct (e <=? 971); discriminate.
  - destruct (rounds_to_finite _ _ _ _ Hround) as [-> _]. eauto.
Qed.

Section NoCost.
Context {rt : GoRuntime}.

(** With no cost per year the cost of living of a run is a zero or a
    NaN. *)
Lemma cost_formula_no_cost (config : config) (n : Z) :
  costPerYear config = 0 -> 0 <= yearPerRun config <= MaxInt64 ->
  Prim2SF (cost_formula config n) = S754_nan
  \/ exists s, Prim2SF (cost_formula config n) = S754_zero s.
Proof.
  intros Hcost Hy. unfold cost_formula. rewrite Hcost.
  rewrite !FloatAxioms.mul_spec. unfold SF64mul.
  change (Prim2SF (float64_of_int 0)) with (S754_zero false).
  destruct (SFmul_zero_l false (Prim2SF (float64_of_int (yearPerRun config))))
    as [E|[s E]]; rewrite E.
  - exfalso. destruct (float64_of_int_finite _ Hy) as [E'|(m & e & E')];
      rewrite E' in E; discriminate.
  - apply SFmul_zero_l.
Qed.

(** Without a cost of living no run sells a share. *)
Lemma runs_no_cost config datePrices fuel run heldShares endDay r infos :
  costPerYear config = 0 -> 0 <= yearPerRun config <= MaxInt64 ->
  len datePrices <= MaxInt64 -> Forall positive_price datePrices ->
  runs config datePrices fuel run heldShares endDay r infos ->
  in_int heldShares ->
  forall info, In info infos ->
    ri_heldBefore info = heldShares /\ ri_heldAfter info = heldShares
    /\ (forall k soldShares, ri_sale info = Some (k, soldShares) ->
          soldShares = 0).
Proof.
  intros Hcost Hy Hlen Hpos.
  induction 1 as [fuel run held endDay Hdone
                 | fuel run held endDay Hlt Hday
                 | fuel run held endDay info Hlt Hwin Hsale
                 | fuel run held endDay info r infos Hlt Hwin Hsale Hruns IH];
    intros Hheld info' Hin; cbn [In] in Hin; try contradiction.
  - destruct Hin as [ <- | [] ].
    destruct Hwin as (_ & _ & _ & _ & _ & _ & _ & Hb & Hs).
    rewrite Hsale in Hs. destruct Hs as (_ & Ha).
    split; [exact Hb|]. split; [exact Ha|]. intros k sold H. congruence.
  - assert (Hone : ri_heldBefore info = held /\ ri_heldAfter info = held
                   /\ forall k soldShares,
                        ri_sale info = Some (k, soldShares) -> soldShares = 0).
    { destruct Hwin as (_ & _ & _ & Hsi & Hei & Htarget & Hcol & Hb & Hs).
      split; [exact Hb|].
      destruct (ri_sale info) as [[k sold]|]; [|contradiction].
      destruct Hs as (Hk & Hsat & _ & Hsold & Ha).
      assert (Hzero : sold = 0).
      { pose proof (findClosestDay_found _ _ _ Hlen Hsi) as Hsb.
        pose proof (findClosestDay_found _ _ _ Hlen Hei) as Heb.
        assert (Hin' : In (nth (Z.to_nat k) datePrices zero_datePrice) datePrices).
        { apply nth_In. unfold len in *. lia. }
        rewrite Forall_forall in Hpos. pose proof (Hpos _ Hin') as Hp.
        unfold positive_price in Hp. fold (price_at datePrices k) in Hp.
        apply positive_float in Hp.
        rewrite Hsold. unfold sold_at, int64_of_float, float_trunc.
        rewrite FloatAxioms.div_spec, Hcol. unfold SF64div.
        destruct (cost_formula_no_cost config
                    (int_mul (int_add run 1) (yearPerRun config)) Hcost Hy)
          as [E|[s E]].
        - exfalso. unfold satisfied_at, float_ge in Hsat.
          rewrite FloatAxioms.leb_spec, Htarget in Hsat.
          unfold target_formula in Hsat. cbv zeta in Hsat.
          rewrite FloatAxioms.add_spec in Hsat. unfold SF64add in Hsat.
          unfold cost_formula in E. rewrite E in Hsat.
          destruct (Prim2SF (float64_of_int (capital config) * _));
            discriminate.
        - rewrite E.
          destruct (Prim2SF (price_at datePrices k)) as [sp|sp| |sp mp ep];
            cbn [is_positive] in Hp; try contradiction; reflexivity. }
      rewrite Hzero in Ha. split.
      - rewrite Ha. unfold int_sub. rewrite Z.sub_0_r.
        now apply wrap64_small.
      - intros k' sold' H. congruence. }
    destruct Hin as [ <- | Hin ]; [exact Hone|].
    destruct Hone as (_ & Ha & _). rewrite Ha in IH. now apply IH.
Qed.

(** X19. Without a cost of living ([costPerYear = 0]) and with positive
    prices no share is ever sold: every sale is of 0 shares, and every
    run starts and ends with the shares bought at the start. *)
Theorem no_cost_no_sale (config : config) (datePrices : list datePrice)
  (r heldShares : Z) (infos : list runInfo) :
  costPerYear config = 0 -> 0 <= yearPerRun config <= MaxInt64 ->
  datePrices <> [] -> len datePrices <= MaxInt64 ->
  Forall positive_price datePrices ->
  checkInPeriod_runs config datePrices = Ok (r, heldShares, infos) ->
  forall info, In info infos ->
    ri_heldBefore info = heldShares /\ ri_heldAfter info = heldShares
    /\ (forall k soldShares, ri_sale info = Some (k, soldShares) ->
          soldShares = 0).
Proof.
  intros Hcost Hy Hne Hlen Hpos Hrun.
  destruct (checkInPeriod_runs_spec config datePrices Hne Hlen)
    as (first & r' & infos' & Hfirst & Hrun' & _ & Hruns).
  rewrite Hrun in Hrun'. injection Hrun' as Er Eh Ei. subst r' infos'.
  rewrite <- Eh in Hruns.
  apply (runs_no_cost _ _ _ _ _ _ _ _ Hcost Hy Hlen Hpos Hruns).
  rewrite Eh. apply int64_of_float_in_int.
Qed.

End NoCost.

(** ** The properties on the scenarios *)

Lemma late_sale_series_ascending : ascending late_sale_series.
Proof.
  unfold ascending, late_sale_series.
  repeat (constructor; try (unfold date_le; vm_compute; discriminate)).
Qed.

Lemma windows_adjacent_witness :
  (forall info, nth_error [late_sale_first_run; late_sale_second_run] 0
                = Some info ->
     ri_startDay info = date_at late_sale_series 0
     /\ (ascending late_sale_series -> ri_startIndex info = 0))
  /\ (forall info, In info [late_sale_first_run; late_sale_second_run] ->
        ri_endDay info
        = @time_AddDate go_amd64 (yearPerRun late_sale_config)
            (ri_startDay info)
        /\ findClosestDay (ri_startDay info) late_sale_series
           = (ri_startIndex info, true)
        /\ findClosestDay (ri_endDay info) late_sale_series
           = (ri_endIndex info, true))
  /\ (forall i prev next,
        nth_error [late_sale_first_run; late_sale_second_run] i = Some prev ->
        nth_error [late_sale_first_run; late_sale_second_run] (S i)
        = Some next ->
        ri_startDay next = ri_endDay prev
        /\ ri_startIndex next = ri_endIndex prev).
Proof.
  apply (@windows_adjacent go_amd64 late_sale_config late_sale_series
           failed 100 [late_sale_first_run; late_sale_second_run]).
  - discriminate.
  - vm_compute. discriminate.
  - vm_compute. reflexivity.
Defined.

Lemma first_satisfying_day_witness :
  0 <= ri_startIndex late_sale_first_run < len late_sale_series
  /\ 0 <= ri_endIndex late_sale_first_run < len late_sale_series
  /\ match ri_sale late_sale_first_run with
     | Some (k, soldShares) =>
         ri_startIndex late_sale_first_run <= k
           < ri_endIndex late_sale_first_run
         /\ @satisfied_at late_sale_series
              (ri_heldBefore late_sale_first_run)
              (ri_targetCapital late_sale_first_run) k = true
         /\ (forall j, ri_startIndex late_sale_first_run <= j < k ->
               @satisfied_at late_sale_series
                 (ri_heldBefore late_sale_first_run)
                 (ri_targetCapital late_sale_first_run) j = false)
     | None =>
         forall j, ri_startIndex late_sale_first_run <= j
                   < ri_endIndex late_sale_first_run ->
           @satisfied_at late_sale_series
             (ri_heldBefore late_sale_first_run)
             (ri_targetCapital late_sale_first_run) j = false
     end.
Proof.
  apply (@first_satisfying_day go_amd64 late_sale_config late_sale_series
           failed 100 [late_sale_first_run; late_sale_second_run]).
  - discriminate.
  - vm_compute. discriminate.
  - vm_compute. reflexivity.
  - left. reflexivity.
Defined.

Lemma result_and_runs_witness :
  (failed = success ->
     Z.of_nat (length [late_sale_first_run; late_sale_second_run])
     = Z.max 0 (run late_sale_config)
     /\ Forall made_sale [late_sale_first_run; late_sale_second_run])
  /\ (failed = failed ->
      exists init final,
        [late_sale_first_run; late_sale_second_run] = init ++ [final]
        /\ Forall made_sale init /\ ri_sale final = None)
  /\ (failed = na ->
      Z.of_nat (length [late_sale_first_run; late_sale_second_run])
      < run late_sale_config
      /\ Forall made_sale [late_sale_first_run; late_sale_second_run]).
Proof.
  apply (@result_and_runs go_amd64 late_sale_config late_sale_series
           failed 100 [late_sale_first_run; late_sale_second_run]).
  - unfold in_int. vm_compute. split; discriminate.
  - discriminate.
  - vm_compute. discriminate.
  - vm_compute. reflexivity.
Defined.

Lemma late_start_not_applicable_witness :
  @checkInPeriod go_amd64 late_sale_config
    (slice_from late_sale_series (Z.of_nat 4)) = Ok na
  /\ nth 4 [failed; na; failed; failed; na] (-1) = na
  /\ 1 <= naCount (counts late_sale_report).
Proof.
  apply (@late_start_not_applicable go_amd64 late_sale_config late_sale_series
           [failed; na; failed; failed; na] late_sale_report).
  - vm_compute. discriminate.
  - exact late_sale_series_ascending.
  - vm_compute. discriminate.
  - vm_compute. reflexivity.
  - vm_compute. lia.
  - vm_compute. reflexivity.
Defined.

Lemma rate_without_result_witness :
  successCount (counts single_report) = 0
  /\ failedCount (counts single_report) = 0
  /\ Prim2SF (rate single_report) = S754_nan
  /\ (rate single_report =? rate single_report)%float = false.
Proof.
  apply (@rate_without_result go_amd64 scenario_config single_series [na]
           single_report).
  - vm_compute. discriminate.
  - vm_compute. reflexivity.
  - intros r [ <- | [] ]. reflexivity.
Defined.

Lemma rate_in_unit_interval_witness :
  (0 <=? rate late_sale_report)%float = true
  /\ (rate late_sale_report <=? 1)%float = true.
Proof.
  apply (@rate_in_unit_interval go_amd64 late_sale_config late_sale_series
           [failed; na; failed; failed; na] late_sale_report).
  - vm_compute. reflexivity.
  - vm_compute. reflexivity.
  - exists failed. split; [left; reflexivity | discriminate].
Defined.



Lemma more_data_same_result_witness :
  nth 0 [failed; failed; failed; failed; failed; na] (-1)
  = nth 0 [failed; na; failed; failed; na] (-1).
Proof.
  apply (@more_data_same_result go_amd64 late_sale_config late_sale_series
           [sample 2003 1 1 10%float]
           [failed; na; failed; failed; na]
           [failed; failed; failed; failed; failed; na]
           late_sale_report longer_sale_report).
  - unfold ascending, late_sale_series. cbn [app].
    repeat (constructor; try (unfold date_le; vm_compute; discriminate)).
  - vm_compute. discriminate.
  - vm_compute. reflexivity.
  - vm_compute. reflexivity.
  - vm_compute. lia.
  - vm_compute. discriminate.
Defined.



Lemma sale_within_period_witness :
  (ri_startDay late_sale_first_run <= date_at late_sale_series 1
   < ri_endDay late_sale_first_run)
  /\ (forall j, 0 <= j < ri_startIndex late_sale_first_run ->
        date_at late_sale_series j < ri_startDay late_sale_first_run)
  /\ ri_endDay late_sale_first_run
     <= date_at late_sale_series (ri_endIndex late_sale_first_run).
Proof.
  apply (@sale_within_period go_amd64 late_sale_config late_sale_series
           failed 100 [late_sale_first_run; late_sale_second_run]
           late_sale_first_run 1 50).
  - discriminate.
  - vm_compute. discriminate.
  - exact late_sale_series_ascending.
  - vm_compute. reflexivity.
  - left. reflexivity.
  - reflexivity.
Defined.

Lemma no_cost_no_sale_witness :
  ri_heldBefore gap_first_run = 100 /\ ri_heldAfter gap_first_run = 100
  /\ (forall k soldShares, ri_sale gap_first_run = Some (k, soldShares) ->
        soldShares = 0).
Proof.
  apply (@no_cost_no_sale go_amd64 gap_config gap_series failed 100
           [gap_first_run; gap_run]).
  - reflexivity.
  - vm_compute. split; discriminate.
  - discriminate.
  - vm_compute. discriminate.
  - unfold gap_series. repeat constructor.
  - vm_compute. reflexivity.
  - left. reflexivity.
Defined.
